(** * Summarize-Scientific-Documents.ipynb: a shallow embedding

    The notebook is a linear script of cells run by one Python kernel.  This
    development embeds the cells that carry behaviour of their own:

    - the dataset sampler (cell 2, [article_names]),
    - the submission of the job and its status check with the result joiner
      (cells 4 and 5: [topics], [docs], [results]),
    - the example display (cell 6, which rebinds the name [sample]),
    - the input selection loop (cell 9, [re.search]),
    - the asynchronous wait (cell 10, [WaiterConfig]).

    A cell is a function from the state of the kernel to an outcome: the
    namespace, the working directory, the random draws to come and the log
    of calls and output are threaded through, an exception halts the cell,
    and the one unbounded loop runs on fuel.  The services (S3, Comprehend,
    the inference endpoint) are an environment that answers the calls.

    Python values are modelled as follows.  A [str] is a list of Unicode code
    points.  A table read by pandas holds in every column what the reader
    has made of the cells: integers, floats, text or missing values; a
    finite float is modelled by the rational it denotes (the joiner only
    compares them).  The calls into [pandas], [random], [re] and [os.path]
    follow the documented behaviour of these libraries. *)

From Stdlib Require Import ZArith QArith Ascii String DecimalString List Permutation
  Sorted Lia.
From stdpp Require Import gmap strings list sorting.

Local Open Scope Z_scope.
Local Open Scope list_scope.

(** ** Python strings *)

Abbreviation char := N (only parsing).
Abbreviation str := (list N) (only parsing).

(** A string literal of the notebook. *)
Definition lit (s : string) : str :=
  N_of_ascii <$> list_ascii_of_string s.
Arguments lit : simpl never.

(** [sep.join(l)] *)
Fixpoint join (sep : str) (l : list str) : str :=
  match l with
  | [] => []
  | [x] => x
  | x :: l' => x ++ sep ++ join sep l'
  end.

(** [a <= b] on [str]: lexicographic on code points. *)
Fixpoint str_le (a b : str) : bool :=
  match a, b with
  | [], _ => true
  | _ :: _, [] => false
  | x :: a', y :: b' => (x <? y)%N || ((x =? y)%N && str_le a' b')
  end.

(** ** Exceptions *)

(** Exceptions that the modelled calls can raise. *)
Inductive exn :=
| NameError (name : string)
| KeyError (key : str)
| IndexError
| TypeError (msg : string)
| ValueError (msg : string)
| FileNotFoundError (path : str)
| PollingTimeoutError (seconds : nat).

(** ** Values of a table *)

(** A value of a table that [pd.read_csv] has read.  The reader types a
    column as a whole.  A column whose cells are all integers (of 64 bits)
    holds [Int]s, dtype [int64].  A column of numbers with a fraction or a
    missing cell among them holds [Float]s and [NaN]s, dtype [float64].
    Any other column has dtype [object] and holds the text of its cells as
    [Str]s, with the float [NaN] where a cell is missing: the cells that
    the reader takes for missing are the empty one and texts such as
    [null], [nan], [NA].  A float is modelled by the rational it denotes;
    columns of booleans and of integers beyond 64 bits are left out. *)
Inductive scalar :=
| Int (z : Z)
| Float (q : Q)
| NaN
| Str (s : str).

Inductive dtype := int64 | float64 | object.

Definition is_text (a : scalar) : bool :=
  match a with Str _ => true | _ => false end.
Definition is_int (a : scalar) : bool :=
  match a with Int _ => true | _ => false end.
Definition is_nan (a : scalar) : bool :=
  match a with NaN => true | _ => false end.

(** The dtype of a column, read off its values; a column without rows is
    an [object] column. *)
Definition column_dtype (column : list scalar) : dtype :=
  match column with
  | [] => object
  | _ :: _ =>
      if existsb is_text column then object
      else if forallb is_int column then int64
      else float64
  end.

Definition dtype_name (d : dtype) : string :=
  match d with
  | int64 => "int64"
  | float64 => "float64"
  | object => "object"
  end.

(** The name of the Python type of a value. *)
Definition type_name (a : scalar) : string :=
  match a with
  | Int _ => "int"
  | Float _ | NaN => "float"
  | Str _ => "str"
  end.

(** The order in which a sort lays out the values of a column, ascending:
    numbers by value, text by code points, missing values last.  Numbers
    and text do not share a column that was read from a file; the order
    puts numbers first, where Python has no order at all. *)
Definition scalar_le (a b : scalar) : bool :=
  match a, b with
  | Int x, Int y => x <=? y
  | Int x, Float q => Qle_bool (inject_Z x) q
  | Float p, Int y => Qle_bool p (inject_Z y)
  | Float p, Float q => Qle_bool p q
  | Str s, Str t => str_le s t
  | _, NaN => true
  | NaN, _ => false
  | _, Str _ => true
  | Str _, _ => false
  end.

(** [a == b] for the keys of a group and of a join: equal numbers (an
    integer equals the float of its value), equal text.  A missing value
    is the key of no group.  Where a column of integers is joined with a
    column of floats, later versions of pandas compare the integers as
    floats, which is the same for the integers that a float holds. *)
Definition same_key (a b : scalar) : bool :=
  negb (is_nan a) && negb (is_nan b) && scalar_le a b && scalar_le b a.

(** One key of [sort_values]: ascending or descending, and in both
    directions the missing values last ([na_position="last"]). *)
Definition key_le (ascending : bool) (a b : scalar) : bool :=
  match a, b with
  | _, NaN => true
  | NaN, _ => false
  | _, _ => if ascending then scalar_le a b else scalar_le b a
  end.

(** ** The result joiner (cell 5, lines 198-207) *)

Module Joiner.

(** A row of [topic-terms.csv]: columns topic, weight, term. *)
Record TermRow := mkTerm { topic : scalar; weight : scalar; term : scalar }.

(** A row of [doc-topics.csv]: columns docname, topic, proportion. *)
Record DocRow := mkDoc { docname : scalar; doc_topic : scalar; proportion : scalar }.

(** A row of [results]: the columns of [docs] followed by [term], which
    holds the string of a topic or, as [None], the missing value. *)
Record ResultRow := mkResult {
  res_docname : scalar;
  res_topic : scalar;
  res_proportion : scalar;
  res_term : option str
}.

(** [DataFrame.sort_values(by, ascending)] with several keys is a stable
    lexicographic sort: rows that compare equal keep the order of the file.
    [le x y] says that [x] may stand before [y]. *)
Section sort_values.
Context {A : Type} (le : A -> A -> bool).

Fixpoint insert_row (x : A) (l : list A) : list A :=
  match l with
  | [] => [x]
  | y :: l' => if le x y then x :: y :: l' else y :: insert_row x l'
  end.

Fixpoint sort_values (l : list A) : list A :=
  match l with
  | [] => []
  | x :: l' => insert_row x (sort_values l')
  end.
End sort_values.

(** Two keys, the first ascending and the second descending: the second
    decides between rows that the first does not tell apart. *)
Definition by_two {A} (first second : A → scalar) (a b : A) : bool :=
  if key_le true (first a) (first b)
  then if key_le true (first b) (first a)
       then key_le false (second a) (second b)
       else true
  else false.

(** [by=["topic", "weight"], ascending=[True, False]] *)
Definition term_le : TermRow → TermRow → bool := by_two topic weight.

(** [by=["docname", "proportion"], ascending=[True, False]] *)
Definition doc_le : DocRow → DocRow → bool := by_two docname proportion.

(** The group keys of [groupby(["topic"])]: the distinct topics, ascending;
    rows whose topic is missing belong to no group ([dropna=True]). *)
Fixpoint insert_key (k : scalar) (l : list scalar) : list scalar :=
  match l with
  | [] => [k]
  | y :: l' =>
      if scalar_le k y
      then if scalar_le y k then y :: l' else k :: y :: l'
      else y :: insert_key k l'
  end.

Definition group_keys (rows : list TermRow) : list scalar :=
  foldr insert_key [] (filter (λ a, is_nan a = false) (topic <$> rows)).

(** [", ".join(x)] on the values of a group, [i] items into it: every item
    has to be a [str], and the first that is not raises. *)
Fixpoint join_items (i : nat) (l : list scalar) : exn + list str :=
  match l with
  | [] => inr []
  | Str s :: l' =>
      match join_items (S i) l' with
      | inr ss => inr (s :: ss)
      | inl e => inl e
      end
  | a :: _ =>
      inl (TypeError ("sequence item " ++ NilZero.string_of_uint (Nat.to_uint i)
                      ++ ": expected str instance, " ++ type_name a ++ " found"))
  end.

(** [.groupby(["topic"])["term"].agg(lambda x: ", ".join(x))]: the function
    is called on the groups in the order of their keys, each group holding
    its terms in the order of the frame; the result is a Series indexed by
    topic. *)
Fixpoint agg (rows : list TermRow) (keys : list scalar) : exn + list (scalar * str) :=
  match keys with
  | [] => inr []
  | k :: keys' =>
      match join_items 0 (term <$> filter (λ r, same_key (topic r) k) rows) with
      | inl e => inl e
      | inr ss =>
          match agg rows keys' with
          | inl e => inl e
          | inr series => inr ((k, join (lit ", ") ss) :: series)
          end
      end
  end.

Definition groupby_agg (rows : list TermRow) : exn + list (scalar * str) :=
  agg rows (group_keys rows).

(** [topics] (lines 198-203) *)
Definition topics (topic_terms : list TermRow) : exn + list (scalar * str) :=
  groupby_agg (sort_values term_le topic_terms).

(** [docs] (lines 204-206) *)
Definition docs (doc_topics : list DocRow) : list DocRow :=
  sort_values doc_le doc_topics.

(** The keys of a merge have to be of one kind: pandas refuses to join a
    column of numbers with a column of text.  It goes by the dtypes of the
    two key columns, [index] being that of the index of the Series, and
    does not look at them when one side has rows and the other has none. *)
Definition mergeable (left : list scalar) (index : dtype) (right : list scalar) : bool :=
  match left, right with
  | [], _ :: _ | _ :: _, [] => true
  | _, _ =>
      match column_dtype left, index with
      | object, object => true
      | object, _ | _, object => false
      | _, _ => true
      end
  end.

(** [pd.merge(left, right, how="left", on="topic")]: the rows of [left] in
    their order; a row is repeated once per row of [right] with its key, and
    kept once with a missing term when [right] has none.  The text of the
    error is that of pandas before 2.2, which now names the key as well. *)
Definition merge_row (d : DocRow) (t : option str) : ResultRow :=
  mkResult (docname d) (doc_topic d) (proportion d) t.

Definition join_rows (left : list DocRow) (right : list (scalar * str)) :
    list ResultRow :=
  d ← left;
  match filter (λ kv, same_key kv.1 (doc_topic d)) right with
  | [] => [merge_row d None]
  | ms => (λ kv, merge_row d (Some kv.2)) <$> ms
  end.

Definition merge_left (left : list DocRow) (index : dtype) (right : list (scalar * str)) :
    exn + list ResultRow :=
  if mergeable (doc_topic <$> left) index right.*1 then inr (join_rows left right)
  else
    inl (ValueError ("You are trying to merge on "
                     ++ dtype_name (column_dtype (doc_topic <$> left)) ++ " and "
                     ++ dtype_name index
                     ++ " columns. If you wish to proceed you should use pd.concat")).

(** The dtype of the index of [topics]: that of the topic column. *)
Definition index_dtype (topic_terms : list TermRow) : dtype :=
  column_dtype (topic <$> topic_terms).

(** [results] (line 207), from the two tables as read. *)
Definition results (topic_terms : list TermRow) (doc_topics : list DocRow) :
    exn + list ResultRow :=
  match topics topic_terms with
  | inl e => inl e
  | inr series => merge_left (docs doc_topics) (index_dtype topic_terms) series
  end.

(** The columns of a result row that come from [docs]. *)
Definition doc_of (r : ResultRow) : DocRow :=
  mkDoc (res_docname r) (res_topic r) (res_proportion r).

End Joiner.

Import Joiner.


(** ** The Python runtime of the notebook *)

(** The parsed [S3Uri] of a data configuration, as [parse_s3_url] returns
    it: bucket and key. *)
Record JobProperties := mkJob {
  JobStatus : str;
  OutputDataConfig : str * str;
  InputDataConfig : str * str
}.

(** Values bound to the names of the kernel namespace. *)
Inductive value :=
| VNone
| VRandomSample                       (* the function [random.sample] *)
| VInt (z : Z)
| VFloat (q : Q)
| VNaN
| VStr (s : str)
| VStrList (l : list str)
| VTuple (bucket key : str)           (* what [parse_s3_url] returns *)
| VJob (p : JobProperties)
| VSeries (s : list (scalar * str))
| VDocs (rows : list DocRow)
| VFrame (rows : list ResultRow)
| VCell (c : option str)              (* a cell of the term column *)
| VMatch (group1 : str)               (* a [re.Match] with its first group *)
| VDict (inputs : str).               (* [{"inputs": ...}] *)

(** A file of the working directory: its characters, and what the readers
    outside the notebook make of them: [pd.read_csv] a table, [tar] the
    members of an archive. *)
Inductive file :=
| TextFile (text : str)
| TopicTermsCsv (text : str) (rows : list TermRow)
| DocTopicsCsv (text : str) (rows : list DocRow)
| TarGz (text : str) (members : list member)
with member :=
| Member (name : str) (content : file).

Definition file_text (f : file) : str :=
  match f with
  | TextFile t | TopicTermsCsv t _ | DocTopicsCsv t _ | TarGz t _ => t
  end.

(** Calls to the services and output of the kernel, in order of issue. *)
Inductive event :=
| Print (s : str)
| PrintValue (v : value)
| ListObjectsV2 (bucket prefix : str)
| DownloadData (path bucket key_prefix : str)
| UploadData (path bucket key_prefix : str)
| StartTopicsDetectionJob (number_of_topics : nat)
| DescribeTopicsDetectionJob (job : str)
| System (cmd : str)
| Display (rows : list ResultRow)
| PredictAsync (inputs : str)
| ObjectExists (attempt : nat)        (* one attempt of the waiter *)
| Sleep (seconds : nat)
| GetObject.

(** What the services answer.  They are an environment of the notebook. *)
Record cloud := Cloud {
  (* the keys under ["Contents"] of the PMC listing; [None] when the
     response has no such entry *)
  pmc_contents : option (list str);
  (* [sm_session.default_bucket()] *)
  default_bucket : str;
  (* the object stored under a bucket and key *)
  s3_object : str → str → option file;
  (* ["JobId"] of the start response *)
  started_job : str;
  (* ["TopicsDetectionJobProperties"] of the describe response *)
  job_properties : option JobProperties;
  (* the inference output object at the n-th attempt of the waiter *)
  inference_output : nat → option str;
  (* the digits that the interpreter prints for a float *)
  repr_float : Q → str
}.

Record kernel := Kernel {
  globals : gmap string value;        (* the namespace of the notebook *)
  files : gmap str file;              (* the local working directory *)
  rng : nat → nat;                    (* the random draws still to come *)
  log : list event
}.

Definition with_globals (f : gmap string value → gmap string value) (k : kernel) : kernel :=
  Kernel (f (globals k)) (files k) (rng k) (log k).
Definition with_files (f : gmap str file → gmap str file) (k : kernel) : kernel :=
  Kernel (globals k) (f (files k)) (rng k) (log k).
Definition with_rng (f : (nat → nat) → nat → nat) (k : kernel) : kernel :=
  Kernel (globals k) (files k) (f (rng k)) (log k).
Definition with_log (f : list event → list event) (k : kernel) : kernel :=
  Kernel (globals k) (files k) (rng k) (f (log k)).

(** The result of running code on a kernel: a value, an exception that
    halts the cell, or a loop that is still running when the fuel ends. *)
Inductive outcome (A : Type) :=
| Ok (a : A) (k : kernel)
| Raised (e : exn) (k : kernel)
| Running (k : kernel).
Arguments Ok {A} a k.
Arguments Raised {A} e k.
Arguments Running {A} k.

Definition M (A : Type) : Type := kernel → outcome A.

Global Instance M_ret : MRet M := fun A a k => Ok a k.
Global Instance M_bind : MBind M := fun A B f m k =>
  match m k with
  | Ok a k' => f a k'
  | Raised e k' => Raised e k'
  | Running k' => Running k'
  end.
Definition raise {A} (e : exn) : M A := fun k => Raised e k.
Definition out_of_fuel {A} : M A := fun k => Running k.

Definition emit (e : event) : M unit :=
  fun k => Ok tt (with_log (fun l => l ++ [e]) k).
Definition get_global (x : string) : M value :=
  fun k =>
    match globals k !! x with
    | Some v => Ok v k
    | None => Raised (NameError x) k
    end.
Definition set_global (x : string) (v : value) : M unit :=
  fun k => Ok tt (with_globals (insert x v) k).
Definition write_file (path : str) (f : file) : M unit :=
  fun k => Ok tt (with_files (insert path f) k).

(** [for x in l: body] *)
Fixpoint for_each {A} (l : list A) (body : A → M unit) : M unit :=
  match l with
  | [] => mret tt
  | x :: l' => body x;; for_each l' body
  end.

(** *** [random] *)

(** A draw below [n], for [n > 0]: the next value of the stream, reduced.
    Every value below [n] is the draw of some stream. *)
Definition randbelow (n : nat) : M nat :=
  fun k => Ok (rng k 0%nat `mod` n)%nat (with_rng (fun g i => g (S i)) k).

(** The selection loop of [random.sample] on a pool: the chosen slot is
    refilled with the last live element.
    [for i in range(k): j = randbelow(n - i); result[i] = pool[j];
     pool[j] = pool[n - i - 1]] *)
Fixpoint sample_pool {A} (pool : list A) (live k : nat) : M (list A) :=
  match k with
  | O => mret []
  | S k' =>
      j ← randbelow live;
      match pool !! j, pool !! (live - 1)%nat with
      | Some x, Some y =>
          rest ← sample_pool (<[j := y]> pool) (live - 1) k';
          mret (x :: rest)
      | _, _ => raise IndexError
      end
  end.

(** [4 ** _ceil(_log(x, 4))]: the least power of 4 that is at least [x],
    looked for from [p] upwards in at most [fuel] steps.  The logarithm of
    the library is a float; it gives this power as long as [x] stays far
    below 10^15, and a list is never that long. *)
Fixpoint pow4_above (fuel p x : nat) : nat :=
  match fuel with
  | O => p
  | S fuel' => if (x <=? p)%nat then p else pow4_above fuel' (4 * p) x
  end.

(** [setsize = 21; if k > 5: setsize += 4 ** _ceil(_log(k * 3, 4))] *)
Definition setsize (k : nat) : nat :=
  if (5 <? k)%nat then 21 + pow4_above (3 * k) 1 (3 * k) else 21.

(** [j = randbelow(n); while j in selected: j = randbelow(n)], with at
    most [fuel] draws after the first. *)
Fixpoint draw_fresh (fuel n : nat) (selected : gset nat) : M nat :=
  j ← randbelow n;
  if bool_decide (j ∈ selected) then
    match fuel with
    | O => out_of_fuel
    | S fuel' => draw_fresh fuel' n selected
    end
  else mret j.

(** The selection of [random.sample] with a set of the chosen indices.
    [for i in range(k): <draw j>; selected_add(j);
     result[i] = population[j]] *)
Fixpoint sample_set {A} (fuel : nat) (population : list A) (selected : gset nat)
    (k : nat) : M (list A) :=
  match k with
  | O => mret []
  | S k' =>
      j ← draw_fresh fuel (length population) selected;
      match population !! j with
      | Some x =>
          rest ← sample_set fuel population ({[j]} ∪ selected) k';
          mret (x :: rest)
      | None => raise IndexError
      end
  end.

(** [random.sample(population, k)]: the size check, then the selection:
    from a pool when the population is no larger than [setsize], with a
    set of chosen indices otherwise.  Each draw of the second way is
    repeated while it falls on a chosen index; [fuel] bounds the
    repetitions of one draw. *)
Definition random_sample {A} (fuel : nat) (population : list A) (k : nat) : M (list A) :=
  let n := length population in
  if (k <=? n)%nat then
    if (n <=? setsize k)%nat
    then sample_pool population n k
    else sample_set fuel population ∅ k
  else raise (ValueError "Sample larger than population or is negative").

(** Calling the value bound to a name with a list and a count, as in
    [sample(l, k)]. *)
Definition call_sample (fuel : nat) (f : value) (l : list str) (k : nat) : M (list str) :=
  match f with
  | VRandomSample => random_sample fuel l k
  | VFrame _ => raise (TypeError "'DataFrame' object is not callable")
  | _ => raise (TypeError "object is not callable")
  end.

(** *** [os.path] *)

Definition slash : char := 47%N.

(** [os.path.basename(p)]: what follows the last slash. *)
Definition basename (p : str) : str :=
  foldl (fun acc c => if (c =? slash)%N then [] else acc ++ [c]) [] p.

(** [os.path.join(a, b)] *)
Definition path_join (a b : str) : str :=
  match b, last a with
  | c :: _, _ => if (c =? slash)%N then b
                 else match last a with
                      | None => b
                      | Some d => if (d =? slash)%N then a ++ b else a ++ slash :: b
                      end
  | [], None => []
  | [], Some d => if (d =? slash)%N then a else a ++ [slash]
  end.

(** *** [str.replace] and [re.search] *)

Definition LF : char := 10%N.
Definition TAB : char := 9%N.
Definition SPACE : char := 32%N.

(** [s.replace(old, new)] for one-character strings. *)
Definition replace_char (old new : char) (s : str) : str :=
  (fun c => if (c =? old)%N then new else c) <$> s.

(** [s.startswith(p)], returning what follows the prefix. *)
Fixpoint strip_prefix (p s : str) : option str :=
  match p, s with
  | [], _ => Some s
  | _ :: _, [] => None
  | a :: p', b :: s' => if (a =? b)%N then strip_prefix p' s' else None
  end.

(** The greedy [.{,n}]: the longest run of at most [n] characters, none a
    line feed.  Nothing follows it in the pattern, so the longest run is
    the match. *)
Fixpoint dot_upto (n : nat) (s : str) : str :=
  match n, s with
  | S n', c :: s' => if (c =? LF)%N then [] else c :: dot_upto n' s'
  | _, _ => []
  end.

(** The pattern ["Background (.{,1000})"] matched at the start of [s]:
    group 1 of the match. *)
Definition match_here (s : str) : option str :=
  rest ← strip_prefix (lit "Background ") s;
  Some (dot_upto 1000 rest).

(** [re.search("Background (.{,1000})", text)]: the match at the leftmost
    position that has one. *)
Fixpoint re_search (text : str) : option str :=
  match match_here text with
  | Some g => Some g
  | None =>
      match text with
      | [] => None
      | _ :: text' => re_search text'
      end
  end.

(** Line 321: [f.read().replace("\n", " ").replace("\t", " ")] *)
Definition flatten (content : str) : str :=
  replace_char TAB SPACE (replace_char LF SPACE content).

(** ** The cells *)

Definition pmc_bucket : str := lit "pmc-oa-opendata".
Definition pmc_prefix : str := lit "oa_comm/txt/all/".
Definition local_raw_data_dir : str := lit "data/raw/".
Definition s3_prefix : str := lit "sci-docs/data".

(** [sm_session.download_data(path, bucket, key_prefix)] for the key of one
    object: the object, when the bucket has it, is written under [path]. *)
Definition download_data (c : cloud) (path bucket key : str) : M unit :=
  emit (DownloadData path bucket key);;
  match s3_object c bucket key with
  | Some f => write_file (path_join path (basename key)) f
  | None => mret tt
  end.

(** Cell 1, line 44: [from random import sample]. *)
Definition cell_imports : M unit :=
  set_global "sample" VRandomSample.

(** Cell 2, lines 78-97, with the requested count as a parameter; [fuel]
    is that of the sampling. *)
Definition sample_articles (fuel count : nat) (c : cloud) : M unit :=
  (* lines 78-80 *)
  set_global "pmc_bucket" (VStr pmc_bucket);;
  set_global "pmc_prefix" (VStr pmc_prefix);;
  set_global "local_raw_data_dir" (VStr local_raw_data_dir);;
  (* lines 82-87 *)
  f ← get_global "sample";
  emit (ListObjectsV2 pmc_bucket pmc_prefix);;
  contents ← match pmc_contents c with
             | Some l => mret l
             | None => raise (KeyError (lit "Contents"))
             end;
  sampled ← call_sample fuel f contents count;
  let article_names := basename <$> sampled in
  set_global "article_names" (VStrList article_names);;
  (* lines 88-92 *)
  for_each article_names (fun article =>
    set_global "article" (VStr article);;
    emit (Print article);;
    download_data c local_raw_data_dir pmc_bucket (pmc_prefix ++ article));;
  (* lines 95-97 *)
  emit (UploadData local_raw_data_dir (default_bucket c) (s3_prefix ++ lit "/raw")).

(** Cell 2 as the notebook has it: 25 articles. *)
Definition cell_sample_articles (fuel : nat) : cloud → M unit := sample_articles fuel 25.

(** [pd.read_csv(path)]: the table of the file.  A file that is no table
    of the expected columns fails at the first column that the code asks
    for. *)
Definition read_topic_terms (path : str) : M (list TermRow) :=
  fun k =>
    match files k !! path with
    | None => Raised (FileNotFoundError path) k
    | Some (TopicTermsCsv _ rows) => Ok rows k
    | Some (DocTopicsCsv _ _) => Raised (KeyError (lit "weight")) k
    | Some _ => Raised (KeyError (lit "topic")) k
    end.

Definition read_doc_topics (path : str) : M (list DocRow) :=
  fun k =>
    match files k !! path with
    | None => Raised (FileNotFoundError path) k
    | Some (DocTopicsCsv _ rows) => Ok rows k
    | Some (TopicTermsCsv _ _) => Raised (KeyError (lit "docname")) k
    | Some _ => Raised (KeyError (lit "docname")) k
    end.

(** Line 196: [os.system("tar xvfz data/output.tar.gz -C data/")].  The
    command never raises; without an archive nothing is extracted. *)
Definition extract (archive dir : str) : M unit :=
  fun k =>
    match files k !! archive with
    | Some (TarGz _ members) =>
        Ok tt (with_files
                 (fun fs => foldr (fun '(Member name f) acc => <[dir ++ name := f]> acc)
                                  fs members) k)
    | _ => Ok tt k
    end.

Definition untar_output : M unit :=
  emit (System (lit "tar xvfz data/output.tar.gz -C data/"));;
  extract (lit "data/output.tar.gz") (lit "data/").

(** A computation of the joiner that ends in a value or an exception. *)
Definition lift {A} (r : exn + A) : M A :=
  fun k =>
    match r with
    | inr a => Ok a k
    | inl e => Raised e k
    end.

(** Lines 198-207: the joiner on the two extracted files. *)
Definition join_stage : M (list ResultRow) :=
  topic_terms ← read_topic_terms (lit "data/topic-terms.csv");
  series ← lift (topics topic_terms);
  set_global "topics" (VSeries series);;
  doc_topics ← read_doc_topics (lit "data/doc-topics.csv");
  set_global "docs" (VDocs (docs doc_topics));;
  res ← lift (merge_left (docs doc_topics) (index_dtype topic_terms) series);
  set_global "results" (VFrame res);;
  mret res.

(** The subscript [describe_topics_detection_job_result["JobStatus"]]; the
    default [[]] of [.get] has no string subscripts. *)
Definition job_of (v : value) : M JobProperties :=
  match v with
  | VJob p => mret p
  | _ => raise (TypeError "list indices must be integers or slices, not str")
  end.

(** A name that the notebook binds to a string. *)
Definition str_of (v : value) : M str :=
  match v with
  | VStr s => mret s
  | _ => raise (TypeError "expected str")
  end.

(** Cell 4, lines 156-164: the job is submitted and its identifier kept. *)
Definition cell_submit_job (c : cloud) : M unit :=
  emit (StartTopicsDetectionJob 25);;
  set_global "job_id" (VStr (started_job c));;
  emit (Print (lit "Job " ++ started_job c ++ lit " submitted")).

(** Lines 188-208, the stages behind the status check: download, unpack,
    join, display. *)
Definition downstream_stages (c : cloud) (p : JobProperties) : M unit :=
  (* lines 188-195 *)
  set_global "output_url" (VTuple (OutputDataConfig p).1 (OutputDataConfig p).2);;
  download_data c (lit "data") (OutputDataConfig p).1 (OutputDataConfig p).2;;
  (* line 196 *)
  untar_output;;
  (* lines 198-207 *)
  res ← join_stage;
  (* line 208 *)
  emit (Display res).

(** Cell 5, lines 182-208. *)
Definition cell_describe_and_join (c : cloud) : M unit :=
  (* lines 182-184 *)
  job ← get_global "job_id";
  job_id ← str_of job;
  emit (DescribeTopicsDetectionJob job_id);;
  let described := match job_properties c with Some p => VJob p | None => VStrList [] end in
  set_global "describe_topics_detection_job_result" described;;
  (* line 185 *)
  p ← job_of described;
  emit (Print (lit "Job " ++ job_id ++ lit " status is " ++ JobStatus p));;
  (* line 187 *)
  if bool_decide (JobStatus p = lit "COMPLETED")
  then downstream_stages c p
  else mret tt.

(** A name that the notebook binds to a DataFrame. *)
Definition frame_of (v : value) : M (list ResultRow) :=
  match v with
  | VFrame rows => mret rows
  | _ => raise (TypeError "expected DataFrame")
  end.

(** [DataFrame.sample()]: one row drawn at random, as a frame of one row;
    an empty frame has nothing to draw. *)
Definition frame_sample (rows : list ResultRow) : M (list ResultRow) :=
  match rows with
  | [] => raise (ValueError "a must be greater than 0 unless no samples are taken")
  | _ :: _ =>
      j ← randbelow (length rows);
      match rows !! j with
      | Some r => mret [r]
      | None => raise IndexError
      end
  end.

(** [str(terms)] in an f-string: a missing value prints as [nan]. *)
Definition cell_text (c : option str) : str :=
  match c with
  | Some s => s
  | None => lit "nan"
  end.

(** A value of a row, bound to a name. *)
Definition value_of (a : scalar) : value :=
  match a with
  | Int z => VInt z
  | Float q => VFloat q
  | NaN => VNaN
  | Str s => VStr s
  end.

(** [str(docname)] in an f-string. *)
Definition scalar_text (c : cloud) (a : scalar) : str :=
  match a with
  | Int z => lit (NilZero.string_of_int (Z.to_int z))
  | Float q => repr_float c q
  | NaN => lit "nan"
  | Str s => s
  end.

(** A component of [os.path.join]: a [str], or the call raises (the
    message goes on to name the class of the value). *)
Definition path_component (a : scalar) : M str :=
  match a with
  | Str s => mret s
  | _ => raise (TypeError "join() argument must be str, bytes, or os.PathLike object")
  end.

(** Cell 6, lines 226-240. *)
Definition cell_examples (c : cloud) : M unit :=
  (* line 226 *)
  described ← get_global "describe_topics_detection_job_result";
  p ← job_of described;
  if bool_decide (JobStatus p = lit "COMPLETED") then
    (* lines 228-230 *)
    let input_url := InputDataConfig p in
    set_global "input_url" (VTuple input_url.1 input_url.2);;
    (* line 231 *)
    res ← get_global "results";
    rows ← frame_of res;
    one ← frame_sample rows;
    set_global "sample" (VFrame one);;
    (* line 232 *)
    match one with
    | r :: _ =>
        set_global "docname" (value_of (res_docname r));;
        set_global "idx" (value_of (res_topic r));;
        set_global "score" (value_of (res_proportion r));;
        set_global "terms" (VCell (res_term r));;
        (* lines 234-235 *)
        emit (Print (lit "Document name is " ++ scalar_text c (res_docname r)));;
        emit (Print (lit "Identified terms are " ++ cell_text (res_term r)));;
        (* lines 237-240 *)
        name ← path_component (res_docname r);
        download_data c (lit "data") input_url.1 (path_join input_url.2 name);;
        emit (System (lit "head -n 25 data/" ++ name))
    | [] => raise IndexError
    end
  else mret tt.

(** A name that the notebook binds to a list of strings. *)
Definition list_of (v : value) : M (list str) :=
  match v with
  | VStrList l => mret l
  | _ => raise (TypeError "expected list")
  end.

(** Line 320: [open(f"data/raw/{art}", "r", encoding="utf-8",
    errors="replace")] and [f.read()]. *)
Definition read_article (art : str) : M str :=
  fun k =>
    match files k !! (lit "data/raw/" ++ art) with
    | Some f => Ok (file_text f) k
    | None => Raised (FileNotFoundError (lit "data/raw/" ++ art)) k
    end.

(** The summarisation input found in the content of one article, if any:
    lines 321-322 and [result.group(1)] of line 324. *)
Definition background_of (content : str) : option str :=
  re_search (flatten content).

(** Lines 317-322: the body of the loop.  One element is drawn, and one
    draw is never repeated: the sampling needs no fuel. *)
Definition selection_body : M unit :=
  f ← get_global "sample";
  names ← get_global "article_names";
  l ← list_of names;
  picked ← call_sample 0 f l 1;
  art ← match picked with
        | x :: _ => mret x
        | [] => raise IndexError
        end;
  set_global "art" (VStr art);;
  emit (Print art);;
  content ← read_article art;
  set_global "text" (VStr (flatten content));;
  set_global "result"
    match background_of content with
    | Some g => VMatch g
    | None => VNone
    end.

(** Line 316: [while result is None:], for at most [fuel] rounds. *)
Fixpoint selection_loop (fuel : nat) : M unit :=
  result ← get_global "result";
  match result with
  | VNone =>
      match fuel with
      | O => out_of_fuel
      | S fuel' => selection_body;; selection_loop fuel'
      end
  | _ => mret tt
  end.

(** [result.group(1)] *)
Definition group1 (v : value) : M str :=
  match v with
  | VMatch g => mret g
  | _ => raise (TypeError "object has no attribute 'group'")
  end.

(** Cell 9, lines 315-325. *)
Definition cell_select_input (fuel : nat) : M unit :=
  set_global "result" VNone;;
  selection_loop fuel;;
  result ← get_global "result";
  g ← group1 result;
  set_global "dict" (VDict g);;
  emit (PrintValue (VDict g)).

(** Line 337: [WaiterConfig(max_attempts=24, delay=15)] *)
Record WaiterConfig := mkWaiter { max_attempts : nat; delay : nat }.

(** Modelled from the spec: the wait of [get_result], which lives in the
    SDK and not in the notebook.  It is the bounded-retry wait policy of
    the specification: attempts to find the output, [delay] time units
    apart, until it is there or [max_attempts] attempts have been made.
    [left] counts the attempts still allowed after this one. *)
Fixpoint wait_for_output (c : cloud) (w : WaiterConfig) (left attempt : nat) : M str :=
  emit (ObjectExists attempt);;
  match inference_output c attempt with
  | Some out => mret out
  | None =>
      match left with
      | O => raise (PollingTimeoutError (delay w * max_attempts w))
      | S left' => emit (Sleep (delay w));; wait_for_output c w left' (S attempt)
      end
  end.

(** Modelled from the spec: [async_response.get_result(waiter)], the wait
    followed by the retrieval of the generated text. *)
Definition get_result (c : cloud) (w : WaiterConfig) : M str :=
  out ← wait_for_output c w (max_attempts w - 1) 1;
  emit GetObject;;
  mret out.

(** [data=dict]: the payload bound by cell 9; without it the name denotes
    the builtin type, which cannot be serialised. *)
Definition payload : M str :=
  fun k =>
    match globals k !! "dict" with
    | Some (VDict inputs) => Ok inputs k
    | _ => Raised (TypeError "Object of type type is not JSON serializable") k
    end.

(** Cell 10, lines 335-339. *)
Definition cell_predict (c : cloud) : M unit :=
  inputs ← payload;
  emit (PredictAsync inputs);;
  let waiter := mkWaiter 24 15 in
  result ← get_result c waiter;
  set_global "result" (VStr result);;
  emit (PrintValue (VStr result)).

(** ** Observations on a run *)

(** What a run answers: the value or the exception, if it has stopped. *)
Definition answer {A} (o : outcome A) : option (exn + A) :=
  match o with
  | Ok a _ => Some (inr a)
  | Raised e _ => Some (inl e)
  | Running _ => None
  end.

Definition kernel_of {A} (o : outcome A) : kernel :=
  match o with
  | Ok _ k | Raised _ k | Running k => k
  end.

(** The events that a run from [k] has added to the log. *)
Definition new_events {A} (k : kernel) (o : outcome A) : list event :=
  drop (length (log k)) (log (kernel_of o)).

Definition is_status_query (e : event) : bool :=
  match e with
  | DescribeTopicsDetectionJob _ => true
  | _ => false
  end.


Definition is_request (e : event) : bool :=
  match e with
  | PredictAsync _ => true
  | _ => false
  end.

Definition is_attempt (e : event) : bool :=
  match e with
  | ObjectExists _ => true
  | _ => false
  end.

(** The trace of [m] attempts of the waiter, numbered from [first] and
    [delay] time units apart. *)
Fixpoint attempts (delay first m : nat) : list event :=
  match m with
  | O => []
  | S m' =>
      ObjectExists first ::
      match m' with
      | O => []
      | S _ => Sleep delay :: attempts delay (S first) m'
      end
  end.

(** The doubles that the decimal texts 0.9, 0.5 and 0.8 of a CSV file
    denote. *)
Definition float_0_9 : Q := 8106479329266893 # 9007199254740992.
Definition float_0_5 : Q := 1 # 2.
Definition float_0_8 : Q := 3602879701896397 # 4503599627370496.

(** ** Sample kernels *)

(** The two tables of the scenario, and their files in a working
    directory. *)
Definition scenario_terms : list TermRow :=
  [mkTerm (Int 1) (Float float_0_9) (Str (lit "gene"));
   mkTerm (Int 1) (Float float_0_5) (Str (lit "cell"))].

Definition scenario_docs : list DocRow :=
  [mkDoc (Str (lit "a.txt")) (Int 1) (Float float_0_8)].

Definition scenario_row : ResultRow :=
  mkResult (Str (lit "a.txt")) (Int 1) (Float float_0_8) (Some (lit "gene, cell")).

Definition scenario_files : gmap str file :=
  <[lit "data/topic-terms.csv" :=
      TopicTermsCsv (lit "topic,weight,term")
        scenario_terms]>
  (<[lit "data/doc-topics.csv" :=
      DocTopicsCsv (lit "docname,topic,proportion") scenario_docs]> ∅).

(** A fresh kernel on the scenario files, and a kernel later in a session
    on the same two files: other names bound, another file around, other
    random draws to come, output already printed. *)
Definition scenario_kernel : kernel :=
  Kernel ∅ scenario_files (fun i => i) [].

Definition later_kernel : kernel :=
  Kernel (<["sample" := VRandomSample]> ∅)
         (<[lit "data/raw/PMC1.txt" := TextFile (lit "Background x")]> scenario_files)
         (fun _ => 7%nat)
         [Print (lit "S3 path")].

(** A listing of three articles, the services around it, and the kernel
    after the imports of cell 1. *)
Definition three_articles : list str :=
  [lit "oa_comm/txt/all/PMC1.txt"; lit "oa_comm/txt/all/PMC2.txt";
   lit "oa_comm/txt/all/PMC3.txt"].

Definition sample_cloud : cloud :=
  Cloud (Some three_articles)
        (lit "sagemaker-bucket")
        (fun bucket key =>
           if bool_decide (key = lit "oa_comm/txt/all/PMC2.txt")
           then Some (TextFile (lit "Title Background Cells divide."))
           else Some (TextFile (lit "Title Methods We counted.")))
        (lit "job-1")
        (Some (mkJob (lit "IN_PROGRESS")
                     (lit "sagemaker-bucket", lit "sci-docs/data/output/output.tar.gz")
                     (lit "sagemaker-bucket", lit "sci-docs/data/raw")))
        (fun attempt => if (attempt <? 3)%nat then None else Some (lit "Cells divide."))
        (fun q => lit "0.8").

Definition imported_kernel : kernel :=
  Kernel (<["sample" := VRandomSample]> ∅) ∅ (fun i => i) [].

(** ** Occurrences of the pattern *)

(** The eleven characters of [s] from position [i] on are the literal
    ["Background "]. *)
Definition occurs_at (i : nat) (s : str) : Prop :=
  take 11 (drop i s) = lit "Background ".

(** An article whose text holds the word twice, after a line feed and
    before a tab. *)
Definition sample_content : str :=
  lit "Title" ++ [LF] ++ lit "Background" ++ [TAB] ++ lit "Background noise.".

(** ** The rounds of the input selection *)

(** The article that round [i] of the loop draws; rounds count from 0. *)
Definition drawn (k : kernel) (names : list str) (i : nat) : option str :=
  names !! (rng k i `mod` length names)%nat.

(** Round [i] draws an article whose file yields the input [g]. *)
Definition round_yields (k : kernel) (names : list str) (i : nat) (g : str) : Prop :=
  ∃ art f,
    drawn k names i = Some art
    ∧ files k !! (lit "data/raw/" ++ art) = Some f
    ∧ background_of (file_text f) = Some g.

Definition round_matches (k : kernel) (names : list str) (i : nat) : Prop :=
  ∃ g, round_yields k names i g.

(** The kernel as cells 1 and 2 leave it: [sample] is the function of the
    [random] module, [article_names] lists the staged articles, and each
    has its file under [data/raw/]. *)
Record staged (k : kernel) (names : list str) : Prop := mkStaged {
  staged_sample : globals k !! "sample" = Some VRandomSample;
  staged_names : globals k !! "article_names" = Some (VStrList names);
  staged_some : names ≠ [];
  staged_files : ∀ art, art ∈ names → is_Some (files k !! (lit "data/raw/" ++ art))
}.

(** The kernel after a round of the loop that drew [art] with file [f]. *)
Definition after_round (k : kernel) (art : str) (f : file) : kernel :=
  Kernel (<["result" := match background_of (file_text f) with
                        | Some g => VMatch g
                        | None => VNone
                        end]>
          (<["text" := VStr (flatten (file_text f))]>
           (<["art" := VStr art]> (globals k))))
         (files k) (fun i => rng k (S i)) (log k ++ [Print art]).

(** The kernel that cells 1 and 2 leave on [sample_cloud] when three
    articles are asked for, and the names it has staged. *)
Definition staged_kernel : kernel :=
  kernel_of ((cell_imports;; sample_articles 0 3 sample_cloud)
               (Kernel ∅ ∅ (fun i => i) [])).

Definition three_names : list str :=
  [lit "PMC1.txt"; lit "PMC2.txt"; lit "PMC3.txt"].

(** The kernel after the status check of cell 5 (lines 182-185): the
    answer is bound, the query and the printed line are logged. *)
Definition after_check (k : kernel) (j : str) (p : JobProperties) : kernel :=
  Kernel (<["describe_topics_detection_job_result" := VJob p]> (globals k))
         (files k) (rng k)
         (log k ++ [DescribeTopicsDetectionJob j;
                    Print (lit "Job " ++ j ++ lit " status is " ++ JobStatus p)]).

(** The kernel after cell 4, and services whose job has completed with the
    tables of the scenario in its output archive. *)
Definition submitted_kernel : kernel :=
  kernel_of (cell_submit_job sample_cloud imported_kernel).


Definition completed_job : JobProperties :=
  mkJob (lit "COMPLETED")
        (lit "sagemaker-bucket", lit "sci-docs/data/output/output.tar.gz")
        (lit "sagemaker-bucket", lit "sci-docs/data/raw").

Definition output_archive : file :=
  TarGz (lit "output.tar.gz")
    [Member (lit "topic-terms.csv")
       (TopicTermsCsv (lit "topic,weight,term") scenario_terms);
     Member (lit "doc-topics.csv")
       (DocTopicsCsv (lit "docname,topic,proportion") scenario_docs)].

Definition completed_cloud : cloud :=
  Cloud (Some three_articles)
        (lit "sagemaker-bucket")
        (fun bucket key =>
           if bool_decide (key = lit "sci-docs/data/output/output.tar.gz")
           then Some output_archive
           else Some (TextFile (lit "Title Methods We counted.")))
        (lit "job-1")
        (Some completed_job)
        (fun attempt => None)
        (fun q => lit "0.8").

(** The kernel after cell 9 has selected its input on [staged_kernel]. *)
Definition selected_kernel : kernel :=
  kernel_of (cell_select_input 2 staged_kernel).

(** A session on [completed_cloud]: cells 1, 2 (three articles), 4 and 5
    have run, so the joined table is bound to [results]. *)
Definition session_kernel : kernel :=
  kernel_of ((cell_imports;;
              sample_articles 0 3 completed_cloud;;
              cell_submit_job completed_cloud;;
              cell_describe_and_join completed_cloud)
               (Kernel ∅ ∅ (fun i => i) [])).

(** ** The order and the equality of values, as relations *)

(** The number that a value denotes. *)
Definition as_number (a : scalar) : option Q :=
  match a with
  | Int z => Some (inject_Z z)
  | Float q => Some q
  | _ => None
  end.

(** [a] stands before [b], or level with it, in an ascending column:
    numbers by value, text by code points, numbers before text, and a
    missing value after everything. *)
Inductive precedes : scalar → scalar → Prop :=
| precedes_number a b p q :
    as_number a = Some p → as_number b = Some q → (p <= q)%Q → precedes a b
| precedes_text s t : str_le s t = true → precedes (Str s) (Str t)
| precedes_number_text a p t : as_number a = Some p → precedes a (Str t)
| precedes_missing a : precedes a NaN.

(** [a] and [b] are one key: one number, or one text. *)
Inductive key_eq : scalar → scalar → Prop :=
| key_eq_number a b p q :
    as_number a = Some p → as_number b = Some q → (p == q)%Q → key_eq a b
| key_eq_text s : key_eq (Str s) (Str s).

(** [a] stands before [b], or level with it, in a descending column: the
    greater first, and a missing value still after everything. *)
Definition follows (a b : scalar) : Prop :=
  b = NaN ∨ (a ≠ NaN ∧ precedes b a).

(** [a] comes strictly before [b]. *)
Definition strictly_before (a b : scalar) : Prop := scalar_le b a = false.

(** ** When the joiner runs to its end *)

(** Every row of the term table that has a topic has a string for its
    term. *)
Definition terms_are_text (topic_terms : list TermRow) : Prop :=
  ∀ t, t ∈ topic_terms → topic t ≠ NaN → ∃ s, term t = Str s.

(** A column holds text. *)
Definition text_in (column : list scalar) : Prop := ∃ s, Str s ∈ column.

(** A column is one of text: it holds a text, or it has no rows at all and
    the reader has typed it as it types text. *)
Definition text_column (column : list scalar) : Prop :=
  column = [] ∨ text_in column.

(** The term table has a row with a topic. *)
Definition has_topic (topic_terms : list TermRow) : Prop :=
  ∃ t, t ∈ topic_terms ∧ topic t ≠ NaN.

(** The topic columns of the two tables are of one kind, both of text or
    both of numbers, unless one side has rows to join and the other has
    none. *)
Definition joinable (topic_terms : list TermRow) (doc_topics : list DocRow) : Prop :=
  (doc_topics = [] ∧ has_topic topic_terms)
  ∨ (doc_topics ≠ [] ∧ ¬ has_topic topic_terms)
  ∨ (text_column (doc_topic <$> doc_topics) ↔ text_column (topic <$> topic_terms)).

(** ** Tables as the reader leaves them *)

(** The three shapes of a column that [pd.read_csv] has read: integers of
    64 bits; floats, among them missing values; text, among it missing
    values. *)
Definition int64_cell (a : scalar) : bool :=
  match a with
  | Int z => (- 2 ^ 63 <=? z) && (z <? 2 ^ 63)
  | _ => false
  end.
Definition float64_cell (a : scalar) : bool :=
  match a with
  | Float _ | NaN => true
  | _ => false
  end.
Definition object_cell (a : scalar) : bool :=
  match a with
  | Str _ | NaN => true
  | _ => false
  end.

Definition as_read (column : list scalar) : bool :=
  forallb int64_cell column || forallb float64_cell column
  || forallb object_cell column.

Definition terms_as_read (topic_terms : list TermRow) : Prop :=
  as_read (topic <$> topic_terms) = true
  ∧ as_read (weight <$> topic_terms) = true
  ∧ as_read (term <$> topic_terms) = true.

Definition docs_as_read (doc_topics : list DocRow) : Prop :=
  as_read (docname <$> doc_topics) = true
  ∧ as_read (doc_topic <$> doc_topics) = true
  ∧ as_read (proportion <$> doc_topics) = true.

(** An integer that a float holds exactly. *)
Definition exact_int (a : scalar) : bool :=
  match a with
  | Int z => Z.abs z <=? 2 ^ 53
  | _ => true
  end.

(** Two key columns whose integers are compared as they are: both are
    columns of integers, or every integer is one that a float holds.
    (Where a column of integers meets a column of floats, the versions of
    pandas differ on integers beyond 53 bits: the later ones compare the
    nearest floats.) *)
Definition keys_exact (left right : list scalar) : bool :=
  forallb is_int (left ++ right) || forallb exact_int (left ++ right).

(** The two tables of the joiner as the reader leaves them.  One pair is
    left out: a document table without rows beside a term table whose rows
    all lack a topic, where two key columns without values meet. *)
Definition tables_as_read (topic_terms : list TermRow) (doc_topics : list DocRow) : Prop :=
  terms_as_read topic_terms
  ∧ docs_as_read doc_topics
  ∧ keys_exact (doc_topic <$> doc_topics) (topic <$> topic_terms) = true
  ∧ (doc_topics ≠ [] ∨ topic_terms = [] ∨ has_topic topic_terms).

(** ** Sample tables *)

(** The term table of the scenario with its second term read as a missing
    value, as the reader does with a word such as [null]. *)
Definition missing_term_table : list TermRow :=
  [mkTerm (Int 1) (Float float_0_9) (Str (lit "gene"));
   mkTerm (Int 1) (Float float_0_5) NaN].

(** A term table whose topic column was read as text. *)
Definition text_topic_table : list TermRow :=
  [mkTerm (Str (lit "one")) (Float float_0_9) (Str (lit "gene"))].

(** ** The names that cell 2 binds first *)

(** The namespace after lines 78-80. *)
Definition pmc_constants (g : gmap string value) : gmap string value :=
  <["local_raw_data_dir" := VStr local_raw_data_dir]>
    (<["pmc_prefix" := VStr pmc_prefix]>
       (<["pmc_bucket" := VStr pmc_bucket]> g)).

(** ** Kernels that differ in their random draws only *)

(** The namespace, the files and the log of two kernels are the same. *)
Definition same_but_rng (k k' : kernel) : Prop :=
  globals k' = globals k ∧ files k' = files k ∧ log k' = log k.

(** ** The order that a stable sort leaves *)

(** Among the places of a list: the element at [i] may stand before the
    element at [j], and where either may stand before the other, [i] is
    the earlier place. *)
Definition stable_order {A} (le : A → A → bool) (l : list A) (i j : nat) : Prop :=
  ∀ a b, l !! i = Some a → l !! j = Some b →
         le a b = true ∧ (le b a = true → (i < j)%nat).

(** ** Cell 3 and further samples *)

(** Cell 3, lines 115-117: one staged article is drawn and its first lines
    are shown by the shell. *)
Definition cell_look_at_example : M unit :=
  (* line 115 *)
  f ← get_global "sample";
  names ← get_global "article_names";
  l ← list_of names;
  picked ← call_sample 0 f l 1;
  art ← match picked with
        | x :: _ => mret x
        | [] => raise IndexError
        end;
  set_global "art" (VStr art);;
  (* line 116 *)
  emit (Print art);;
  (* line 117 *)
  emit (System (lit "head data/raw/" ++ art)).

(** The first [count] draws of a kernel below [n]. *)
Definition sample_draws (k : kernel) (n count : nat) : list nat :=
  (λ i, rng k i `mod` n)%nat <$> seq 0 count.

(** The kernel in which [random.sample] is called by cell 2: the three
    names of lines 78-80 are bound and the listing has been requested. *)
Definition listed (k : kernel) : kernel :=
  Kernel (pmc_constants (globals k)) (files k) (rng k)
         (log k ++ [ListObjectsV2 pmc_bucket pmc_prefix]).

(** A listing of a thousand articles, as one page of [list_objects_v2]
    holds, and services that have an object for each of them. *)
Definition thousand_articles : list str :=
  (λ i, pmc_prefix ++ lit "PMC" ++ lit (NilZero.string_of_uint (Nat.to_uint i))
        ++ lit ".txt") <$> seq 0 1000.

Definition thousand_cloud : cloud :=
  Cloud (Some thousand_articles)
        (lit "sagemaker-bucket")
        (fun bucket key => Some (TextFile (lit "Title Methods We counted.")))
        (lit "job-1")
        None
        (fun attempt => None)
        (fun q => lit "0.8").

(** A term table with the rows of two topics interleaved and two terms of
    one weight, and a document table with numbers for names. *)
Definition mixed_terms : list TermRow :=
  [mkTerm (Int 1) (Float float_0_5) (Str (lit "cell"));
   mkTerm (Int 2) (Float float_0_9) (Str (lit "virus"));
   mkTerm (Int 1) (Float float_0_9) (Str (lit "gene"));
   mkTerm (Int 1) (Float float_0_5) (Str (lit "dna"))].

Definition numbered_documents : list DocRow :=
  [mkDoc (Int 10) (Int 1) (Float float_0_8);
   mkDoc (Int 9) (Int 2) (Float float_0_5);
   mkDoc (Int 9) (Int 3) (Float float_0_9)].

(** A kernel that names three articles but has none of their files, as
    after the cleanup of cell 11 ([rm -rf data]). *)
Definition unstaged_kernel : kernel :=
  Kernel (<["article_names" := VStrList three_names]> (<["sample" := VRandomSample]> ∅))
         ∅ (fun i => i) [].

(** What line 321 makes of one character: line feed and tab become a
    space. *)
Definition flat_char (c : char) : char :=
  if (c =? LF)%N then SPACE else if (c =? TAB)%N then SPACE else c.

(** Services whose describe response comes without the job properties. *)
Definition bare_cloud : cloud :=
  Cloud None (lit "sagemaker-bucket") (fun bucket key => None) (lit "job-1") None
        (fun attempt => None) (fun q => lit "0.8").

(** Services whose job has completed with a term table in which a term
    was read as a missing value. *)
Definition broken_archive : file :=
  TarGz (lit "output.tar.gz")
    [Member (lit "topic-terms.csv")
       (TopicTermsCsv (lit "topic,weight,term") missing_term_table);
     Member (lit "doc-topics.csv")
       (DocTopicsCsv (lit "docname,topic,proportion") scenario_docs)].

Definition broken_cloud : cloud :=
  Cloud (Some three_articles)
        (lit "sagemaker-bucket")
        (fun bucket key =>
           if bool_decide (key = lit "sci-docs/data/output/output.tar.gz")
           then Some broken_archive
           else Some (TextFile (lit "Title Methods We counted.")))
        (lit "job-1")
        (Some completed_job)
        (fun attempt => None)
        (fun q => lit "0.8").

(** A joined table whose one document has a number for its name, and a
    kernel on a completed job that holds it. *)
Definition numbered_row : ResultRow :=
  mkResult (Int 9) (Int 1) (Float float_0_8) (Some (lit "gene, cell")).

Definition numbered_kernel : kernel :=
  Kernel (<["results" := VFrame [numbered_row]]>
            (<["describe_topics_detection_job_result" := VJob completed_job]> ∅))
         ∅ (fun i => i) [].

(** ** Facts about the order of values *)

Lemma str_le_refl (a : str) : str_le a a = true.
Proof.
  induction a as [|x a IH]; simpl; [done|].
  by rewrite N.eqb_refl, IH, orb_true_r.
Qed.

Lemma str_le_total (a b : str) : str_le a b = true ∨ str_le b a = true.
Proof.
  revert b. induction a as [|x a IH]; intros [|y b]; simpl; try (by left); try (by right).
  destruct (N.ltb_spec x y); [by left|].
  destruct (N.ltb_spec y x); [by right|].
  assert (x = y) as -> by lia. rewrite N.eqb_refl. simpl. apply IH.
Qed.

Lemma str_le_trans (a b c : str) :
  str_le a b = true → str_le b c = true → str_le a c = true.
Proof.
  revert b c. induction a as [|x a IH]; intros [|y b] [|z c]; simpl; try done.
  rewrite !orb_true_iff, !andb_true_iff, !N.ltb_lt, !N.eqb_eq.
  intros [?|[-> Hab]] [?|[-> Hbc]]; try (left; lia).
  right. split; [done|]. by eapply IH.
Qed.

Lemma str_le_antisym (a b : str) :
  str_le a b = true → str_le b a = true → a = b.
Proof.
  revert b. induction a as [|x a IH]; intros [|y b]; cbn [str_le]; try done.
  rewrite !orb_true_iff, !andb_true_iff, !N.ltb_lt, !N.eqb_eq.
  intros [?|[-> Hab]] [?|[? Hba]]; try lia. f_equal. by apply IH.
Qed.

Lemma Qle_bool_inject_Z (x y : Z) : Qle_bool (inject_Z x) (inject_Z y) = (x <=? y).
Proof. unfold Qle_bool, inject_Z. simpl. by rewrite !Z.mul_1_r. Qed.

(** The boolean order is the relation [precedes]. *)
Lemma scalar_le_precedes (a b : scalar) : scalar_le a b = true ↔ precedes a b.
Proof.
  split.
  - destruct a as [x|p| |s], b as [y|q| |t]; simpl; intros H; try done;
      try (by apply precedes_missing);
      try (by eapply precedes_number_text);
      try (by apply precedes_text).
    + apply (precedes_number _ _ (inject_Z x) (inject_Z y)); [done..|].
      apply Qle_bool_iff. by rewrite Qle_bool_inject_Z.
    + apply (precedes_number _ _ (inject_Z x) q); [done..|]. by apply Qle_bool_iff.
    + apply (precedes_number _ _ p (inject_Z y)); [done..|]. by apply Qle_bool_iff.
    + apply (precedes_number _ _ p q); [done..|]. by apply Qle_bool_iff.
  - intros [a' b' p q Ha Hb Hpq|s t Hst|a' p t Ha|a'].
    + destruct a' as [x|p'| |s], b' as [y|q'| |t]; simplify_eq/=;
        rewrite <- ?Qle_bool_inject_Z; by apply Qle_bool_iff.
    + done.
    + by destruct a'.
    + by destruct a'.
Qed.

Lemma scalar_le_total (a b : scalar) : scalar_le a b = true ∨ scalar_le b a = true.
Proof.
  destruct a as [x|p| |s], b as [y|q| |t]; simpl; try (by left); try (by right);
    try apply str_le_total;
    rewrite <- ?Qle_bool_inject_Z, !Qle_bool_iff;
    match goal with |- (?u <= ?v)%Q ∨ _ =>
      destruct (Qlt_le_dec v u); [right; by apply Qlt_le_weak|by left] end.
Qed.

Lemma scalar_le_trans (a b c : scalar) :
  scalar_le a b = true → scalar_le b c = true → scalar_le a c = true.
Proof.
  destruct a as [x|p| |s], b as [y|q| |t], c as [z|r| |u]; simpl; try done;
    try apply str_le_trans;
    rewrite <- ?Qle_bool_inject_Z, !Qle_bool_iff; apply Qle_trans.
Qed.

Lemma scalar_le_refl (a : scalar) : scalar_le a a = true.
Proof. by destruct (scalar_le_total a a). Qed.

Lemma scalar_le_nan (a : scalar) : scalar_le NaN a = true → a = NaN.
Proof. by destruct a. Qed.

(** The boolean equality of keys is the relation [key_eq]. *)
Lemma same_key_key_eq (a b : scalar) : same_key a b = true ↔ key_eq a b.
Proof.
  unfold same_key. split.
  - destruct a as [x|p| |s], b as [y|q| |t]; simpl; try done;
      rewrite ?andb_true_iff; intros [H1 H2].
    + apply (key_eq_number _ _ (inject_Z x) (inject_Z y)); [done..|].
      rewrite <- Qle_bool_inject_Z in H1, H2. apply Qle_antisym; by apply Qle_bool_iff.
    + apply (key_eq_number _ _ (inject_Z x) q); [done..|].
      apply Qle_antisym; by apply Qle_bool_iff.
    + apply (key_eq_number _ _ p (inject_Z y)); [done..|].
      apply Qle_antisym; by apply Qle_bool_iff.
    + apply (key_eq_number _ _ p q); [done..|].
      apply Qle_antisym; by apply Qle_bool_iff.
    + rewrite (str_le_antisym s t) by done. constructor.
  - intros [a' b' p q Ha Hb Hpq|s].
    + assert (precedes a' b' ∧ precedes b' a') as [H1%scalar_le_precedes H2%scalar_le_precedes].
      { split; eapply precedes_number; try done.
        - by apply Qle_lteq; right.
        - apply Qle_lteq; right. by symmetry. }
      rewrite H1, H2. by destruct a', b'.
    + simpl. by rewrite str_le_refl.
Qed.

Lemma same_key_sym (a b : scalar) : same_key a b = same_key b a.
Proof.
  unfold same_key.
  destruct (is_nan a), (is_nan b), (scalar_le a b), (scalar_le b a); done.
Qed.

Lemma same_key_le (a b : scalar) : same_key a b = true → scalar_le a b = true.
Proof. unfold same_key. rewrite !andb_true_iff. tauto. Qed.

Lemma same_key_not_nan (a b : scalar) : same_key a b = true → a ≠ NaN ∧ b ≠ NaN.
Proof.
  unfold same_key. rewrite !andb_true_iff, !negb_true_iff.
  intros [[[Ha Hb] _] _]. by destruct a, b.
Qed.

Lemma same_key_refl (a : scalar) : a ≠ NaN → same_key a a = true.
Proof. intros Ha. unfold same_key. rewrite scalar_le_refl. by destruct a. Qed.

Lemma same_key_trans (a b c : scalar) :
  same_key a b = true → same_key b c = true → same_key a c = true.
Proof.
  unfold same_key. rewrite !andb_true_iff.
  intros [[[Ha _] Hab] Hba] [[[_ Hc] Hbc] Hcb]. split_and!; try done.
  - by eapply scalar_le_trans.
  - by eapply scalar_le_trans.
Qed.

Lemma key_le_true (a b : scalar) : key_le true a b = scalar_le a b.
Proof. by destruct a, b. Qed.

Lemma key_le_false_follows (a b : scalar) : key_le false a b = true ↔ follows a b.
Proof.
  unfold follows. split.
  - destruct b as [y|q| |t]; [| |by left|];
      (destruct a as [x|p| |s]; [| |done|]); simpl; intros H; right;
      (split; [done|]); by apply scalar_le_precedes.
  - intros [->|[Ha Hba%scalar_le_precedes]]; [by destruct a|].
    by destruct a, b.
Qed.

Lemma key_le_total (asc : bool) (a b : scalar) :
  key_le asc a b = true ∨ key_le asc b a = true.
Proof.
  destruct a as [x|p| |s], b as [y|q| |t]; try (by left); try (by right);
    destruct asc; cbn [key_le]; first [apply scalar_le_total|apply or_comm, scalar_le_total].
Qed.

Lemma key_le_trans (asc : bool) (a b c : scalar) :
  key_le asc a b = true → key_le asc b c = true → key_le asc a c = true.
Proof.
  destruct asc.
  - rewrite !key_le_true. apply scalar_le_trans.
  - destruct c as [z|r| |u]; [| |by destruct a|];
      (destruct b as [y|q| |t]; [| |by destruct a|]);
      (destruct a as [x|p| |s]; [| |done|]);
      cbn [key_le]; intros H1 H2; by eapply scalar_le_trans.
Qed.

Section by_two_facts.
Context {A : Type} (first second : A → scalar).

Lemma by_two_total (a b : A) :
  by_two first second a b = true ∨ by_two first second b a = true.
Proof.
  unfold by_two.
  destruct (key_le_total true (first a) (first b)) as [H|H]; rewrite H.
  - destruct (key_le true (first b) (first a)); [apply key_le_total|by left].
  - destruct (key_le true (first a) (first b)); [apply key_le_total|by right].
Qed.

Lemma by_two_trans (a b c : A) :
  by_two first second a b = true → by_two first second b c = true →
  by_two first second a c = true.
Proof.
  unfold by_two.
  destruct (key_le true (first a) (first b)) eqn:Hab; [|done].
  destruct (key_le true (first b) (first c)) eqn:Hbc; [|by destruct (key_le true (first b) (first a))].
  rewrite (key_le_trans true _ _ _ Hab Hbc).
  destruct (key_le true (first c) (first a)) eqn:Hca; [|done].
  rewrite (key_le_trans true _ _ _ Hbc Hca).
  rewrite (key_le_trans true _ _ _ Hca Hab).
  apply key_le_trans.
Qed.

(** Between rows in sorted order: the first key does not fall, and where
    it stays level the second does not rise. *)
Lemma by_two_spec (a b : A) :
  by_two first second a b = true ↔
    precedes (first a) (first b)
    ∧ (precedes (first b) (first a) → follows (second a) (second b)).
Proof.
  unfold by_two. rewrite !key_le_true.
  rewrite <- !scalar_le_precedes, <- key_le_false_follows.
  destruct (scalar_le (first a) (first b)), (scalar_le (first b) (first a));
    intuition done.
Qed.
End by_two_facts.

(** ** Facts about the joiner *)

Section sort_values_facts.
Context {A : Type} (le : A → A → bool).

Lemma insert_row_Permutation (x : A) (l : list A) :
  insert_row le x l ≡ₚ x :: l.
Proof.
  induction l as [|y l IH]; simpl; [done|].
  destruct (le x y); [done|].
  rewrite IH. apply Permutation_swap.
Qed.

Lemma sort_values_Permutation (l : list A) : sort_values le l ≡ₚ l.
Proof.
  induction l as [|x l IH]; simpl; [done|].
  by rewrite insert_row_Permutation, IH.
Qed.

Lemma sort_values_length (l : list A) : length (sort_values le l) = length l.
Proof. by rewrite sort_values_Permutation. Qed.

Hypothesis le_total : ∀ x y, le x y = true ∨ le y x = true.
Hypothesis le_trans : ∀ x y z, le x y = true → le y z = true → le x z = true.

Let before (a b : A) : Prop := le a b = true.

Lemma insert_row_sorted (x : A) (l : list A) :
  StronglySorted before l → StronglySorted before (insert_row le x l).
Proof.
  induction 1 as [|y l Hl IH Hy]; simpl.
  - repeat constructor.
  - destruct (le x y) eqn:Hxy.
    + constructor; [by constructor|].
      constructor; [done|].
      eapply Forall_impl; [exact Hy|]. intros z Hz. by eapply le_trans.
    + constructor; [done|].
      rewrite insert_row_Permutation. constructor; [|done].
      destruct (le_total x y) as [?|?]; [congruence|done].
Qed.

Lemma sort_values_sorted (l : list A) : StronglySorted before (sort_values le l).
Proof.
  induction l as [|x l IH]; simpl; [constructor|].
  by apply insert_row_sorted.
Qed.
End sort_values_facts.

Lemma StronglySorted_weaken {A} (R R' : A → A → Prop) (l : list A) :
  (∀ a b, R a b → R' a b) → StronglySorted R l → StronglySorted R' l.
Proof.
  intros HR. induction 1 as [|x l Hl IH Hx]; constructor; [done|].
  eapply Forall_impl; [exact Hx|]. auto.
Qed.

Lemma StronglySorted_filter {A} (R : A → A → Prop) (P : A → Prop)
    `{∀ x, Decision (P x)} (l : list A) :
  StronglySorted R l → StronglySorted R (filter P l).
Proof.
  induction 1 as [|x l Hl IH Hx]; [constructor|].
  rewrite filter_cons. destruct (decide (P x)); [|done].
  constructor; [done|].
  apply Forall_forall. intros y [_ Hy]%list_elem_of_filter.
  by eapply Forall_forall in Hx.
Qed.

Lemma StronglySorted_lookup {A} (R : A → A → Prop) (l : list A) (i j : nat) (a b : A) :
  StronglySorted R l → (i < j)%nat → l !! i = Some a → l !! j = Some b → R a b.
Proof.
  intros Hl. revert i j. induction Hl as [|x l Hl IH Hx]; intros i j Hij Hi Hj; [done|].
  destruct j as [|j]; [lia|]. destruct i as [|i].
  - simpl in Hi, Hj. simplify_eq. eapply Forall_forall in Hx; [done|].
    by eapply list_elem_of_lookup_2.
  - simpl in Hi, Hj. eapply (IH i j); [lia|done..].
Qed.

Lemma term_le_total (a b : TermRow) : term_le a b = true ∨ term_le b a = true.
Proof. apply by_two_total. Qed.

Lemma term_le_trans (a b c : TermRow) :
  term_le a b = true → term_le b c = true → term_le a c = true.
Proof. apply by_two_trans. Qed.

Lemma doc_le_total (a b : DocRow) : doc_le a b = true ∨ doc_le b a = true.
Proof. apply by_two_total. Qed.

Lemma doc_le_trans (a b c : DocRow) :
  doc_le a b = true → doc_le b c = true → doc_le a c = true.
Proof. apply by_two_trans. Qed.

(** *** Group keys *)

Lemma insert_key_elem (x k : scalar) (l : list scalar) :
  x ∈ insert_key k l → x = k ∨ x ∈ l.
Proof.
  induction l as [|y l IH]; simpl.
  - rewrite list_elem_of_singleton. tauto.
  - destruct (scalar_le k y); [destruct (scalar_le y k)|];
      rewrite !elem_of_cons; [tauto|tauto|].
    intros [->|Hx]; [tauto|]. destruct (IH Hx); tauto.
Qed.

Lemma insert_key_keeps (x k : scalar) (l : list scalar) :
  x ∈ l → x ∈ insert_key k l.
Proof.
  induction l as [|y l IH]; simpl; [by intros ?%elem_of_nil|].
  destruct (scalar_le k y); [destruct (scalar_le y k)|];
    rewrite !elem_of_cons; [tauto|tauto|].
  intros [->|Hx]; [by left|right; by apply IH].
Qed.

Lemma insert_key_covers (k : scalar) (l : list scalar) :
  ∃ y, y ∈ insert_key k l ∧ scalar_le k y = true ∧ scalar_le y k = true.
Proof.
  induction l as [|y l IH]; simpl.
  - exists k. rewrite scalar_le_refl. split; [apply list_elem_of_here|done].
  - destruct (scalar_le k y) eqn:Hky; [destruct (scalar_le y k) eqn:Hyk|].
    + exists y. split; [apply list_elem_of_here|done].
    + exists k. rewrite scalar_le_refl. split; [apply list_elem_of_here|done].
    + destruct IH as (z & Hz & ?). exists z. split; [by apply list_elem_of_further|done].
Qed.

Lemma insert_key_sorted (k : scalar) (l : list scalar) :
  StronglySorted strictly_before l → StronglySorted strictly_before (insert_key k l).
Proof.
  unfold strictly_before.
  induction 1 as [|y l Hl IH Hy]; simpl.
  - repeat constructor.
  - destruct (scalar_le k y) eqn:Hky; [destruct (scalar_le y k) eqn:Hyk|].
    + by constructor.
    + constructor; [by constructor|].
      constructor; [done|]. eapply Forall_impl; [exact Hy|]. simpl.
      intros z Hzy. destruct (scalar_le z k) eqn:Hzk; [|done].
      by rewrite (scalar_le_trans z k y) in Hzy.
    + constructor; [done|].
      apply Forall_forall. intros x [->|Hx]%insert_key_elem; [done|].
      by eapply Forall_forall in Hy.
Qed.

Lemma group_keys_sorted (rows : list TermRow) :
  StronglySorted strictly_before (group_keys rows).
Proof.
  unfold group_keys. generalize (filter (λ a, is_nan a = false) (topic <$> rows)).
  intros l. induction l as [|k l IH]; simpl; [constructor|].
  by apply insert_key_sorted.
Qed.

Lemma group_keys_elem (k : scalar) (rows : list TermRow) :
  k ∈ group_keys rows → k ≠ NaN ∧ k ∈ topic <$> rows.
Proof.
  unfold group_keys.
  assert (∀ l, k ∈ foldr insert_key [] l → k ∈ l) as Hin.
  { induction l as [|y l IH]; simpl; [done|].
    intros [->|Hk]%insert_key_elem; [apply list_elem_of_here|].
    apply list_elem_of_further. by apply IH. }
  intros [Hk ?]%Hin%list_elem_of_filter. split; [by intros ->|done].
Qed.

Lemma group_keys_covers (a : scalar) (rows : list TermRow) :
  a ≠ NaN → a ∈ topic <$> rows →
  ∃ k, k ∈ group_keys rows ∧ same_key a k = true.
Proof.
  intros Ha Hin. unfold group_keys.
  assert (a ∈ filter (λ a, is_nan a = false) (topic <$> rows)) as Hf.
  { apply list_elem_of_filter. split; [by destruct a|done]. }
  revert Hf. generalize (filter (λ a, is_nan a = false) (topic <$> rows)).
  intros l. induction l as [|y l IH]; simpl; [by intros ?%elem_of_nil|].
  intros [->|Hl]%elem_of_cons.
  - destruct (insert_key_covers y (foldr insert_key [] l)) as (k & Hk & H1 & H2).
    exists k. split; [done|]. unfold same_key. rewrite H1, H2.
    destruct y; try done; destruct k; simpl in *; done.
  - destruct (IH Hl) as (k & Hk & Hsame). exists k. split; [|done].
    by apply insert_key_keeps.
Qed.

(** Keys in strict order are pairwise distinct. *)
Lemma sorted_keys_distinct (keys : list scalar) (i j : nat) (a b : scalar) :
  StronglySorted strictly_before keys →
  keys !! i = Some a → keys !! j = Some b → same_key a b = true → i = j.
Proof.
  intros Hs Hi Hj Hab.
  destruct (Nat.lt_trichotomy i j) as [Hlt|[?|Hlt]]; [|done|].
  - pose proof (StronglySorted_lookup _ _ _ _ _ _ Hs Hlt Hi Hj) as H.
    unfold strictly_before in H. rewrite same_key_sym in Hab.
    apply same_key_le in Hab. congruence.
  - pose proof (StronglySorted_lookup _ _ _ _ _ _ Hs Hlt Hj Hi) as H.
    unfold strictly_before in H. apply same_key_le in Hab. congruence.
Qed.

(** *** The aggregation *)

Lemma fmap_Str_inj (l1 l2 : list str) : Str <$> l1 = Str <$> l2 → l1 = l2.
Proof.
  revert l2. induction l1 as [|s l1 IH]; intros [|t l2]; try done.
  intros [= -> Hl]. f_equal. by apply IH.
Qed.

Lemma join_items_inr (i : nat) (l : list scalar) (ss : list str) :
  join_items i l = inr ss ↔ l = Str <$> ss.
Proof.
  revert i ss. induction l as [|a l IH]; intros i ss; simpl.
  - split; [intros [= <-]; done|]. by destruct ss.
  - destruct a as [x|p| |s]; try (split; [done|by destruct ss]).
    destruct (join_items (S i) l) as [e|ss'] eqn:Hl.
    + split; [done|]. destruct ss as [|s' ss]; [done|]. intros [= -> Hss].
      apply (IH (S i)) in Hss. congruence.
    + apply IH in Hl as ->. split.
      * by intros [= <-].
      * destruct ss as [|s' ss]; [done|]. intros [= -> Hss].
        apply fmap_Str_inj in Hss. by subst.
Qed.

Lemma join_items_text (i : nat) (l : list scalar) :
  (∀ a, a ∈ l → ∃ s, a = Str s) → ∃ ss, join_items i l = inr ss.
Proof.
  revert i. induction l as [|a l IH]; intros i Hl; simpl; [by eexists|].
  destruct (Hl a) as [s ->]; [apply list_elem_of_here|].
  destruct (IH (S i)) as [ss ->]; [|by eexists].
  intros b Hb. apply Hl. by apply list_elem_of_further.
Qed.

Lemma join_items_inl (i : nat) (l : list scalar) (a : scalar) :
  a ∈ l → is_text a = false → ∃ msg, join_items i l = inl (TypeError msg).
Proof.
  revert i. induction l as [|b l IH]; intros i Hin Ha; [by apply elem_of_nil in Hin|].
  simpl. destruct b as [x|p| |s]; try by eexists.
  apply elem_of_cons in Hin as [->|Hin]; [done|].
  destruct (IH (S i) Hin Ha) as [msg ->]. by eexists.
Qed.

(** What the aggregation returns when it returns: a row per key, in the
    order of the keys, with the strings of the group joined. *)
Lemma agg_inr (rows : list TermRow) (keys : list scalar) (series : list (scalar * str)) :
  agg rows keys = inr series ↔
    Forall2 (λ k kv, kv.1 = k ∧ ∃ ss,
               term <$> filter (λ r, same_key (topic r) k) rows = Str <$> ss
               ∧ kv.2 = join (lit ", ") ss) keys series.
Proof.
  revert series. induction keys as [|k keys IH]; intros series; simpl.
  - split; [intros [= <-]; constructor|]. by intros ->%Forall2_nil_inv_l.
  - destruct (join_items 0 _) as [e|ss] eqn:Hss.
    + split; [done|]. intros (kv & series' & [_ (ss & Hss' & _)] & _ & ->)%Forall2_cons_inv_l.
      apply (join_items_inr 0) in Hss'. congruence.
    + apply join_items_inr in Hss.
      destruct (agg rows keys) as [e|series'] eqn:Hagg.
      * split; [done|]. intros (kv & series' & _ & Hrest & ->)%Forall2_cons_inv_l.
        by apply IH in Hrest.
      * split.
        -- intros [= <-]. constructor; [|by apply IH].
           split; [done|]. by exists ss.
        -- intros (kv & series'' & [Hk (ss' & Hss' & Hv)] & Hrest & ->)%Forall2_cons_inv_l.
           apply IH in Hrest as [= ->]. rewrite Hss in Hss'.
           apply fmap_Str_inj in Hss' as <-. destruct kv; simpl in *. by subst.
Qed.

Lemma agg_keys (rows : list TermRow) (keys : list scalar) (series : list (scalar * str)) :
  agg rows keys = inr series → series.*1 = keys.
Proof.
  intros H%agg_inr. induction H as [|k kv keys series [Hk _] _ IH]; [done|].
  rewrite fmap_cons. by f_equal.
Qed.

Lemma agg_text (rows : list TermRow) (keys : list scalar) :
  (∀ r k, r ∈ rows → k ∈ keys → same_key (topic r) k = true → ∃ s, term r = Str s) →
  ∃ series, agg rows keys = inr series.
Proof.
  induction keys as [|k keys IH]; intros Htext; simpl; [by eexists|].
  destruct (join_items_text 0 (term <$> filter (λ r, same_key (topic r) k) rows))
    as [ss ->].
  { intros a (r & -> & [Hk Hr]%list_elem_of_filter)%list_elem_of_fmap.
    apply (Htext r k); [done|apply list_elem_of_here|by apply Is_true_true]. }
  destruct IH as [series ->]; [|by eexists].
  intros r k' Hr Hk'. apply Htext; [done|by apply list_elem_of_further].
Qed.

Lemma agg_not_text (rows : list TermRow) (keys : list scalar) (r : TermRow) (k : scalar) :
  r ∈ rows → k ∈ keys → same_key (topic r) k = true → is_text (term r) = false →
  ∃ msg, agg rows keys = inl (TypeError msg).
Proof.
  intros Hr Hk Hsame Hterm.
  induction keys as [|k' keys IH]; [by apply elem_of_nil in Hk|]. simpl.
  destruct (join_items 0 (term <$> filter (λ r, same_key (topic r) k') rows))
    as [e|ss] eqn:Hss.
  - apply elem_of_cons in Hk as [<-|Hk].
    + destruct (join_items_inl 0 (term <$> filter (λ r, same_key (topic r) k) rows)
                  (term r)) as [msg Hmsg]; [|done|].
      * apply list_elem_of_fmap. exists r. split; [done|].
        apply list_elem_of_filter. split; [by apply Is_true_true|done].
      * rewrite Hmsg in Hss. injection Hss as <-. by eexists.
    + clear IH. revert Hss. generalize 0%nat.
      generalize (term <$> filter (λ r, same_key (topic r) k') rows).
      induction l as [|a l IHl]; intros i; simpl; [done|].
      destruct a; try (intros [= <-]; by eexists).
      destruct (join_items (S i) l) eqn:Hl; [|done].
      intros [= <-]. by eapply IHl.
  - apply elem_of_cons in Hk as [<-|Hk].
    + apply join_items_inr in Hss.
      assert (term r ∈ Str <$> ss) as (s & Hs & _)%list_elem_of_fmap.
      { rewrite <- Hss. apply list_elem_of_fmap. exists r. split; [done|].
        apply list_elem_of_filter. split; [by apply Is_true_true|done]. }
      by rewrite Hs in Hterm.
    + destruct (IH Hk) as [msg ->]. by eexists.
Qed.

(** *** The string of a group *)

Lemma join_cons (sep s : str) (ss : list str) :
  join sep (s :: ss) = s ++ concat ((λ t, sep ++ t) <$> ss).
Proof.
  revert s. induction ss as [|t ss IH]; intros s.
  - simpl. by rewrite app_nil_r.
  - change (join sep (s :: t :: ss)) with (s ++ sep ++ join sep (t :: ss)).
    rewrite IH. simpl. by rewrite <- !app_assoc.
Qed.

(** *** [topics] *)

Lemma topics_inr (topic_terms : list TermRow) (series : list (scalar * str)) :
  topics topic_terms = inr series →
  series.*1 = group_keys (sort_values term_le topic_terms)
  ∧ ∀ k s, (k, s) ∈ series →
      ∃ ss, term <$> filter (λ r, same_key (topic r) k) (sort_values term_le topic_terms)
            = Str <$> ss
            ∧ s = join (lit ", ") ss.
Proof.
  unfold topics, groupby_agg. intros Hagg. split; [by eapply agg_keys|].
  apply agg_inr in Hagg. intros k s Hks.
  apply list_elem_of_lookup_1 in Hks as [i Hi].
  destruct (Forall2_lookup_r _ _ _ _ _ Hagg Hi) as (k' & _ & Hk & Hss).
  simpl in Hk. by subst k'.
Qed.

Lemma topics_text (topic_terms : list TermRow) :
  terms_are_text topic_terms → ∃ series, topics topic_terms = inr series.
Proof.
  intros Htext. unfold topics, groupby_agg. apply agg_text.
  intros r k Hr _ Hsame. apply Htext.
  - by rewrite (sort_values_Permutation term_le topic_terms) in Hr.
  - by apply same_key_not_nan in Hsame as [? _].
Qed.

Lemma topics_not_text (topic_terms : list TermRow) (t : TermRow) :
  t ∈ topic_terms → topic t ≠ NaN → is_text (term t) = false →
  ∃ msg, topics topic_terms = inl (TypeError msg).
Proof.
  intros Ht Hk Hterm. unfold topics, groupby_agg.
  assert (t ∈ sort_values term_le topic_terms) as Hin
    by (by rewrite (sort_values_Permutation term_le topic_terms)).
  destruct (group_keys_covers (topic t) (sort_values term_le topic_terms))
    as (k & Hkeys & Hsame); [done|by apply list_elem_of_fmap_2|].
  by eapply agg_not_text.
Qed.

Lemma topics_keys_sorted (topic_terms : list TermRow) (series : list (scalar * str)) :
  topics topic_terms = inr series → StronglySorted strictly_before series.*1.
Proof. intros [-> _]%topics_inr. apply group_keys_sorted. Qed.

Lemma topics_keys_elem (topic_terms : list TermRow) (series : list (scalar * str))
    (k : scalar) :
  topics topic_terms = inr series →
  k ∈ series.*1 → k ≠ NaN ∧ k ∈ topic <$> topic_terms.
Proof.
  intros [-> _]%topics_inr [? Hk]%group_keys_elem. split; [done|].
  by rewrite (sort_values_Permutation term_le topic_terms) in Hk.
Qed.

Lemma topics_keys_cover (topic_terms : list TermRow) (series : list (scalar * str))
    (t : TermRow) :
  topics topic_terms = inr series →
  t ∈ topic_terms → topic t ≠ NaN →
  ∃ k, k ∈ series.*1 ∧ same_key (topic t) k = true.
Proof.
  intros [-> _]%topics_inr Ht Hk. apply group_keys_covers; [done|].
  rewrite (sort_values_Permutation term_le topic_terms). by apply list_elem_of_fmap_2.
Qed.

(** *** Left join on a right table with distinct keys *)

Lemma filter_key_sorted (right : list (scalar * str)) (x : scalar) :
  StronglySorted strictly_before right.*1 →
  filter (λ kv, same_key kv.1 x) right = []
  ∨ ∃ kv, kv ∈ right ∧ same_key kv.1 x = true
          ∧ filter (λ kv, same_key kv.1 x) right = [kv].
Proof.
  induction right as [|[k v] right IH]; [by left|].
  rewrite fmap_cons. intros [Hrest Hk]%StronglySorted_inv.
  rewrite filter_cons. cbn [fst].
  destruct (decide (same_key k x)) as [Hsame%Is_true_true|Hno].
  - right. exists (k, v). split_and!; [apply list_elem_of_here|done|]. f_equal.
    destruct (IH Hrest) as [?|(kv & Hin & Hsame' & _)]; [done|].
    eapply Forall_forall in Hk; [|apply list_elem_of_fmap_2, Hin].
    unfold strictly_before in Hk.
    rewrite same_key_sym in Hsame.
    pose proof (same_key_trans _ _ _ Hsame' Hsame) as H%same_key_le.
    simpl in Hk. congruence.
  - destruct (IH Hrest) as [?|(kv & Hin & Hsame & ?)]; [by left|].
    right. exists kv. split_and!; [by apply list_elem_of_further|done..].
Qed.

Lemma join_rows_doc_of (left : list DocRow) (right : list (scalar * str)) :
  StronglySorted strictly_before right.*1 →
  doc_of <$> join_rows left right = left.
Proof.
  intros Hs. unfold join_rows.
  induction left as [|d left IH]; [done|].
  rewrite bind_cons, fmap_app, IH.
  destruct (filter_key_sorted right (doc_topic d) Hs) as [->|(kv & _ & _ & ->)];
    by destruct d.
Qed.

Lemma join_rows_elem (r : ResultRow) (left : list DocRow) (right : list (scalar * str)) :
  StronglySorted strictly_before right.*1 →
  r ∈ join_rows left right →
  ∃ d, d ∈ left ∧
    ((r = merge_row d None ∧ ∀ kv, kv ∈ right → same_key kv.1 (doc_topic d) = false)
     ∨ ∃ kv, r = merge_row d (Some kv.2) ∧ kv ∈ right
             ∧ same_key kv.1 (doc_topic d) = true).
Proof.
  intros Hs. unfold join_rows. rewrite list_elem_of_bind.
  intros (d & Hr & Hd). exists d. split; [done|].
  destruct (filter_key_sorted right (doc_topic d) Hs) as [Hnone|(kv & Hin & Hsame & Hone)].
  - rewrite Hnone in Hr. apply list_elem_of_singleton in Hr. left. split; [done|].
    intros kv Hkv. destruct (same_key kv.1 (doc_topic d)) eqn:Hsame; [|done].
    assert (kv ∈ filter (λ kv, same_key kv.1 (doc_topic d)) right) as Hf.
    { apply list_elem_of_filter. split; [by apply Is_true_true|done]. }
    rewrite Hnone in Hf. by apply not_elem_of_nil in Hf.
  - rewrite Hone in Hr. simpl in Hr. apply list_elem_of_singleton in Hr.
    right. by exists kv.
Qed.

(** *** When the keys can be joined *)

Lemma existsb_is_text (column : list scalar) :
  existsb is_text column = true ↔ text_in column.
Proof.
  unfold text_in. induction column as [|a column IH]; simpl.
  - split; [done|]. by intros [s ?%elem_of_nil].
  - rewrite orb_true_iff, IH. split.
    + intros [Ha|[s Hs]].
      * destruct a; try done. eexists. apply list_elem_of_here.
      * exists s. by apply list_elem_of_further.
    + intros [s [<-|Hs]%elem_of_cons]; [by left|right; by exists s].
Qed.

Lemma column_dtype_object (column : list scalar) :
  column ≠ [] → column_dtype column = object ↔ text_in column.
Proof.
  intros Hne. destruct column as [|a column]; [done|].
  unfold column_dtype. rewrite <- existsb_is_text.
  destruct (existsb is_text (a :: column)); [done|].
  by destruct (forallb is_int (a :: column)).
Qed.

Lemma column_dtype_text (column : list scalar) :
  column_dtype column = object ↔ text_column column.
Proof.
  destruct column as [|a column].
  - split; [by left|done].
  - rewrite column_dtype_object by done. unfold text_column.
    split; [by right|]. by intros [?|?].
Qed.

Lemma mergeable_spec (left right : list scalar) (index : dtype) :
  mergeable left index right = true ↔
    (left = [] ∧ right ≠ []) ∨ (left ≠ [] ∧ right = [])
    ∨ (column_dtype left = object ↔ index = object).
Proof.
  unfold mergeable. destruct left as [|a left], right as [|b right].
  - change (column_dtype []) with object. destruct index; intuition congruence.
  - intuition congruence.
  - intuition congruence.
  - destruct (column_dtype (a :: left)), index; intuition congruence.
Qed.

Lemma text_in_Permutation (l1 l2 : list scalar) :
  l1 ≡ₚ l2 → text_in l1 ↔ text_in l2.
Proof. intros Hp. unfold text_in. by setoid_rewrite Hp. Qed.

Lemma text_in_keys (topic_terms : list TermRow) (series : list (scalar * str)) :
  topics topic_terms = inr series →
  text_in series.*1 ↔ text_in (topic <$> topic_terms).
Proof.
  intros Htopics. split.
  - intros [s Hs]. exists s. by apply (topics_keys_elem _ _ _ Htopics) in Hs as [_ ?].
  - intros [s (t & Ht & Hin)%list_elem_of_fmap].
    destruct (topics_keys_cover _ _ t Htopics Hin) as (k & Hk & Hsame);
      [by rewrite <- Ht|].
    rewrite <- Ht in Hsame.
    apply same_key_key_eq in Hsame.
    inversion Hsame as [? ? ? ? Hnum|]; [done|]. subst. by exists s.
Qed.

Lemma keys_nil (topic_terms : list TermRow) (series : list (scalar * str)) :
  topics topic_terms = inr series →
  series.*1 = [] ↔ ¬ has_topic topic_terms.
Proof.
  intros Htopics. split.
  - intros Hnil (t & Ht & Hk).
    destruct (topics_keys_cover _ _ t Htopics Ht Hk) as (k & Hin & _).
    rewrite Hnil in Hin. by apply elem_of_nil in Hin.
  - intros Hno. destruct (series.*1) as [|k l] eqn:Hs; [done|].
    destruct (topics_keys_elem _ _ k Htopics) as [Hk (t & -> & Ht)%list_elem_of_fmap].
    { rewrite Hs. apply list_elem_of_here. }
    destruct Hno. by exists t.
Qed.

Lemma joinable_mergeable (topic_terms : list TermRow) (doc_topics : list DocRow)
    (series : list (scalar * str)) :
  topics topic_terms = inr series →
  mergeable (doc_topic <$> docs doc_topics) (index_dtype topic_terms) series.*1 = true
  ↔ joinable topic_terms doc_topics.
Proof.
  intros Htopics. rewrite mergeable_spec. unfold joinable, index_dtype.
  rewrite !column_dtype_text.
  assert (doc_topic <$> docs doc_topics ≡ₚ doc_topic <$> doc_topics) as Hp
    by (unfold docs; by rewrite (sort_values_Permutation doc_le doc_topics)).
  assert (doc_topic <$> docs doc_topics = [] ↔ doc_topics = []) as Hnil.
  { split.
    - intros H. apply fmap_nil_inv in H. apply Permutation_nil_r.
      rewrite <- H. unfold docs. symmetry. apply sort_values_Permutation.
    - by intros ->. }
  assert (text_column (doc_topic <$> docs doc_topics)
          ↔ text_column (doc_topic <$> doc_topics)) as ->.
  { unfold text_column. rewrite (text_in_Permutation _ _ Hp), Hnil.
    split; (intros [H|?]; [left|by right]); [by rewrite H|by apply fmap_nil_inv in H]. }
  rewrite Hnil, (keys_nil _ _ Htopics).
  assert (Decision (has_topic topic_terms)) as Hdec.
  { unfold has_topic. clear. induction topic_terms as [|t l IH].
    - right. by intros (? & ?%elem_of_nil & _).
    - destruct IH as [IH|IH].
      + left. destruct IH as (u & ? & ?). exists u. split; [by apply list_elem_of_further|done].
      + destruct (topic t) eqn:Hk;
          [left; exists t; split; [apply list_elem_of_here|by rewrite Hk]..| |
           left; exists t; split; [apply list_elem_of_here|by rewrite Hk]].
        right. intros (u & [->|?]%elem_of_cons & Hu); [done|].
        apply IH. by exists u. }
  destruct Hdec; tauto.
Qed.

(** *** What the joiner makes of two tables *)

Lemma results_text (topic_terms : list TermRow) (doc_topics : list DocRow) :
  terms_are_text topic_terms → joinable topic_terms doc_topics →
  ∃ series,
    topics topic_terms = inr series
    ∧ results topic_terms doc_topics = inr (join_rows (docs doc_topics) series).
Proof.
  intros Htext Hjoin. destruct (topics_text _ Htext) as [series Htopics].
  exists series. split; [done|]. unfold results, merge_left. rewrite Htopics.
  by rewrite (proj2 (joinable_mergeable _ _ _ Htopics) Hjoin).
Qed.

(** C1 (amended).  On every pair of tables, as the reader leaves them, that
    the joiner takes to its end, that is when every term of a row with a
    topic is a string and the topic columns of the two tables are of one
    kind, the left join of [results] keeps every row of the document-topic
    table exactly once: the document columns of the result are the sorted
    document table, row for row, which is a rearrangement of the input, so
    no row is dropped and none is repeated.  A result row whose topic has
    no row in the term table is kept with a missing term, and only such
    rows have a missing term. *)
Theorem results_one_row_per_document_row
    (topic_terms : list TermRow) (doc_topics : list DocRow) :
  tables_as_read topic_terms doc_topics →
  terms_are_text topic_terms →
  joinable topic_terms doc_topics →
  ∃ res,
    results topic_terms doc_topics = inr res
    ∧ doc_of <$> res = docs doc_topics
    ∧ doc_of <$> res ≡ₚ doc_topics
    ∧ length res = length doc_topics
    ∧ (∀ r, r ∈ res →
         (∀ t, t ∈ topic_terms → ¬ key_eq (topic t) (res_topic r)) → res_term r = None)
    ∧ (∀ r t, r ∈ res →
         t ∈ topic_terms → key_eq (topic t) (res_topic r) → is_Some (res_term r)).
Proof.
  intros _ Htext Hjoin.
  destruct (results_text _ _ Htext Hjoin) as (series & Htopics & Hres).
  pose proof (topics_keys_sorted _ _ Htopics) as Hs.
  exists (join_rows (docs doc_topics) series).
  assert (doc_of <$> join_rows (docs doc_topics) series = docs doc_topics) as Heq
    by (by apply join_rows_doc_of).
  split_and!.
  - done.
  - done.
  - rewrite Heq. apply sort_values_Permutation.
  - rewrite <- (length_fmap doc_of), Heq. apply sort_values_length.
  - intros r Hr Hno.
    apply (join_rows_elem _ _ _ Hs) in Hr as (d & _ & [[-> _]|(kv & -> & Hin & Hsame)]);
      [done|].
    destruct (topics_keys_elem _ _ kv.1 Htopics) as [_ (t & Ht & Hin')%list_elem_of_fmap];
      [by apply list_elem_of_fmap_2|].
    destruct (Hno t Hin'). rewrite <- Ht. by apply same_key_key_eq.
  - intros r t Hr Ht Hkey%same_key_key_eq.
    apply (join_rows_elem _ _ _ Hs) in Hr as (d & _ & [[-> Hnone]|(kv & -> & _)]);
      [|by eexists].
    simpl in Hkey.
    destruct (topics_keys_cover _ _ t Htopics Ht) as (k & Hk & Hsame);
      [by apply same_key_not_nan in Hkey as [? _]|].
    apply list_elem_of_fmap in Hk as (kv & -> & Hkv).
    rewrite same_key_sym in Hsame.
    pose proof (Hnone kv Hkv) as Hn.
    by rewrite (same_key_trans _ _ _ Hsame Hkey) in Hn.
Qed.

Lemma results_one_row_per_document_row_witness :
  ∃ res,
    results scenario_terms scenario_docs = inr res
    ∧ doc_of <$> res = docs scenario_docs
    ∧ doc_of <$> res ≡ₚ scenario_docs
    ∧ length res = length scenario_docs
    ∧ (∀ r, r ∈ res →
         (∀ t, t ∈ scenario_terms → ¬ key_eq (topic t) (res_topic r)) → res_term r = None)
    ∧ (∀ r t, r ∈ res →
         t ∈ scenario_terms → key_eq (topic t) (res_topic r) → is_Some (res_term r)).
Proof.
  apply (results_one_row_per_document_row scenario_terms scenario_docs).
  - repeat split; try reflexivity; by left.
  - intros t Ht _. unfold scenario_terms in Ht.
    apply elem_of_cons in Ht as [->|Ht]; [by eexists|].
    apply list_elem_of_singleton in Ht as ->. by eexists.
  - right. right. split; (intros [?|[s Hs]]; [done|]); exfalso; revert Hs;
      vm_compute; intros Hs; repeat (apply elem_of_cons in Hs as [Hs|Hs]; [done|]);
      by apply elem_of_nil in Hs.
Defined.

(** C1, as stated, fails on a term table in which a term was read as a
    missing value: the aggregation raises, and no joined table is made of
    the one document row.  It fails as well on a term table whose topics
    were read as text beside a document table whose topics are integers:
    the merge raises. *)
Lemma results_raise_on_missing_term :
  tables_as_read missing_term_table scenario_docs
  ∧ results missing_term_table scenario_docs
    = inl (TypeError "sequence item 1: expected str instance, float found")
  ∧ tables_as_read text_topic_table scenario_docs
  ∧ (∃ msg, results text_topic_table scenario_docs = inl (ValueError msg))
  ∧ length scenario_docs = 1%nat.
Proof. repeat split; try reflexivity; try (by left); by eexists. Qed.

(** *** Aggregated term strings *)

Lemma sorted_group_by_weight (k : scalar) (l : list TermRow) :
  StronglySorted (λ a b, term_le a b = true) l →
  StronglySorted (λ a b, follows (weight a) (weight b))
    (filter (λ r, same_key (topic r) k) l).
Proof.
  intros Hl.
  assert (StronglySorted (λ a b, term_le a b = true)
            (filter (λ r, same_key (topic r) k) l)) as Hf
    by (by apply StronglySorted_filter).
  assert (Forall (λ r, same_key (topic r) k = true)
            (filter (λ r, same_key (topic r) k) l)) as Hall.
  { apply Forall_forall. by intros r [?%Is_true_true _]%list_elem_of_filter. }
  revert Hall. induction Hf as [|x l' Hl' IH Hx]; intros Hall; [constructor|].
  apply Forall_cons in Hall as [Hxk Hall].
  constructor; [by apply IH|].
  apply Forall_forall. intros y Hy.
  eapply Forall_forall in Hx; [|done]. eapply Forall_forall in Hall; [|done].
  apply by_two_spec in Hx as [_ Hx]. apply Hx.
  apply scalar_le_precedes, same_key_le.
  rewrite (same_key_sym (topic x)) in Hxk. by eapply same_key_trans.
Qed.

(** C2 (amended).  On every term table, as the reader leaves it, in which
    every term of a row with a topic is a string, the sort and the
    aggregation end with a table [topics] that has exactly one row for
    every topic of the term table and no other key, and the string of a
    topic is its terms joined by [", "], listed in non-increasing weight
    order, a missing weight last. *)
Theorem topics_one_row_per_topic_by_weight (topic_terms : list TermRow) :
  terms_as_read topic_terms →
  terms_are_text topic_terms →
  ∃ series,
    topics topic_terms = inr series
    ∧ (∀ i j a b, series.*1 !! i = Some a → series.*1 !! j = Some b →
         key_eq a b → i = j)
    ∧ (∀ k, k ∈ series.*1 → k ≠ NaN ∧ k ∈ topic <$> topic_terms)
    ∧ (∀ t, t ∈ topic_terms → topic t ≠ NaN →
         ∃ k s, (k, s) ∈ series ∧ key_eq (topic t) k)
    ∧ (∀ k s, (k, s) ∈ series →
         ∃ rows others first rest,
           rows ++ others ≡ₚ topic_terms
           ∧ Forall (λ r, key_eq (topic r) k) rows
           ∧ Forall (λ r, ¬ key_eq (topic r) k) others
           ∧ StronglySorted (λ a b, follows (weight a) (weight b)) rows
           ∧ term <$> rows = Str <$> first :: rest
           ∧ s = first ++ concat ((λ t, lit ", " ++ t) <$> rest)).
Proof.
  intros _ Htext. destruct (topics_text _ Htext) as [series Htopics].
  pose proof (topics_keys_sorted _ _ Htopics) as Hs.
  exists series. split_and!.
  - done.
  - intros i j a b Hi Hj Hab%same_key_key_eq. by eapply sorted_keys_distinct.
  - intros k. by apply topics_keys_elem.
  - intros t Ht Hk.
    destruct (topics_keys_cover _ _ t Htopics Ht Hk)
      as (k & ([k' s] & -> & Hin)%list_elem_of_fmap & Hsame).
    exists k', s. split; [done|]. by apply same_key_key_eq.
  - intros k s Hks.
    destruct (topics_inr _ _ Htopics) as [_ Hstr].
    destruct (Hstr k s Hks) as (ss & Hss & ->).
    set (sorted := sort_values term_le topic_terms) in *.
    destruct (topics_keys_elem _ _ k Htopics) as [Hk (t & Hkt & Ht)%list_elem_of_fmap];
      [by apply (list_elem_of_fmap_2 fst) in Hks|].
    destruct ss as [|first rest].
    { assert (t ∈ filter (λ r, same_key (topic r) k) sorted) as Hin.
      { apply list_elem_of_filter. split.
        - apply Is_true_true. rewrite <- Hkt. by apply same_key_refl.
        - unfold sorted. by rewrite (sort_values_Permutation term_le topic_terms). }
      apply (list_elem_of_fmap_2 term) in Hin. rewrite Hss in Hin.
      by apply elem_of_nil in Hin. }
    exists (filter (λ r, same_key (topic r) k) sorted),
           (filter (λ r, ¬ same_key (topic r) k) sorted), first, rest.
    split_and!.
    + rewrite filter_app_complement. apply sort_values_Permutation.
    + apply Forall_forall. intros r [Hr%Is_true_true _]%list_elem_of_filter.
      by apply same_key_key_eq.
    + apply Forall_forall. intros r [Hr _]%list_elem_of_filter Hkey.
      apply Hr, Is_true_true. by apply same_key_key_eq.
    + apply sorted_group_by_weight, sort_values_sorted.
      * apply term_le_total.
      * apply term_le_trans.
    + done.
    + apply join_cons.
Qed.

Lemma topics_one_row_per_topic_by_weight_witness :
  ∃ series,
    topics scenario_terms = inr series
    ∧ (∀ i j a b, series.*1 !! i = Some a → series.*1 !! j = Some b →
         key_eq a b → i = j)
    ∧ (∀ k, k ∈ series.*1 → k ≠ NaN ∧ k ∈ topic <$> scenario_terms)
    ∧ (∀ t, t ∈ scenario_terms → topic t ≠ NaN →
         ∃ k s, (k, s) ∈ series ∧ key_eq (topic t) k)
    ∧ (∀ k s, (k, s) ∈ series →
         ∃ rows others first rest,
           rows ++ others ≡ₚ scenario_terms
           ∧ Forall (λ r, key_eq (topic r) k) rows
           ∧ Forall (λ r, ¬ key_eq (topic r) k) others
           ∧ StronglySorted (λ a b, follows (weight a) (weight b)) rows
           ∧ term <$> rows = Str <$> first :: rest
           ∧ s = first ++ concat ((λ t, lit ", " ++ t) <$> rest)).
Proof.
  apply (topics_one_row_per_topic_by_weight scenario_terms);
    [repeat split; reflexivity|].
  intros t Ht _. unfold scenario_terms in Ht.
  apply elem_of_cons in Ht as [->|Ht]; [by eexists|].
  apply list_elem_of_singleton in Ht as ->. by eexists.
Defined.

(** C2, as stated, fails on a term table in which a term was read as a
    missing value: the aggregation raises at the second item of topic 1,
    and [topics] has no row for the topic. *)
Lemma topics_raise_on_missing_term :
  terms_as_read missing_term_table
  ∧ topics missing_term_table
    = inl (TypeError "sequence item 1: expected str instance, float found")
  ∧ topic <$> missing_term_table = [Int 1; Int 1].
Proof. repeat split; reflexivity. Qed.

(** C3. The scenario of the specification: two term rows of topic 1 with
    weights 0.9 and 0.5 and one document row give the single result row
    [("a.txt", 1, 0.8, "gene, cell")], whichever order the term rows have
    in the file. *)
Theorem scenario_gene_cell :
  results [mkTerm (Int 1) (Float float_0_9) (Str (lit "gene"));
           mkTerm (Int 1) (Float float_0_5) (Str (lit "cell"))]
          [mkDoc (Str (lit "a.txt")) (Int 1) (Float float_0_8)]
  = inr [mkResult (Str (lit "a.txt")) (Int 1) (Float float_0_8) (Some (lit "gene, cell"))]
  ∧ results [mkTerm (Int 1) (Float float_0_5) (Str (lit "cell"));
             mkTerm (Int 1) (Float float_0_9) (Str (lit "gene"))]
            [mkDoc (Str (lit "a.txt")) (Int 1) (Float float_0_8)]
    = inr [mkResult (Str (lit "a.txt")) (Int 1) (Float float_0_8)
             (Some (lit "gene, cell"))].
Proof. split; reflexivity. Qed.
(** ** Facts about the runtime *)

Lemma bind_Ok {A B} (m : M A) (f : A → M B) (k k' : kernel) (a : A) :
  m k = Ok a k' → (m ≫= f) k = f a k'.
Proof. unfold mbind, M_bind. by intros ->. Qed.

Lemma bind_Raised {A B} (m : M A) (f : A → M B) (k k' : kernel) (e : exn) :
  m k = Raised e k' → (m ≫= f) k = Raised e k'.
Proof. unfold mbind, M_bind. by intros ->. Qed.

Lemma bind_Running {A B} (m : M A) (f : A → M B) (k k' : kernel) :
  m k = Running k' → (m ≫= f) k = Running k'.
Proof. unfold mbind, M_bind. by intros ->. Qed.

Lemma get_global_Some (x : string) (v : value) (k : kernel) :
  globals k !! x = Some v → get_global x k = Ok v k.
Proof. unfold get_global. by intros ->. Qed.

(** *** The joiner reads nothing but the two files *)

Lemma read_topic_terms_files (k1 k2 : kernel) (path : str) :
  files k1 !! path = files k2 !! path →
  answer (read_topic_terms path k1) = answer (read_topic_terms path k2)
  ∧ kernel_of (read_topic_terms path k1) = k1.
Proof.
  unfold read_topic_terms. intros <-.
  by destruct (files k1 !! path) as [[]|].
Qed.

Lemma read_doc_topics_files (k1 k2 : kernel) (path : str) :
  files k1 !! path = files k2 !! path →
  answer (read_doc_topics path k1) = answer (read_doc_topics path k2)
  ∧ kernel_of (read_doc_topics path k1) = k1.
Proof.
  unfold read_doc_topics. intros <-.
  by destruct (files k1 !! path) as [[]|].
Qed.

Lemma join_stage_answer (k : kernel) :
  answer (join_stage k) =
    match answer (read_topic_terms (lit "data/topic-terms.csv") k) with
    | Some (inr ts) =>
        match topics ts with
        | inl e => Some (inl e)
        | inr series =>
            match answer (read_doc_topics (lit "data/doc-topics.csv") k) with
            | Some (inr ds) =>
                match merge_left (docs ds) (index_dtype ts) series with
                | inl e => Some (inl e)
                | inr res => Some (inr res)
                end
            | Some (inl e) => Some (inl e)
            | None => None
            end
        end
    | Some (inl e) => Some (inl e)
    | None => None
    end.
Proof.
  unfold join_stage, read_topic_terms, read_doc_topics, lift, mbind, M_bind. simpl.
  destruct (files k !! lit "data/topic-terms.csv") as [[]|]; simpl; try done.
  destruct (topics rows); simpl; [done|].
  destruct (files k !! lit "data/doc-topics.csv") as [[]|]; simpl; try done.
  by destruct (merge_left _ _ _).
Qed.

Lemma join_stage_Ok (k k' : kernel) (res : list ResultRow) :
  join_stage k = Ok res k' →
  files k' = files k ∧ rng k' = rng k ∧ log k' = log k
  ∧ globals k' !! "results" = Some (VFrame res).
Proof.
  unfold join_stage, read_topic_terms, read_doc_topics, lift, mbind, M_bind. simpl.
  destruct (files k !! lit "data/topic-terms.csv") as [[]|]; simpl; try done.
  destruct (topics rows); simpl; [done|].
  destruct (files k !! lit "data/doc-topics.csv") as [[]|]; simpl; try done.
  destruct (merge_left _ _ _); simpl; [done|].
  intros [= <- <-]. simpl. split_and!; try done.
  by rewrite lookup_insert_eq.
Qed.

(** C4. The joiner is a function of the two input files: two runs on
    kernels that hold the same topic-terms file and the same doc-topics
    file answer the same table, rows in the same order (or the same
    exception), whatever else differs between the kernels; and a run leaves
    the files as they are, so a second run on them answers the same
    again. *)
Theorem joiner_deterministic (k1 k2 : kernel) :
  files k1 !! lit "data/topic-terms.csv" = files k2 !! lit "data/topic-terms.csv" →
  files k1 !! lit "data/doc-topics.csv" = files k2 !! lit "data/doc-topics.csv" →
  answer (join_stage k1) = answer (join_stage k2)
  ∧ (∀ res k1', join_stage k1 = Ok res k1' →
       files k1' = files k1 ∧ answer (join_stage k1') = Some (inr res)).
Proof.
  intros Hterms Hdocs.
  assert (∀ ka kb,
    files ka !! lit "data/topic-terms.csv" = files kb !! lit "data/topic-terms.csv" →
    files ka !! lit "data/doc-topics.csv" = files kb !! lit "data/doc-topics.csv" →
    answer (join_stage ka) = answer (join_stage kb)) as Hsame.
  { intros ka kb Ht Hd. rewrite !join_stage_answer.
    destruct (read_topic_terms_files ka kb _ Ht) as [-> _].
    by destruct (read_doc_topics_files ka kb _ Hd) as [-> _]. }
  split; [by apply Hsame|].
  intros res k1' Hrun.
  destruct (join_stage_Ok _ _ _ Hrun) as (Hfiles & _).
  split; [done|].
  rewrite (Hsame k1' k1) by (by rewrite Hfiles).
  by rewrite Hrun.
Qed.

Lemma joiner_deterministic_witness :
  answer (join_stage scenario_kernel) = answer (join_stage later_kernel)
  ∧ (∀ res k', join_stage scenario_kernel = Ok res k' →
       files k' = files scenario_kernel ∧ answer (join_stage k') = Some (inr res)).
Proof.
  apply (joiner_deterministic scenario_kernel later_kernel); vm_compute; reflexivity.
Defined.

(** *** [random.sample] *)

Lemma swap_out_Permutation {A} (l : list A) (j : nat) (x y : A) :
  l !! j = Some x → x :: <[j:=y]> l ≡ₚ y :: l.
Proof.
  revert j. induction l as [|a l IH]; intros [|j]; simpl; try done.
  - intros [= ->]. apply Permutation_swap.
  - intros Hj. rewrite (Permutation_swap a x), (IH _ Hj). apply Permutation_swap.
Qed.

(** One round of the selection loop: the element taken and the live part
    of the refilled pool make up the live part of the pool before. *)
Lemma pool_step {A} (pool : list A) (live j : nat) (x y : A) :
  (j < live)%nat → pool !! j = Some x → pool !! (live - 1)%nat = Some y →
  x :: take (live - 1) (<[j:=y]> pool) ≡ₚ take live pool.
Proof.
  destruct live as [|m]; [lia|]. replace (S m - 1)%nat with m by lia.
  intros Hj Hx Hy. rewrite (take_S_r pool m y Hy).
  destruct (decide (j = m)) as [->|Hne].
  - rewrite take_insert_ge by lia.
    assert (x = y) as -> by congruence. apply Permutation_cons_append.
  - rewrite take_insert_lt by lia.
    rewrite swap_out_Permutation by (rewrite lookup_take_lt by lia; done).
    apply Permutation_cons_append.
Qed.

Lemma sample_pool_spec {A} (n : nat) :
  ∀ (pool : list A) (live : nat) (k : kernel),
    (n ≤ live)%nat → (live ≤ length pool)%nat →
    ∃ l, sample_pool pool live n k = Ok l (with_rng (λ g i, g (n + i)%nat) k)
         ∧ length l = n ∧ l ⊆+ take live pool.
Proof.
  induction n as [|n IH]; intros pool live k Hn Hlive; simpl.
  - exists []. split_and!; [by destruct k|done|apply submseteq_nil_l].
  - unfold mbind, M_bind, randbelow.
    assert (rng k 0%nat `mod` live < live)%nat as Hj
      by (apply Nat.mod_upper_bound; lia).
    set (j := (rng k 0%nat `mod` live)%nat) in *.
    destruct (lookup_lt_is_Some_2 pool j) as [x Hx]; [lia|].
    destruct (lookup_lt_is_Some_2 pool (live - 1)) as [y Hy]; [lia|].
    rewrite Hx, Hy.
    destruct (IH (<[j:=y]> pool) (live - 1)%nat (with_rng (λ g i, g (S i)) k))
      as (rest & -> & Hlen & Hsub); [lia|rewrite length_insert; lia|].
    exists (x :: rest). split_and!; [done|simpl; lia|].
    rewrite <- (pool_step pool live j x y) by done.
    by apply submseteq_skip.
Qed.

Lemma pow4_above_ge (fuel p x : nat) :
  (0 < p)%nat → (x ≤ p + fuel)%nat → (x ≤ pow4_above fuel p x)%nat.
Proof.
  revert p. induction fuel as [|fuel IH]; intros p Hp Hx; simpl; [lia|].
  destruct (Nat.leb_spec x p); [done|]. apply IH; lia.
Qed.

(** A population is never larger than the set size of a sample of all of
    it: the pool is what selects then. *)
Lemma setsize_ge (n : nat) : (n ≤ setsize n)%nat.
Proof.
  unfold setsize. destruct (Nat.ltb_spec 5 n); [|lia].
  pose proof (pow4_above_ge (3 * n) 1 (3 * n)). lia.
Qed.

(** Asked for as many elements as there are, [random.sample] returns a
    rearrangement of the population. *)
Lemma random_sample_all {A} (fuel : nat) (population : list A) (k : kernel) :
  ∃ l, random_sample fuel population (length population) k
       = Ok l (with_rng (λ g i, g (length population + i)%nat) k)
       ∧ l ≡ₚ population.
Proof.
  unfold random_sample. rewrite Nat.leb_refl.
  destruct (Nat.leb_spec (length population) (setsize (length population))) as [_|?];
    [|pose proof (setsize_ge (length population)); lia].
  destruct (sample_pool_spec (length population) population (length population) k)
    as (l & Hrun & Hlen & Hsub); [done..|].
  exists l. split; [done|].
  rewrite firstn_all in Hsub.
  apply submseteq_length_Permutation; [done|lia].
Qed.

Lemma random_sample_too_many {A} (fuel : nat) (population : list A) (k : kernel) :
  random_sample fuel population (S (length population)) k
  = Raised (ValueError "Sample larger than population or is negative") k.
Proof.
  unfold random_sample.
  by destruct (Nat.leb_spec (S (length population)) (length population)); [lia|].
Qed.

(** *** The dataset sampler *)

Lemma stage_one_Ok (c : cloud) (a : str) (k : kernel) :
  ∃ k', (set_global "article" (VStr a);;
         emit (Print a);;
         download_data c local_raw_data_dir pmc_bucket (pmc_prefix ++ a)) k
        = Ok tt k'
        ∧ globals k' = <["article" := VStr a]> (globals k).
Proof.
  unfold mbind, M_bind, download_data, set_global, emit, write_file, mret, M_ret. cbn.
  destruct (s3_object c pmc_bucket (pmc_prefix ++ a)); cbn;
    eexists; (split; [reflexivity|done]).
Qed.

Lemma staging_Ok (c : cloud) (names : list str) (k : kernel) :
  ∃ k', for_each names (λ article,
          set_global "article" (VStr article);;
          emit (Print article);;
          download_data c local_raw_data_dir pmc_bucket (pmc_prefix ++ article)) k
        = Ok tt k'
        ∧ ∀ x, x ≠ "article" → globals k' !! x = globals k !! x.
Proof.
  revert k. induction names as [|a names IH]; intros k; cbn [for_each].
  - by exists k.
  - destruct (stage_one_Ok c a k) as (k1 & H1 & G1).
    rewrite (bind_Ok _ _ _ _ _ H1).
    destruct (IH k1) as (k' & -> & Hg). exists k'. split; [done|].
    intros x Hx. rewrite (Hg x Hx), G1. by rewrite lookup_insert_ne.
Qed.

(** Lines 78-87 of cell 2, up to the call of [sample]. *)
Lemma sample_articles_listing (fuel count : nat) (c : cloud) (k : kernel)
    (keys : list str) :
  globals k !! "sample" = Some VRandomSample →
  pmc_contents c = Some keys →
  sample_articles fuel count c k
  = (sampled ← random_sample fuel keys count;
     set_global "article_names" (VStrList (basename <$> sampled));;
     for_each (basename <$> sampled) (λ article,
       set_global "article" (VStr article);;
       emit (Print article);;
       download_data c local_raw_data_dir pmc_bucket (pmc_prefix ++ article));;
     emit (UploadData local_raw_data_dir (default_bucket c) (s3_prefix ++ lit "/raw")))
      (Kernel (pmc_constants (globals k)) (files k) (rng k)
              (log k ++ [ListObjectsV2 pmc_bucket pmc_prefix])).
Proof.
  intros Hsample Hkeys. unfold sample_articles.
  unfold set_global at 1 2 3.
  erewrite bind_Ok; [|reflexivity]. erewrite bind_Ok; [|reflexivity].
  erewrite bind_Ok; [|reflexivity].
  erewrite bind_Ok;
    [|apply get_global_Some; cbn; rewrite !lookup_insert_ne by done; exact Hsample].
  rewrite Hkeys. unfold emit at 1.
  erewrite bind_Ok; [|reflexivity].
  erewrite bind_Ok; [|reflexivity]. reflexivity.
Qed.

(** C5. Let the listing hold the keys of n articles and [sample] be bound
    to [random.sample].  Asked for n articles, the sampler succeeds and
    binds [article_names] to a rearrangement of the n identifiers, each
    once.  Asked for n + 1, it raises the error of [random.sample] for a
    sample larger than the population: beyond the three names of lines
    78-80 it binds nothing, and it stages nothing.  The cell of the
    notebook asks for 25: it succeeds on a listing of 25 keys and raises
    on one of 24. *)
Theorem sampler_all_or_error (fuel : nat) (c : cloud) (k : kernel) (keys : list str) :
  globals k !! "sample" = Some VRandomSample →
  pmc_contents c = Some keys →
  (∃ names k',
      sample_articles fuel (length keys) c k = Ok tt k'
      ∧ globals k' !! "article_names" = Some (VStrList names)
      ∧ names ≡ₚ basename <$> keys)
  ∧ (∃ k',
      sample_articles fuel (S (length keys)) c k
      = Raised (ValueError "Sample larger than population or is negative") k'
      ∧ globals k' = pmc_constants (globals k) ∧ files k' = files k)
  ∧ (length keys = 25%nat →
       ∃ names k',
         cell_sample_articles fuel c k = Ok tt k'
         ∧ globals k' !! "article_names" = Some (VStrList names)
         ∧ names ≡ₚ basename <$> keys)
  ∧ (length keys = 24%nat →
       ∃ k',
         cell_sample_articles fuel c k
         = Raised (ValueError "Sample larger than population or is negative") k'
         ∧ globals k' = pmc_constants (globals k) ∧ files k' = files k).
Proof.
  intros Hsample Hkeys.
  cut ((∃ names k',
          sample_articles fuel (length keys) c k = Ok tt k'
          ∧ globals k' !! "article_names" = Some (VStrList names)
          ∧ names ≡ₚ basename <$> keys)
       ∧ (∃ k',
          sample_articles fuel (S (length keys)) c k
          = Raised (ValueError "Sample larger than population or is negative") k'
          ∧ globals k' = pmc_constants (globals k) ∧ files k' = files k)).
  { intros [Hall Hmore]. split_and!; [done|done|..];
      intros Hlen; unfold cell_sample_articles; by rewrite <- Hlen. }
  rewrite !(sample_articles_listing _ _ _ _ _ Hsample Hkeys).
  split.
  - match goal with |- context [mbind _ (random_sample _ keys _) ?k0] =>
      destruct (random_sample_all fuel keys k0) as (sampled & Hrun & Hperm) end.
    erewrite bind_Ok; [|exact Hrun].
    unfold set_global at 1. erewrite bind_Ok; [|reflexivity].
    match goal with |- context [mbind _ (for_each ?l _) ?k0] =>
      destruct (staging_Ok c l k0) as (k1 & Hstage & Hg) end.
    erewrite bind_Ok; [|exact Hstage].
    eexists _, _. split; [reflexivity|]. split.
    + cbn. rewrite Hg by done. cbn. apply lookup_insert_eq.
    + by rewrite Hperm.
  - erewrite bind_Raised; [|apply random_sample_too_many].
    eexists. split; [reflexivity|]. done.
Qed.

Lemma sampler_all_or_error_witness :
  (∃ names k',
      sample_articles 0 3 sample_cloud imported_kernel = Ok tt k'
      ∧ globals k' !! "article_names" = Some (VStrList names)
      ∧ names ≡ₚ basename <$> three_articles)
  ∧ (∃ k',
      sample_articles 0 4 sample_cloud imported_kernel
      = Raised (ValueError "Sample larger than population or is negative") k'
      ∧ globals k' = pmc_constants (globals imported_kernel)
      ∧ files k' = files imported_kernel).
Proof.
  pose proof (sampler_all_or_error 0 sample_cloud imported_kernel three_articles)
    as (Hall & Hmore & _); [reflexivity..|].
  exact (conj Hall Hmore).
Defined.

(** *** The pattern of the input selection *)

Lemma strip_prefix_Some (p s r : str) :
  strip_prefix p s = Some r ↔ s = p ++ r.
Proof.
  revert s. induction p as [|a p IH]; intros [|b s]; simpl.
  - split; congruence.
  - split; congruence.
  - split; [done|]. by intros ?%(f_equal length).
  - destruct (N.eqb_spec a b) as [->|Hne].
    + rewrite IH. split; congruence.
    + split; [done|]. intros [= -> _]. done.
Qed.

Lemma dot_upto_take (n : nat) (s : str) :
  LF ∉ s → dot_upto n s = take n s.
Proof.
  revert s. induction n as [|n IH]; intros [|c s]; simpl; try done.
  intros [Hc Hs]%not_elem_of_cons.
  destruct (N.eqb_spec c LF) as [->|_]; [done|]. by rewrite IH.
Qed.

Lemma flatten_no_LF (content : str) : LF ∉ flatten content.
Proof.
  unfold flatten, replace_char. rewrite <- list_fmap_compose.
  intros (c & Hc & _)%list_elem_of_fmap. simpl in Hc.
  destruct (N.eqb_spec c LF); simpl in Hc; [done|].
  destruct (N.eqb_spec c TAB); done.
Qed.

Lemma match_here_spec (s : str) :
  match match_here s with
  | Some g => occurs_at 0 s ∧ g = dot_upto 1000 (drop 11 s)
  | None => ¬ occurs_at 0 s
  end.
Proof.
  unfold match_here, occurs_at. rewrite drop_0.
  destruct (strip_prefix (lit "Background ") s) as [r|] eqn:Hr; simpl.
  - apply strip_prefix_Some in Hr as ->.
    split; [by rewrite take_app_length'|by rewrite drop_app_length'].
  - intros Htake. rewrite <- (take_drop 11 s), Htake in Hr.
    assert (strip_prefix (lit "Background ") (lit "Background " ++ drop 11 s)
            = Some (drop 11 s)) as Hs by (by apply strip_prefix_Some).
    congruence.
Qed.

Lemma re_search_spec (s : str) :
  match re_search s with
  | Some g =>
      ∃ i, occurs_at i s ∧ (∀ j, (j < i)%nat → ¬ occurs_at j s)
           ∧ g = dot_upto 1000 (drop (i + 11) s)
  | None => ∀ i, ¬ occurs_at i s
  end.
Proof.
  induction s as [|c s IH]; cbn [re_search].
  - pose proof (match_here_spec []) as H0.
    destruct (match_here []) as [g|].
    + destruct H0 as [H0 _]. by vm_compute in H0.
    + intros i. unfold occurs_at. rewrite drop_nil. by vm_compute.
  - pose proof (match_here_spec (c :: s)) as H0.
    destruct (match_here (c :: s)) as [g|].
    + destruct H0 as [H0 ->]. exists 0%nat. split_and!; [done|lia|done].
    + destruct (re_search s) as [g|].
      * destruct IH as (i & Hi & Hfirst & ->). exists (S i). split_and!; [done| |done].
        intros [|j] Hj; [done|]. apply Hfirst. lia.
      * intros [|i]; [done|]. apply IH.
Qed.

(** C6. When the flattened text of an article holds the literal
    ["Background "], the summarisation input taken from it is the run of
    characters that follows the first occurrence of the literal, cut at
    1000 characters; the literal itself is not part of it. *)
Theorem background_capture (content : str) :
  (∃ i, occurs_at i (flatten content)) →
  ∃ i g,
    occurs_at i (flatten content)
    ∧ (∀ j, (j < i)%nat → ¬ occurs_at j (flatten content))
    ∧ g = take 1000 (drop (i + 11) (flatten content))
    ∧ (length g ≤ 1000)%nat
    ∧ background_of content = Some g.
Proof.
  intros [i0 Hi0]. unfold background_of.
  pose proof (re_search_spec (flatten content)) as Hspec.
  destruct (re_search (flatten content)) as [g|]; [|by destruct (Hspec i0)].
  destruct Hspec as (i & Hi & Hfirst & ->).
  assert (LF ∉ drop (i + 11) (flatten content)) as Hlf.
  { intros Hin. apply (flatten_no_LF content).
    rewrite <- (take_drop (i + 11) (flatten content)).
    apply elem_of_app. by right. }
  rewrite (dot_upto_take _ _ Hlf).
  exists i, (take 1000 (drop (i + 11) (flatten content))).
  split_and!; try done. rewrite length_take. lia.
Qed.

Lemma background_capture_witness :
  ∃ i g,
    occurs_at i (flatten sample_content)
    ∧ (∀ j, (j < i)%nat → ¬ occurs_at j (flatten sample_content))
    ∧ g = take 1000 (drop (i + 11) (flatten sample_content))
    ∧ (length g ≤ 1000)%nat
    ∧ background_of sample_content = Some g.
Proof.
  apply (background_capture sample_content).
  exists 6%nat. vm_compute. reflexivity.
Defined.

(** *** The input selection loop *)

(** One element is the element at one draw below the size, whichever way
    the selection goes, and no draw is repeated. *)
Lemma random_sample_one {A} (fuel : nat) (names : list A) (k : kernel) :
  names ≠ [] →
  ∃ x, names !! (rng k 0 `mod` length names)%nat = Some x
       ∧ random_sample fuel names 1 k = Ok [x] (with_rng (λ g i, g (S i)) k).
Proof.
  intros Hne. unfold random_sample.
  assert (0 < length names)%nat as Hlen by (destruct names; [done|simpl; lia]).
  destruct (Nat.leb_spec 1 (length names)) as [_|?]; [|lia].
  assert (rng k 0 `mod` length names < length names)%nat as Hj
    by (apply Nat.mod_upper_bound; lia).
  destruct (lookup_lt_is_Some_2 names _ Hj) as [x Hx].
  exists x. split; [done|].
  destruct (length names <=? setsize 1)%nat.
  - cbn [sample_pool]. unfold mbind, M_bind, randbelow.
    destruct (lookup_lt_is_Some_2 names (length names - 1)) as [y Hy]; [lia|].
    by rewrite Hx, Hy.
  - cbn [sample_set].
    assert (draw_fresh fuel (length names) ∅ k
            = Ok (rng k 0 `mod` length names)%nat (with_rng (λ g i, g (S i)) k)) as Hdraw.
    { destruct fuel; cbn [draw_fresh]; unfold mbind, M_bind, randbelow;
        by rewrite bool_decide_false by set_solver. }
    rewrite (bind_Ok _ _ _ _ _ Hdraw), Hx. reflexivity.
Qed.

Lemma selection_body_staged (k : kernel) (names : list str) :
  staged k names →
  ∃ art f,
    drawn k names 0 = Some art
    ∧ files k !! (lit "data/raw/" ++ art) = Some f
    ∧ selection_body k = Ok tt (after_round k art f).
Proof.
  intros [Hsample Hnames Hne Hfiles]. unfold selection_body.
  rewrite (bind_Ok _ _ _ _ _ (get_global_Some _ _ _ Hsample)).
  rewrite (bind_Ok _ _ _ _ _ (get_global_Some _ _ _ Hnames)).
  cbn [list_of]. erewrite bind_Ok; [|reflexivity]. cbn [call_sample].
  destruct (random_sample_one 0 names k Hne) as (art & Hart & Hrun).
  rewrite (bind_Ok _ _ _ _ _ Hrun).
  erewrite bind_Ok; [|reflexivity].
  unfold set_global at 1. erewrite bind_Ok; [|reflexivity].
  unfold emit at 1. erewrite bind_Ok; [|reflexivity].
  destruct (Hfiles art) as [f Hf]; [by eapply list_elem_of_lookup_2|].
  exists art, f. split_and!; [done..|].
  unfold read_article. erewrite bind_Ok; [|cbn; rewrite Hf; reflexivity].
  unfold set_global at 1. erewrite bind_Ok; [|reflexivity].
  reflexivity.
Qed.

Lemma staged_after_round (k : kernel) (names : list str) (art : str) (f : file) :
  staged k names → staged (after_round k art f) names.
Proof.
  intros [Hsample Hnames Hne Hfiles]. split; [..|done|done]; cbn.
  - by rewrite !lookup_insert_ne.
  - by rewrite !lookup_insert_ne.
Qed.

Lemma round_yields_after_round (k : kernel) (names : list str) (art : str) (f : file)
    (i : nat) (g : str) :
  round_yields (after_round k art f) names i g ↔ round_yields k names (S i) g.
Proof. done. Qed.

Lemma round_yields_0 (k : kernel) (names : list str) (art : str) (f : file) (g : str) :
  drawn k names 0 = Some art →
  files k !! (lit "data/raw/" ++ art) = Some f →
  round_yields k names 0 g ↔ background_of (file_text f) = Some g.
Proof.
  intros Hart Hf. split.
  - intros (art' & f' & Hart' & Hf' & Hg). congruence.
  - intros Hg. by exists art, f.
Qed.

Lemma selection_loop_stop (fuel : nat) (k : kernel) (v : value) :
  globals k !! "result" = Some v → v ≠ VNone →
  selection_loop fuel k = Ok tt k.
Proof.
  intros Hv Hne.
  destruct fuel; cbn [selection_loop];
    rewrite (bind_Ok _ _ _ _ _ (get_global_Some _ _ _ Hv)); by destruct v.
Qed.

Lemma selection_loop_outcome (names : list str) (fuel : nat) :
  ∀ k, staged k names → globals k !! "result" = Some VNone →
    (∃ i g k',
        (i < fuel)%nat ∧ round_yields k names i g
        ∧ (∀ j, (j < i)%nat → ¬ round_matches k names j)
        ∧ selection_loop fuel k = Ok tt k'
        ∧ globals k' !! "result" = Some (VMatch g))
    ∨ ((∀ i, (i < fuel)%nat → ¬ round_matches k names i)
       ∧ ∃ k', selection_loop fuel k = Running k').
Proof.
  induction fuel as [|fuel IH]; intros k Hst Hres; cbn [selection_loop];
    rewrite (bind_Ok _ _ _ _ _ (get_global_Some _ _ _ Hres)).
  - right. split; [lia|]. by exists k.
  - destruct (selection_body_staged k names Hst) as (art & f & Hart & Hf & Hbody).
    rewrite (bind_Ok _ _ _ _ _ Hbody).
    pose proof (λ g, round_yields_0 k names art f g Hart Hf) as H0.
    destruct (background_of (file_text f)) as [g|] eqn:Hg.
    + left. exists 0%nat, g, (after_round k art f). split_and!.
      * lia.
      * by apply H0.
      * lia.
      * eapply selection_loop_stop; [cbn; rewrite Hg; apply lookup_insert_eq|done].
      * cbn. rewrite Hg. apply lookup_insert_eq.
    + assert (¬ round_matches k names 0) as Hno.
      { intros [g Hy]. apply (proj1 (H0 g)) in Hy. discriminate Hy. }
      destruct (IH (after_round k art f)) as
        [(i & g & k' & Hi & Hy & Hfirst & Hrun & Hk')|[Hnone [k' Hrun]]].
      * by apply staged_after_round.
      * cbn. rewrite Hg. apply lookup_insert_eq.
      * left. exists (S i), g, k'. split_and!; [lia|done| |done|done].
        intros [|j] Hj; [done|]. apply (Hfirst j). lia.
      * right. split; [|by exists k'].
        intros [|i] Hi; [done|]. apply (Hnone i). lia.
Qed.

Lemma staged_reset (k : kernel) (names : list str) :
  staged k names → staged (with_globals (insert "result" VNone) k) names.
Proof.
  intros [Hsample Hnames Hne Hfiles]. split; [..|done|done]; cbn.
  - by rewrite lookup_insert_ne.
  - by rewrite lookup_insert_ne.
Qed.

Lemma cell_select_input_outcome (names : list str) (fuel : nat) (k : kernel) :
  staged k names →
  (∃ i g k',
      (i < fuel)%nat ∧ round_yields k names i g
      ∧ (∀ j, (j < i)%nat → ¬ round_matches k names j)
      ∧ cell_select_input fuel k = Ok tt k'
      ∧ globals k' !! "dict" = Some (VDict g))
  ∨ ((∀ i, (i < fuel)%nat → ¬ round_matches k names i)
     ∧ ∃ k', cell_select_input fuel k = Running k').
Proof.
  intros Hst.
  assert (∀ k1, selection_loop fuel (with_globals (insert "result" VNone) k) = k1 →
    cell_select_input fuel k
    = match k1 with
      | Ok _ k' =>
          (result ← get_global "result";
           g ← group1 result;
           set_global "dict" (VDict g);;
           emit (PrintValue (VDict g))) k'
      | Raised e k' => Raised e k'
      | Running k' => Running k'
      end) as Hcell.
  { intros k1 <-. reflexivity. }
  destruct (selection_loop_outcome names fuel (with_globals (insert "result" VNone) k))
    as [(i & g & k' & Hi & Hy & Hfirst & Hrun & Hk')|[Hnone [k' Hrun]]].
  - by apply staged_reset.
  - cbn. apply lookup_insert_eq.
  - left. exists i, g. eexists. split_and!; [done|done|done|..].
    + rewrite (Hcell _ Hrun).
      rewrite (bind_Ok _ _ _ _ _ (get_global_Some _ _ _ Hk')).
      reflexivity.
    + cbn. apply lookup_insert_eq.
  - right. split; [done|]. exists k'. by rewrite (Hcell _ Hrun).
Qed.

(** C7. On a kernel with the staged articles, the cell of the input
    selection stops within [fuel] rounds exactly when one of the first
    [fuel] rounds draws an article whose flattened text matches; it then
    binds [dict] to the input of the first such round.  It never raises.
    When no round draws a matching article, and so when no staged article
    matches at all, the loop is still running after any number of
    rounds. *)
Theorem selection_stops_iff_match (k : kernel) (names : list str) :
  staged k names →
  (∀ fuel, (∃ k', cell_select_input fuel k = Ok tt k')
           ↔ ∃ i, (i < fuel)%nat ∧ round_matches k names i)
  ∧ (∀ fuel k', cell_select_input fuel k = Ok tt k' →
       ∃ i g, (i < fuel)%nat ∧ round_yields k names i g
              ∧ (∀ j, (j < i)%nat → ¬ round_matches k names j)
              ∧ globals k' !! "dict" = Some (VDict g))
  ∧ (∀ fuel e k', cell_select_input fuel k ≠ Raised e k')
  ∧ ((∀ i, ¬ round_matches k names i) →
       ∀ fuel, ∃ k', cell_select_input fuel k = Running k')
  ∧ ((∀ art f, art ∈ names → files k !! (lit "data/raw/" ++ art) = Some f →
                background_of (file_text f) = None) →
       ∀ fuel, ∃ k', cell_select_input fuel k = Running k').
Proof.
  intros Hst.
  assert (∀ fuel k', cell_select_input fuel k = Ok tt k' →
       ∃ i g, (i < fuel)%nat ∧ round_yields k names i g
              ∧ (∀ j, (j < i)%nat → ¬ round_matches k names j)
              ∧ globals k' !! "dict" = Some (VDict g)) as Hok.
  { intros fuel k' Hrun.
    destruct (cell_select_input_outcome names fuel k Hst)
      as [(i & g & k'' & Hi & Hy & Hfirst & Hrun' & Hk')|[_ [k'' Hrun']]];
      [|congruence].
    exists i, g. split_and!; [done..|]. congruence. }
  assert ((∀ i, ¬ round_matches k names i) →
       ∀ fuel, ∃ k', cell_select_input fuel k = Running k') as Hnever.
  { intros Hno fuel.
    destruct (cell_select_input_outcome names fuel k Hst)
      as [(i & g & _ & _ & Hy & _)|[_ Hrun]]; [|done].
    destruct (Hno i). by exists g. }
  split_and!.
  - intros fuel. split.
    + intros [k' Hrun]. destruct (Hok _ _ Hrun) as (i & g & Hi & Hy & _).
      exists i. split; [done|]. by exists g.
    + intros (i & Hi & Hm).
      destruct (cell_select_input_outcome names fuel k Hst)
        as [(_ & _ & k' & _ & _ & _ & Hrun & _)|[Hnone _]]; [by exists k'|].
      by destruct (Hnone i Hi).
  - done.
  - intros fuel e k' Hrun.
    destruct (cell_select_input_outcome names fuel k Hst)
      as [(_ & _ & k'' & _ & _ & _ & Hrun' & _)|[_ [k'' Hrun']]]; congruence.
  - done.
  - intros Hno. apply Hnever.
    intros i (g & art & f & Hart & Hf & Hg).
    apply list_elem_of_lookup_2 in Hart. rewrite (Hno art f Hart Hf) in Hg. done.
Qed.

Lemma staged_kernel_staged : staged staged_kernel three_names.
Proof.
  split; [vm_compute; reflexivity..|done|].
  apply Forall_forall. repeat constructor; vm_compute; by eexists.
Qed.

Lemma selection_stops_iff_match_witness :
  (∃ k', cell_select_input 2 staged_kernel = Ok tt k')
  ↔ ∃ i, (i < 2)%nat ∧ round_matches staged_kernel three_names i.
Proof.
  exact (proj1 (selection_stops_iff_match staged_kernel three_names
                  staged_kernel_staged) 2%nat).
Defined.

Example selection_on_staged_kernel :
  answer (cell_select_input 1 staged_kernel) = None
  ∧ answer (cell_select_input 2 staged_kernel) = Some (inr tt)
  ∧ globals (kernel_of (cell_select_input 2 staged_kernel)) !! "dict"
    = Some (VDict (lit "Cells divide.")).
Proof. vm_compute. done. Qed.

(** *** The status check and the stages behind it *)

Lemma cell_describe_and_join_check (c : cloud) (k : kernel) (j : str) (p : JobProperties) :
  globals k !! "job_id" = Some (VStr j) →
  job_properties c = Some p →
  cell_describe_and_join c k
  = (if bool_decide (JobStatus p = lit "COMPLETED")
     then downstream_stages c p
     else mret tt) (after_check k j p).
Proof.
  intros Hj Hp. unfold cell_describe_and_join.
  rewrite (bind_Ok _ _ _ _ _ (get_global_Some _ _ _ Hj)).
  rewrite Hp. cbn [str_of job_of].
  unfold after_check, mbind, M_bind, mret, M_ret, emit, set_global, with_log, with_globals.
  cbn [globals files rng log].
  rewrite <- app_assoc.
  by destruct (bool_decide (JobStatus p = lit "COMPLETED")).
Qed.

Lemma join_stage_log (k : kernel) : log (kernel_of (join_stage k)) = log k.
Proof.
  unfold join_stage, read_topic_terms, read_doc_topics, lift, mbind, M_bind. cbn.
  destruct (files k !! lit "data/topic-terms.csv") as [[]|]; cbn; try done.
  destruct (topics rows); cbn; [done|].
  destruct (files k !! lit "data/doc-topics.csv") as [[]|]; cbn; try done.
  by destruct (merge_left _ _ _).
Qed.

Lemma bind_assoc {A B C} (m : M A) (f : A → M B) (g : B → M C) (k : kernel) :
  (m ≫= (λ x, f x ≫= g)) k = ((m ≫= f) ≫= g) k.
Proof. unfold mbind, M_bind. by destruct (m k). Qed.

Lemma fetch_Ok (c : cloud) (p : JobProperties) (k : kernel) :
  ∃ k1,
    (download_data c (lit "data") (OutputDataConfig p).1 (OutputDataConfig p).2;;
     untar_output) k = Ok tt k1
    ∧ globals k1 = globals k
    ∧ log k1 = log k ++ [DownloadData (lit "data") (OutputDataConfig p).1 (OutputDataConfig p).2;
                         System (lit "tar xvfz data/output.tar.gz -C data/")].
Proof.
  unfold download_data, untar_output, extract, emit, write_file, mbind, M_bind, mret, M_ret.
  cbn. destruct (s3_object c _ _); cbn;
    match goal with |- context [match ?x with _ => _ end] => destruct x as [[]|] end;
    eexists; (split; [reflexivity|]); cbn; by rewrite <- app_assoc.
Qed.

Lemma downstream_stages_log (c : cloud) (p : JobProperties) (k : kernel) :
  ∃ rest,
    log (kernel_of (downstream_stages c p k))
    = log k ++ [DownloadData (lit "data") (OutputDataConfig p).1 (OutputDataConfig p).2;
                System (lit "tar xvfz data/output.tar.gz -C data/")] ++ rest
    ∧ (rest = [] ∨ ∃ res, rest = [Display res]).
Proof.
  unfold downstream_stages. unfold set_global at 1.
  erewrite bind_Ok; [|reflexivity].
  destruct (fetch_Ok c p
              (with_globals (insert "output_url"
                               (VTuple (OutputDataConfig p).1 (OutputDataConfig p).2)) k))
    as (k1 & Hrun & _ & Hlog).
  rewrite bind_assoc, (bind_Ok _ _ _ _ _ Hrun).
  pose proof (join_stage_log k1) as Hjoin.
  unfold mbind, M_bind. destruct (join_stage k1) as [res k2|e k2|k2]; cbn in *.
  - exists [Display res]. split; [|by eauto]. by rewrite Hjoin, Hlog, <- app_assoc.
  - exists []. split; [|by left]. by rewrite Hjoin, Hlog.
  - exists []. split; [|by left]. by rewrite Hjoin, Hlog.
Qed.




Example completed_job_is_joined_and_displayed :
  answer (cell_describe_and_join completed_cloud submitted_kernel) = Some (inr tt)
  ∧ new_events submitted_kernel (cell_describe_and_join completed_cloud submitted_kernel)
    = [DescribeTopicsDetectionJob (lit "job-1");
       Print (lit "Job job-1 status is COMPLETED");
       DownloadData (lit "data") (lit "sagemaker-bucket")
                    (lit "sci-docs/data/output/output.tar.gz");
       System (lit "tar xvfz data/output.tar.gz -C data/");
       Display [mkResult (Str (lit "a.txt")) (Int 1) (Float float_0_8)
                  (Some (lit "gene, cell"))]].
Proof. vm_compute. done. Qed.

(** *** The wait for the inference result *)

Lemma attempts_S (delay first m : nat) :
  attempts delay first (S (S m))
  = ObjectExists first :: Sleep delay :: attempts delay (S first) (S m).
Proof. reflexivity. Qed.

Lemma attempts_count (delay first m : nat) :
  length (filter is_attempt (attempts delay first m)) = m.
Proof.
  revert first. induction m as [|m IH]; intros first; [done|].
  destruct m as [|m]; [done|].
  rewrite attempts_S. rewrite filter_cons_True by done.
  rewrite filter_cons_False by (by intros []). cbn [length]. by rewrite IH.
Qed.

Lemma wait_for_output_found (c : cloud) (w : WaiterConfig) (left attempt : nat)
    (k : kernel) (out : str) :
  inference_output c attempt = Some out →
  wait_for_output c w left attempt k
  = Ok out (with_log (λ l, l ++ [ObjectExists attempt]) k).
Proof.
  intros Hout. destruct left; cbn [wait_for_output];
    unfold mbind, M_bind, emit; by rewrite Hout.
Qed.

Lemma wait_for_output_timeout (c : cloud) (w : WaiterConfig) (attempt : nat) (k : kernel) :
  inference_output c attempt = None →
  wait_for_output c w 0 attempt k
  = Raised (PollingTimeoutError (delay w * max_attempts w))
           (with_log (λ l, l ++ [ObjectExists attempt]) k).
Proof.
  intros Hout. cbn [wait_for_output]. unfold mbind, M_bind, emit. by rewrite Hout.
Qed.

Lemma wait_for_output_retry (c : cloud) (w : WaiterConfig) (left attempt : nat) (k : kernel) :
  inference_output c attempt = None →
  wait_for_output c w (S left) attempt k
  = wait_for_output c w left (S attempt)
      (with_log (λ l, l ++ [ObjectExists attempt; Sleep (delay w)]) k).
Proof.
  intros Hout. cbn [wait_for_output]. unfold mbind, M_bind, emit at 1 2.
  rewrite Hout. unfold with_log. cbn [globals files rng log].
  by rewrite <- app_assoc.
Qed.

Lemma wait_for_output_outcome (c : cloud) (w : WaiterConfig) (left : nat) :
  ∀ attempt k,
    (∃ m out,
        (m ≤ left)%nat
        ∧ inference_output c (attempt + m)%nat = Some out
        ∧ (∀ i, (i < m)%nat → inference_output c (attempt + i)%nat = None)
        ∧ wait_for_output c w left attempt k
          = Ok out (with_log (λ l, l ++ attempts (delay w) attempt (S m)) k))
    ∨ ((∀ i, (i ≤ left)%nat → inference_output c (attempt + i)%nat = None)
       ∧ wait_for_output c w left attempt k
         = Raised (PollingTimeoutError (delay w * max_attempts w))
                  (with_log (λ l, l ++ attempts (delay w) attempt (S left)) k)).
Proof.
  induction left as [|left IH]; intros attempt k;
    destruct (inference_output c attempt) as [out|] eqn:Hout.
  - left. exists 0%nat, out. rewrite Nat.add_0_r.
    split_and!; [lia|done|lia|by apply wait_for_output_found].
  - right. split; [|by apply wait_for_output_timeout].
    intros i Hi. by replace (attempt + i)%nat with attempt by lia.
  - left. exists 0%nat, out. rewrite Nat.add_0_r.
    split_and!; [lia|done|lia|by apply wait_for_output_found].
  - rewrite (wait_for_output_retry c w left attempt k Hout).
    destruct (IH (S attempt) (with_log (λ l, l ++ [ObjectExists attempt; Sleep (delay w)]) k))
      as [(m & out & Hm & Hfound & Hnone & ->)|[Hnone ->]].
    + left. exists (S m), out. split_and!.
      * lia.
      * by replace (attempt + S m)%nat with (S attempt + m)%nat by lia.
      * intros [|i] Hi; [by rewrite Nat.add_0_r|].
        replace (attempt + S i)%nat with (S attempt + i)%nat by lia. apply Hnone. lia.
      * unfold with_log. cbn [globals files rng log]. rewrite attempts_S.
        by rewrite <- !app_assoc.
    + right. split.
      * intros [|i] Hi; [by rewrite Nat.add_0_r|].
        replace (attempt + S i)%nat with (S attempt + i)%nat by lia. apply Hnone. lia.
      * unfold with_log. cbn [globals files rng log]. rewrite attempts_S.
        by rewrite <- !app_assoc.
Qed.

Lemma cell_predict_outcome (c : cloud) (k : kernel) (inputs : str) :
  globals k !! "dict" = Some (VDict inputs) →
  (∃ m out,
      (1 ≤ m ≤ 24)%nat
      ∧ inference_output c m = Some out
      ∧ (∀ i, (1 ≤ i < m)%nat → inference_output c i = None)
      ∧ cell_predict c k
        = Ok tt (Kernel (<["result" := VStr out]> (globals k)) (files k) (rng k)
                   (log k ++ [PredictAsync inputs] ++ attempts 15 1 m
                          ++ [GetObject; PrintValue (VStr out)])))
  ∨ ((∀ i, (1 ≤ i ≤ 24)%nat → inference_output c i = None)
     ∧ cell_predict c k
       = Raised (PollingTimeoutError 360)
           (Kernel (globals k) (files k) (rng k)
              (log k ++ [PredictAsync inputs] ++ attempts 15 1 24))).
Proof.
  intros Hdict.
  assert (cell_predict c k
          = match wait_for_output c (mkWaiter 24 15) 23 1
                    (with_log (λ l, l ++ [PredictAsync inputs]) k) with
            | Ok out k1 =>
                Ok tt (with_log (λ l, l ++ [PrintValue (VStr out)])
                         (with_globals (insert "result" (VStr out))
                            (with_log (λ l, l ++ [GetObject]) k1)))
            | Raised e k1 => Raised e k1
            | Running k1 => Running k1
            end) as ->.
  { unfold cell_predict, payload, get_result, mbind, M_bind, emit, set_global, mret, M_ret.
    rewrite Hdict. cbn [max_attempts]. 
    by destruct (wait_for_output _ _ _ _ _). }
  destruct (wait_for_output_outcome c (mkWaiter 24 15) 23 1
              (with_log (λ l, l ++ [PredictAsync inputs]) k))
    as [(m & out & Hm & Hfound & Hnone & ->)|[Hnone ->]].
  - left. exists (S m), out. split_and!; [lia|lia|exact Hfound| |].
    + intros i Hi. replace i with (1 + (i - 1))%nat by lia. apply Hnone. lia.
    + unfold with_log, with_globals. cbn [globals files rng log delay].
      by rewrite <- !app_assoc.
  - right. split.
    + intros i Hi. replace i with (1 + (i - 1))%nat by lia. apply Hnone. lia.
    + unfold with_log. cbn [globals files rng log delay max_attempts].
      by rewrite <- !app_assoc.
Qed.

Lemma attempts_no_request (delay first m : nat) :
  filter is_request (attempts delay first m) = [].
Proof.
  revert first. induction m as [|m IH]; intros first; [done|].
  destruct m as [|m]; [done|]. rewrite attempts_S.
  rewrite !filter_cons_False by (by intros []). apply IH.
Qed.

(** C9. With the payload bound, cell 10 sends one request and waits with
    at most 24 attempts, 15 time units apart.  When the output is first
    there at attempt m, for some m from 1 to 24, the cell ends after m
    attempts and binds the generated text.  When it is there at none of the
    24 attempts, the cell raises the timeout error after the 24th, and
    nothing in the cell tries again: the log ends with that attempt. *)
Theorem wait_is_bounded (c : cloud) (k : kernel) (inputs : str) :
  globals k !! "dict" = Some (VDict inputs) →
  (length (filter is_attempt (new_events k (cell_predict c k))) ≤ 24)%nat
  ∧ length (filter is_request (new_events k (cell_predict c k))) = 1%nat
  ∧ (∀ m out,
       (1 ≤ m ≤ 24)%nat →
       inference_output c m = Some out →
       (∀ i, (1 ≤ i < m)%nat → inference_output c i = None) →
       cell_predict c k
       = Ok tt (Kernel (<["result" := VStr out]> (globals k)) (files k) (rng k)
                  (log k ++ [PredictAsync inputs] ++ attempts 15 1 m
                         ++ [GetObject; PrintValue (VStr out)])))
  ∧ ((∀ i, (1 ≤ i ≤ 24)%nat → inference_output c i = None) →
       cell_predict c k
       = Raised (PollingTimeoutError 360)
           (Kernel (globals k) (files k) (rng k)
              (log k ++ [PredictAsync inputs] ++ attempts 15 1 24))).
Proof.
  intros Hdict.
  destruct (cell_predict_outcome c k inputs Hdict)
    as [(m & out & Hm & Hfound & Hnone & Hrun)|[Hnone Hrun]].
  - assert (new_events k (cell_predict c k)
            = [PredictAsync inputs] ++ attempts 15 1 m
              ++ [GetObject; PrintValue (VStr out)]) as Hnew.
    { rewrite Hrun. unfold new_events. cbn [kernel_of log].
      by rewrite drop_app_length. }
    split_and!.
    + rewrite Hnew, !filter_app, !length_app, attempts_count.
      change (filter is_attempt [PredictAsync inputs]) with (@nil event).
      change (filter is_attempt [GetObject; PrintValue (VStr out)]) with (@nil event).
      cbn [length]. lia.
    + rewrite Hnew, !filter_app, !length_app.
      by rewrite attempts_no_request.
    + intros m' out' Hm' Hfound' Hnone'.
      destruct (Nat.lt_trichotomy m m') as [Hlt|[->|Hgt]].
      * rewrite Hnone' in Hfound by lia. done.
      * rewrite Hrun. congruence.
      * rewrite Hnone in Hfound' by lia. done.
    + intros Hnever. rewrite Hnever in Hfound by lia. done.
  - assert (new_events k (cell_predict c k)
            = [PredictAsync inputs] ++ attempts 15 1 24) as Hnew.
    { rewrite Hrun. unfold new_events. cbn [kernel_of log].
      by rewrite drop_app_length. }
    split_and!.
    + by rewrite Hnew.
    + by rewrite Hnew.
    + intros m out Hm Hfound _. rewrite Hnone in Hfound by lia. done.
    + done.
Qed.

Lemma wait_is_bounded_witness :
  (length (filter is_attempt
             (new_events selected_kernel (cell_predict sample_cloud selected_kernel)))
   ≤ 24)%nat
  ∧ length (filter is_request
              (new_events selected_kernel (cell_predict sample_cloud selected_kernel)))
    = 1%nat.
Proof.
  pose proof (wait_is_bounded sample_cloud selected_kernel (lit "Cells divide."))
    as (Hmost & Hone & _); [vm_compute; reflexivity|].
  exact (conj Hmost Hone).
Defined.

Example summary_at_third_attempt :
  answer (cell_predict sample_cloud selected_kernel) = Some (inr tt)
  ∧ new_events selected_kernel (cell_predict sample_cloud selected_kernel)
    = [PredictAsync (lit "Cells divide.");
       ObjectExists 1; Sleep 15; ObjectExists 2; Sleep 15; ObjectExists 3;
       GetObject; PrintValue (VStr (lit "Cells divide."))].
Proof. vm_compute. done. Qed.

Example timeout_without_output :
  answer (cell_predict completed_cloud selected_kernel)
  = Some (inl (PollingTimeoutError 360))
  ∧ length (new_events selected_kernel (cell_predict completed_cloud selected_kernel))
    = 48%nat.
Proof. vm_compute. done. Qed.

(** *** The name [sample] *)

Lemma frame_sample_Ok (rows : list ResultRow) (k : kernel) :
  rows ≠ [] →
  ∃ r, r ∈ rows
       ∧ frame_sample rows k = Ok [r] (with_rng (λ g i, g (S i)) k).
Proof.
  intros Hne. destruct rows as [|r0 rows]; [done|]. cbn [frame_sample].
  unfold mbind, M_bind, randbelow.
  assert (rng k 0 `mod` length (r0 :: rows) < length (r0 :: rows))%nat as Hj
    by (apply Nat.mod_upper_bound; simpl; lia).
  destruct (lookup_lt_is_Some_2 (r0 :: rows) _ Hj) as [r Hr].
  rewrite Hr. exists r. split; [by eapply list_elem_of_lookup_2|done].
Qed.

(** Lines 232-240 on the drawn row: the four names are bound and the two
    lines printed; then the document is downloaded and shown when its
    name is a string, and [os.path.join] raises when it is not. *)
Lemma examples_tail_run (c : cloud) (p : JobProperties) (r : ResultRow) (k : kernel) :
  (set_global "docname" (value_of (res_docname r));;
   set_global "idx" (value_of (res_topic r));;
   set_global "score" (value_of (res_proportion r));;
   set_global "terms" (VCell (res_term r));;
   emit (Print (lit "Document name is " ++ scalar_text c (res_docname r)));;
   emit (Print (lit "Identified terms are " ++ cell_text (res_term r)));;
   name ← path_component (res_docname r);
   download_data c (lit "data") (InputDataConfig p).1
     (path_join (InputDataConfig p).2 name);;
   emit (System (lit "head -n 25 data/" ++ name))) k
  = let bound :=
      <["terms" := VCell (res_term r)]>
        (<["score" := value_of (res_proportion r)]>
           (<["idx" := value_of (res_topic r)]>
              (<["docname" := value_of (res_docname r)]> (globals k)))) in
    let printed :=
      [Print (lit "Document name is " ++ scalar_text c (res_docname r));
       Print (lit "Identified terms are " ++ cell_text (res_term r))] in
    match res_docname r with
    | Str name =>
        Ok tt
          (Kernel bound
             (match s3_object c (InputDataConfig p).1
                      (path_join (InputDataConfig p).2 name) with
              | Some f =>
                  <[path_join (lit "data")
                      (basename (path_join (InputDataConfig p).2 name)) := f]> (files k)
              | None => files k
              end)
             (rng k)
             (log k ++ printed
                ++ [DownloadData (lit "data") (InputDataConfig p).1
                      (path_join (InputDataConfig p).2 name);
                    System (lit "head -n 25 data/" ++ name)]))
    | _ =>
        Raised (TypeError "join() argument must be str, bytes, or os.PathLike object")
          (Kernel bound (files k) (rng k) (log k ++ printed))
    end.
Proof.
  unfold download_data, path_component, set_global, emit, write_file, raise,
    mbind, M_bind, mret, M_ret.
  cbn [with_globals with_log with_files globals files rng log].
  destruct (res_docname r) as [z|q| |name];
    try (unfold with_globals, with_log, with_files; cbn [globals files rng log];
         by rewrite <- !app_assoc).
  destruct (s3_object c _ _);
    unfold with_globals, with_log, with_files; cbn [globals files rng log];
    by rewrite <- !app_assoc.
Qed.

(** Cell 6 on a completed job with a table to draw from: up to the draw
    and the rebinding of [sample]. *)
Lemma cell_examples_draw (c : cloud) (k : kernel) (p : JobProperties)
    (rows : list ResultRow) :
  globals k !! "describe_topics_detection_job_result" = Some (VJob p) →
  JobStatus p = lit "COMPLETED" →
  globals k !! "results" = Some (VFrame rows) →
  rows ≠ [] →
  ∃ r, rows !! (rng k 0 `mod` length rows)%nat = Some r
    ∧ cell_examples c k
      = (set_global "docname" (value_of (res_docname r));;
         set_global "idx" (value_of (res_topic r));;
         set_global "score" (value_of (res_proportion r));;
         set_global "terms" (VCell (res_term r));;
         emit (Print (lit "Document name is " ++ scalar_text c (res_docname r)));;
         emit (Print (lit "Identified terms are " ++ cell_text (res_term r)));;
         name ← path_component (res_docname r);
         download_data c (lit "data") (InputDataConfig p).1
           (path_join (InputDataConfig p).2 name);;
         emit (System (lit "head -n 25 data/" ++ name)))
          (Kernel (<["sample" := VFrame [r]]>
                     (<["input_url" := VTuple (InputDataConfig p).1 (InputDataConfig p).2]>
                        (globals k)))
                  (files k) (λ i, rng k (S i)) (log k)).
Proof.
  intros Hd Hp Hres Hne.
  assert (∃ r, rows !! (rng k 0 `mod` length rows)%nat = Some r) as [r Hr].
  { apply lookup_lt_is_Some_2, Nat.mod_upper_bound. by destruct rows. }
  exists r. split; [done|]. unfold cell_examples.
  rewrite (bind_Ok _ _ _ _ _ (get_global_Some _ _ _ Hd)). cbn [job_of].
  erewrite bind_Ok; [|reflexivity]. rewrite bool_decide_true by done.
  unfold set_global at 1. erewrite bind_Ok; [|reflexivity].
  erewrite bind_Ok;
    [|apply get_global_Some; cbn; rewrite lookup_insert_ne by done; exact Hres].
  cbn [frame_of]. erewrite bind_Ok; [|reflexivity].
  erewrite bind_Ok.
  2:{ destruct rows as [|r0 rows]; [done|]. cbn [frame_sample].
      unfold mbind, M_bind, randbelow. cbn [with_globals globals files rng log].
      rewrite Hr. reflexivity. }
  unfold set_global at 1. erewrite bind_Ok; [|reflexivity]. reflexivity.
Qed.

Lemma cell_examples_rebinds (c : cloud) (k : kernel) (p : JobProperties)
    (rows : list ResultRow) :
  globals k !! "describe_topics_detection_job_result" = Some (VJob p) →
  JobStatus p = lit "COMPLETED" →
  globals k !! "results" = Some (VFrame rows) →
  rows ≠ [] →
  ∃ k' r,
    r ∈ rows
    ∧ (cell_examples c k = Ok tt k'
       ∨ ∃ msg, cell_examples c k = Raised (TypeError msg) k')
    ∧ (is_text (res_docname r) = true → cell_examples c k = Ok tt k')
    ∧ globals k' !! "sample" = Some (VFrame [r]).
Proof.
  intros Hd Hp Hres Hne.
  destruct (cell_examples_draw c k p rows Hd Hp Hres Hne) as (r & Hr & ->).
  rewrite examples_tail_run. cbn zeta.
  destruct (res_docname r) as [z|q| |name] eqn:Hname; eexists _, r;
    (split; [by eapply list_elem_of_lookup_2|]);
    (split; [first [by left|right; by eexists]|]);
    (split; [by rewrite Hname|]); cbn [globals];
    rewrite !lookup_insert_ne by done; apply lookup_insert_eq.
Qed.

Lemma cell_select_input_not_callable (k : kernel) (one : list ResultRow)
    (names : list str) (fuel : nat) :
  globals k !! "sample" = Some (VFrame one) →
  globals k !! "article_names" = Some (VStrList names) →
  cell_select_input (S fuel) k
  = Raised (TypeError "'DataFrame' object is not callable")
           (with_globals (insert "result" VNone) k).
Proof.
  intros Hsample Hnames. unfold cell_select_input.
  unfold set_global at 1. erewrite bind_Ok; [|reflexivity].
  apply bind_Raised. cbn [selection_loop].
  erewrite bind_Ok; [|apply get_global_Some; cbn; apply lookup_insert_eq].
  apply bind_Raised. unfold selection_body.
  erewrite bind_Ok;
    [|apply get_global_Some; cbn; rewrite lookup_insert_ne by done; exact Hsample].
  erewrite bind_Ok;
    [|apply get_global_Some; cbn; rewrite lookup_insert_ne by done; exact Hnames].
  cbn [list_of]. erewrite bind_Ok; [|reflexivity].
  by apply bind_Raised.
Qed.

Lemma selection_body_needs_function (k k1 : kernel) :
  selection_body k = Ok tt k1 → globals k !! "sample" = Some VRandomSample.
Proof.
  unfold selection_body, get_global. unfold mbind at 1, M_bind at 1.
  destruct (globals k !! "sample") as [f|]; [|done].
  unfold mbind at 1, M_bind at 1.
  destruct (globals k !! "article_names") as [names|]; [|done].
  unfold mbind at 1, M_bind at 1.
  destruct names; try done. cbn [list_of mret M_ret].
  unfold mbind at 1, M_bind at 1.
  destruct f; try done.
Qed.

Lemma cell_select_input_needs_function (k k' : kernel) (fuel : nat) :
  cell_select_input fuel k = Ok tt k' →
  globals k !! "sample" = Some VRandomSample.
Proof.
  unfold cell_select_input. unfold mbind at 1, M_bind at 1, set_global at 1.
  unfold mbind at 1, M_bind at 1.
  assert (globals (with_globals (insert "result" VNone) k) !! "result" = Some VNone)
    as Hres by (cbn; apply lookup_insert_eq).
  destruct fuel as [|fuel]; cbn [selection_loop];
    rewrite (bind_Ok _ _ _ _ _ (get_global_Some _ _ _ Hres)).
  - done.
  - unfold mbind at 1, M_bind at 1.
    destruct (selection_body _) as [[] k1|e k1|k1] eqn:Hbody; try done.
    intros _. apply selection_body_needs_function in Hbody.
    cbn in Hbody. by rewrite lookup_insert_ne in Hbody.
Qed.

(** C10. Let cell 6 run on a completed job with a joined table that has a
    row to draw, so that its assignment to [sample] executes.  Then cell 6
    ends with [sample] bound to a DataFrame of one row (it ends without
    error when the name of the drawn document is a string, and with the
    type error of [os.path.join] otherwise), and on any later kernel where
    that binding stands the selection cell raises the type error of calling
    a DataFrame, in its first round and before any article is read.  The
    selection cell can only yield an input on a kernel where [sample] is
    still the function of the [random] module. *)
Theorem display_rebinds_sample
    (c : cloud) (k : kernel) (p : JobProperties) (rows : list ResultRow) :
  globals k !! "describe_topics_detection_job_result" = Some (VJob p) →
  JobStatus p = lit "COMPLETED" →
  globals k !! "results" = Some (VFrame rows) →
  rows ≠ [] →
  (∃ k' r,
      (cell_examples c k = Ok tt k'
       ∨ ∃ msg, cell_examples c k = Raised (TypeError msg) k')
      ∧ (is_text (res_docname r) = true → cell_examples c k = Ok tt k')
      ∧ r ∈ rows
      ∧ globals k' !! "sample" = Some (VFrame [r])
      ∧ ∀ k'' names fuel,
          globals k'' !! "sample" = globals k' !! "sample" →
          globals k'' !! "article_names" = Some (VStrList names) →
          cell_select_input (S fuel) k''
          = Raised (TypeError "'DataFrame' object is not callable")
                   (with_globals (insert "result" VNone) k''))
  ∧ (∀ k0 fuel k1,
       cell_select_input fuel k0 = Ok tt k1 →
       globals k0 !! "sample" = Some VRandomSample).
Proof.
  intros Hd Hp Hres Hne. split.
  - destruct (cell_examples_rebinds c k p rows Hd Hp Hres Hne)
      as (k' & r & Hr & Hrun & Hok & Hs).
    exists k', r. split_and!; [done..|].
    intros k'' names fuel Hsame Hnames.
    apply (cell_select_input_not_callable k'' [r] names fuel); [|done].
    by rewrite Hsame.
  - intros k0 fuel k1. apply cell_select_input_needs_function.
Qed.

Lemma display_rebinds_sample_witness :
  (∃ k' r,
      (cell_examples completed_cloud session_kernel = Ok tt k'
       ∨ ∃ msg, cell_examples completed_cloud session_kernel = Raised (TypeError msg) k')
      ∧ (is_text (res_docname r) = true →
         cell_examples completed_cloud session_kernel = Ok tt k')
      ∧ r ∈ [scenario_row]
      ∧ globals k' !! "sample" = Some (VFrame [r])
      ∧ ∀ k'' names fuel,
          globals k'' !! "sample" = globals k' !! "sample" →
          globals k'' !! "article_names" = Some (VStrList names) →
          cell_select_input (S fuel) k''
          = Raised (TypeError "'DataFrame' object is not callable")
                   (with_globals (insert "result" VNone) k''))
  ∧ (∀ k0 fuel k1,
       cell_select_input fuel k0 = Ok tt k1 →
       globals k0 !! "sample" = Some VRandomSample).
Proof.
  apply (display_rebinds_sample completed_cloud session_kernel completed_job);
    [vm_compute; reflexivity|vm_compute; reflexivity|vm_compute; reflexivity|done].
Defined.

Example selection_fails_after_display :
  answer ((cell_examples completed_cloud;; cell_select_input 5) session_kernel)
  = Some (inl (TypeError "'DataFrame' object is not callable")).
Proof. vm_compute. reflexivity. Qed.

(** ** Further facts about the dataset sampler *)

(** X4. Cell 2 fails before any sampling when the name [sample] is not
    bound (a name error, and the listing is not even requested) and when
    the listing comes without ["Contents"], as for a prefix with no object:
    the subscript raises a key error, whatever [sample] is bound to and
    whatever count is asked for.  In both cases the three names of lines
    78-80 are bound by then, and nothing else is. *)
Theorem sampler_fails_before_sampling (fuel count : nat) (c : cloud) (k : kernel) :
  (globals k !! "sample" = None →
     sample_articles fuel count c k
     = Raised (NameError "sample") (with_globals pmc_constants k))
  ∧ (∀ f, globals k !! "sample" = Some f → pmc_contents c = None →
       sample_articles fuel count c k = Raised (KeyError (lit "Contents")) (listed k)).
Proof.
  split.
  - intros Hnone. unfold sample_articles.
    unfold set_global at 1 2 3.
    erewrite bind_Ok; [|reflexivity]. erewrite bind_Ok; [|reflexivity].
    erewrite bind_Ok; [|reflexivity].
    apply bind_Raised. unfold get_global. cbn.
    by rewrite !lookup_insert_ne, Hnone.
  - intros f Hf Hc. unfold sample_articles.
    unfold set_global at 1 2 3.
    erewrite bind_Ok; [|reflexivity]. erewrite bind_Ok; [|reflexivity].
    erewrite bind_Ok; [|reflexivity].
    erewrite bind_Ok;
      [|apply get_global_Some; cbn; rewrite !lookup_insert_ne by done; exact Hf].
    unfold emit at 1. erewrite bind_Ok; [|reflexivity].
    apply bind_Raised. by rewrite Hc.
Qed.

(** *** The selection with a set of chosen indices *)

Lemma draw_fresh_first (fuel n : nat) (selected : gset nat) (k : kernel) :
  (rng k 0 `mod` n)%nat ∉ selected →
  draw_fresh fuel n selected k
  = Ok (rng k 0 `mod` n)%nat (with_rng (λ g i, g (S i)) k).
Proof.
  intros Hfresh. destruct fuel; cbn [draw_fresh]; unfold mbind, M_bind, randbelow;
    by rewrite bool_decide_false.
Qed.

Lemma same_but_rng_refl (k : kernel) : same_but_rng k k.
Proof. done. Qed.

Lemma same_but_rng_step (f : (nat → nat) → nat → nat) (k k' : kernel) :
  same_but_rng (with_rng f k) k' → same_but_rng k k'.
Proof. done. Qed.

Lemma draw_fresh_outcome (fuel n : nat) (selected : gset nat) :
  (0 < n)%nat →
  ∀ k,
    (∃ k', draw_fresh fuel n selected k = Running k' ∧ same_but_rng k k')
    ∨ ∃ j k', draw_fresh fuel n selected k = Ok j k' ∧ same_but_rng k k'
              ∧ (j < n)%nat ∧ j ∉ selected.
Proof.
  intros Hn. induction fuel as [|fuel IH]; intros k; cbn [draw_fresh];
    unfold mbind, M_bind, randbelow;
    (destruct (bool_decide_reflect ((rng k 0 `mod` n)%nat ∈ selected)) as [Hin|Hin];
     [|right; eexists _, _; split_and!;
       [reflexivity|apply (same_but_rng_step _ _ _ (same_but_rng_refl _))
       |by apply Nat.mod_upper_bound; lia|done]]).
  - left. by eexists.
  - destruct (IH (with_rng (λ g i, g (S i)) k))
      as [(k' & Hrun & Hk')|(j & k' & Hrun & Hk' & Hj)].
    + left. eexists. split; [exact Hrun|]. by eapply same_but_rng_step.
    + right. eexists _, _. split; [exact Hrun|]. split; [|done].
      by eapply same_but_rng_step.
Qed.

(** The elements at pairwise distinct places of a list are part of it. *)
Lemma picks_submseteq {A} (l : list A) :
  ∀ (idx : list nat) (population : list A),
    NoDup idx →
    Forall2 (λ i x, population !! i = Some x) idx l →
    l ⊆+ population.
Proof.
  induction l as [|x l IH]; intros idx population Hnd Hpick.
  - apply submseteq_nil_l.
  - apply Forall2_cons_inv_r in Hpick as (i & idx' & Hi & Hrest & ->).
    apply NoDup_cons in Hnd as [Hnot Hnd].
    rewrite (delete_Permutation population i x Hi). apply submseteq_skip.
    apply (IH ((λ j, if (j <? i)%nat then j else pred j) <$> idx')).
    + apply NoDup_fmap_2_strong; [|done].
      intros a b Ha Hb.
      destruct (Nat.ltb_spec a i), (Nat.ltb_spec b i); intros Hab; try lia.
      * assert (b ≠ i) by (by intros ->). lia.
      * assert (a ≠ i) by (by intros ->). lia.
      * assert (a ≠ i) by (by intros ->). assert (b ≠ i) by (by intros ->). lia.
    + assert (Forall2 (λ j y, j ≠ i ∧ population !! j = Some y) idx' l) as Hrest'.
      { clear -Hrest Hnot. induction Hrest as [|j y idx' l Hj _ IH]; constructor.
        - split; [|done]. intros ->. apply Hnot, list_elem_of_here.
        - apply IH. intros Hin. apply Hnot. by apply list_elem_of_further. }
      apply Forall2_fmap_l. eapply Forall2_impl; [exact Hrest'|].
      intros j y [Hne Hj]. simpl.
      destruct (Nat.ltb_spec j i).
      * by rewrite list_lookup_delete_lt.
      * rewrite list_lookup_delete_ge by lia. by replace (S (pred j)) with j by lia.
Qed.

Lemma same_but_rng_trans (k1 k2 k3 : kernel) :
  same_but_rng k1 k2 → same_but_rng k2 k3 → same_but_rng k1 k3.
Proof. intros (?&?&?) (?&?&?). split_and!; congruence. Qed.

(** The selection with a set never raises: it is still redrawing when the
    fuel ends, or it returns elements at pairwise distinct places. *)
Lemma sample_set_outcome {A} (fuel : nat) (population : list A) (count : nat) :
  (0 < length population)%nat →
  ∀ (selected : gset nat) (k : kernel),
    (∃ k', sample_set fuel population selected count k = Running k' ∧ same_but_rng k k')
    ∨ ∃ l idx k',
        sample_set fuel population selected count k = Ok l k'
        ∧ same_but_rng k k'
        ∧ length l = count
        ∧ NoDup idx
        ∧ (∀ i, i ∈ idx → i ∉ selected)
        ∧ Forall2 (λ i x, population !! i = Some x) idx l.
Proof.
  intros Hn. induction count as [|count IH]; intros selected k; cbn [sample_set].
  - right. exists [], [], k. split_and!; try done; [constructor|by intros i ?%elem_of_nil].
  - destruct (draw_fresh_outcome fuel (length population) selected Hn k)
      as [(k1 & Hrun & Hk1)|(j & k1 & Hrun & Hk1 & Hj & Hfresh)].
    + left. exists k1. split; [by apply bind_Running|done].
    + rewrite (bind_Ok _ _ _ _ _ Hrun).
      destruct (lookup_lt_is_Some_2 population j Hj) as [x Hx]. rewrite Hx.
      destruct (IH ({[j]} ∪ selected) k1)
        as [(k2 & Hrest & Hk2)|(l & idx & k2 & Hrest & Hk2 & Hlen & Hnd & Hout & Hpick)].
      * left. exists k2. split; [by apply bind_Running|].
        by eapply same_but_rng_trans.
      * right. exists (x :: l), (j :: idx), k2. split_and!.
        -- by rewrite (bind_Ok _ _ _ _ _ Hrest).
        -- by eapply same_but_rng_trans.
        -- simpl. by rewrite Hlen.
        -- constructor; [|done]. intros Hin. apply (Hout j Hin). set_solver.
        -- intros i [->|Hi]%elem_of_cons; [done|].
           specialize (Hout i Hi). set_solver.
        -- by constructor.
Qed.

Lemma sample_draws_S (k : kernel) (n count : nat) :
  sample_draws k n (S count)
  = (rng k 0 `mod` n)%nat :: sample_draws (with_rng (λ g i, g (S i)) k) n count.
Proof.
  unfold sample_draws. cbn [seq fmap list_fmap]. f_equal.
  rewrite <- fmap_S_seq, <- list_fmap_compose. done.
Qed.

(** When the draws are pairwise distinct none is repeated: the selection
    with a set returns the elements at the draws, in the order of the
    draws, whatever the fuel. *)
Lemma sample_set_distinct {A} (fuel : nat) (population : list A) (count : nat) :
  (0 < length population)%nat →
  ∀ (selected : gset nat) (k : kernel),
    NoDup (sample_draws k (length population) count) →
    (∀ d, d ∈ sample_draws k (length population) count → d ∉ selected) →
    ∃ l, sample_set fuel population selected count k
         = Ok l (with_rng (λ g i, g (count + i)%nat) k)
         ∧ Forall2 (λ d x, population !! d = Some x)
             (sample_draws k (length population) count) l.
Proof.
  intros Hn. induction count as [|count IH]; intros selected k Hnd Hout;
    cbn [sample_set].
  - exists []. split; [by destruct k|constructor].
  - rewrite sample_draws_S in Hnd, Hout. rewrite sample_draws_S.
    apply NoDup_cons in Hnd as [Hnot Hnd].
    rewrite (bind_Ok _ _ _ _ _
               (draw_fresh_first fuel _ selected k (Hout _ (list_elem_of_here _ _)))).
    destruct (lookup_lt_is_Some_2 population (rng k 0 `mod` length population)) as [x Hx];
      [apply Nat.mod_upper_bound; lia|].
    rewrite Hx.
    destruct (IH ({[(rng k 0 `mod` length population)%nat]} ∪ selected)
                (with_rng (λ g i, g (S i)) k) Hnd) as (l & Hrun & Hpick).
    { intros d Hd. apply not_elem_of_union. split.
      - intros ->%elem_of_singleton. done.
      - apply Hout. by apply list_elem_of_further. }
    exists (x :: l). split; [|by constructor].
    by rewrite (bind_Ok _ _ _ _ _ Hrun).
Qed.

(** On a stream that repeats one value a chosen index is drawn again and
    again. *)
Lemma draw_fresh_stuck (fuel n : nat) (selected : gset nat) (v : nat) :
  (v `mod` n)%nat ∈ selected →
  ∀ k, (∀ i, rng k i = v) → ∃ k', draw_fresh fuel n selected k = Running k'.
Proof.
  intros Hin. induction fuel as [|fuel IH]; intros k Hv; cbn [draw_fresh];
    unfold mbind, M_bind, randbelow; rewrite Hv, bool_decide_true by done.
  - by eexists.
  - apply IH. intros i. apply Hv.
Qed.

(** [random.sample] of no more than there is never raises. *)
Lemma random_sample_outcome {A} (fuel : nat) (population : list A) (count : nat)
    (k : kernel) :
  (count ≤ length population)%nat →
  (∃ k', random_sample fuel population count k = Running k' ∧ same_but_rng k k'
         ∧ (setsize count < length population)%nat)
  ∨ ∃ l k', random_sample fuel population count k = Ok l k' ∧ same_but_rng k k'
            ∧ length l = count ∧ l ⊆+ population.
Proof.
  intros Hcount. unfold random_sample.
  destruct (Nat.leb_spec count (length population)) as [_|?]; [|lia].
  destruct (Nat.leb_spec (length population) (setsize count)) as [Hpool|Hset].
  - right.
    destruct (sample_pool_spec count population (length population) k)
      as (l & Hrun & Hlen & Hsub); [done..|].
    exists l. eexists. split_and!; [exact Hrun|done|done|].
    by rewrite firstn_all in Hsub.
  - assert (0 < length population)%nat as Hn by lia.
    destruct (sample_set_outcome fuel population count Hn ∅ k)
      as [(k' & Hrun & Hk')|(l & idx & k' & Hrun & Hk' & Hlen & Hnd & _ & Hpick)].
    + left. by exists k'.
    + right. exists l, k'. split_and!; [done..|]. by eapply picks_submseteq.
Qed.

(** It ends when the pool selects, and when the draws are pairwise
    distinct. *)
Lemma random_sample_ends {A} (fuel : nat) (population : list A) (count : nat)
    (k : kernel) :
  (count ≤ length population)%nat →
  (length population ≤ setsize count)%nat
  ∨ NoDup (sample_draws k (length population) count) →
  ∃ l, random_sample fuel population count k
       = Ok l (with_rng (λ g i, g (count + i)%nat) k)
       ∧ length l = count ∧ l ⊆+ population.
Proof.
  intros Hcount Hends. unfold random_sample.
  destruct (Nat.leb_spec count (length population)) as [_|?]; [|lia].
  destruct (Nat.leb_spec (length population) (setsize count)) as [Hpool|Hset].
  - destruct (sample_pool_spec count population (length population) k)
      as (l & Hrun & Hlen & Hsub); [done..|].
    exists l. split_and!; [done..|]. by rewrite firstn_all in Hsub.
  - destruct Hends as [?|Hnd]; [lia|].
    assert (0 < length population)%nat as Hn by lia.
    destruct (sample_set_distinct fuel population count Hn ∅ k Hnd) as (l & Hrun & Hpick);
      [set_solver|].
    exists l. split_and!; [done| |].
    + apply Forall2_length in Hpick. rewrite <- Hpick. unfold sample_draws.
      by rewrite length_fmap, length_seq.
    + by eapply picks_submseteq.
Qed.


(** X5. Cell 2 asked for no more names than are listed never fails and
    never draws a key twice: it binds [article_names] to exactly that many
    names, which as a multiset are part of the basenames of the listing,
    unless, on a listing too long for the pool of [random.sample], a draw
    is still being repeated when the fuel ends.  It ends when the pool
    selects and when the draws of the kernel are pairwise distinct; in the
    second case, on a long listing, the names are those at the draws, in
    the order of the draws.  On a stream that repeats one value the second
    draw of a long listing is repeated for ever.  Asked for more names
    than are listed, the cell raises the value error of [random.sample]
    right after the listing, and no article is staged. *)
Theorem sampler_draws_without_replacement
    (fuel count : nat) (c : cloud) (k : kernel) (keys : list str) :
  globals k !! "sample" = Some VRandomSample →
  pmc_contents c = Some keys →
  ((count ≤ length keys)%nat →
     (∃ k', sample_articles fuel count c k = Running k'
            ∧ (setsize count < length keys)%nat)
     ∨ ∃ names k',
         sample_articles fuel count c k = Ok tt k'
         ∧ globals k' !! "article_names" = Some (VStrList names)
         ∧ length names = count
         ∧ names ⊆+ basename <$> keys)
  ∧ ((count ≤ length keys)%nat →
     (length keys ≤ setsize count)%nat ∨ NoDup (sample_draws k (length keys) count) →
     ∃ names k',
       sample_articles fuel count c k = Ok tt k'
       ∧ globals k' !! "article_names" = Some (VStrList names)
       ∧ length names = count
       ∧ names ⊆+ basename <$> keys
       ∧ ((setsize count < length keys)%nat →
          Forall2 (λ d name, ∃ key, keys !! d = Some key ∧ name = basename key)
            (sample_draws k (length keys) count) names))
  ∧ (∀ v, (2 ≤ count ≤ length keys)%nat → (setsize count < length keys)%nat →
       (∀ i, rng k i = v) →
       ∃ k', sample_articles fuel count c k = Running k')
  ∧ ((length keys < count)%nat →
       sample_articles fuel count c k
       = Raised (ValueError "Sample larger than population or is negative") (listed k)).
Proof.
  intros Hsample Hkeys.
  rewrite (sample_articles_listing _ _ _ _ _ Hsample Hkeys). fold (listed k).
  assert (∀ sampled k1,
    random_sample fuel keys count (listed k) = Ok sampled k1 →
    same_but_rng (listed k) k1 →
    ∃ k',
      (sampled ← random_sample fuel keys count;
       set_global "article_names" (VStrList (basename <$> sampled));;
       for_each (basename <$> sampled) (λ article,
         set_global "article" (VStr article);;
         emit (Print article);;
         download_data c local_raw_data_dir pmc_bucket (pmc_prefix ++ article));;
       emit (UploadData local_raw_data_dir (default_bucket c) (s3_prefix ++ lit "/raw")))
        (listed k) = Ok tt k'
      ∧ globals k' !! "article_names" = Some (VStrList (basename <$> sampled))) as Htail.
  { intros sampled k1 Hrun Hk1. rewrite (bind_Ok _ _ _ _ _ Hrun).
    unfold set_global at 1. erewrite bind_Ok; [|reflexivity].
    match goal with |- context [mbind _ (for_each ?l _) ?k0] =>
      destruct (staging_Ok c l k0) as (k2 & Hstage & Hg) end.
    erewrite bind_Ok; [|exact Hstage].
    eexists. split; [reflexivity|]. cbn. rewrite Hg by done. cbn.
    apply lookup_insert_eq. }
  split_and!.
  - intros Hcount.
    destruct (random_sample_outcome fuel keys count (listed k) Hcount)
      as [(k1 & Hrun & _ & Hset)|(sampled & k1 & Hrun & Hk1 & Hlen & Hsub)].
    + left. exists k1. split; [by apply bind_Running|done].
    + right. destruct (Htail sampled k1 Hrun Hk1) as (k' & Hcell & Hnames).
      exists (basename <$> sampled), k'. split_and!; [done..| |].
      * by rewrite length_fmap.
      * by apply fmap_submseteq.
  - intros Hcount Hends.
    destruct (random_sample_ends fuel keys count (listed k) Hcount Hends)
      as (sampled & Hrun & Hlen & Hsub).
    destruct (Htail sampled _ Hrun) as (k' & Hcell & Hnames); [done|].
    exists (basename <$> sampled), k'. split_and!; [done..| | |].
    + by rewrite length_fmap.
    + by apply fmap_submseteq.
    + intros Hset.
      assert (NoDup (sample_draws k (length keys) count)) as Hnd
        by (destruct Hends; [lia|done]).
      destruct (sample_set_distinct fuel keys count ltac:(lia) ∅ (listed k) Hnd)
        as (l & Hrun' & Hpick); [set_solver|].
      assert (l = sampled) as ->.
      { unfold random_sample in Hrun.
        destruct (Nat.leb_spec count (length keys)); [|lia].
        destruct (Nat.leb_spec (length keys) (setsize count)); [lia|]. congruence. }
      apply Forall2_fmap_r. eapply Forall2_impl; [exact Hpick|].
      intros d key Hd. by exists key.
  - intros v Hcount Hset Hv.
    cut (∃ k', random_sample fuel keys count (listed k) = Running k').
    { intros [k' Hrun]. exists k'. by apply bind_Running. }
    unfold random_sample.
    destruct (Nat.leb_spec count (length keys)); [|lia].
    destruct (Nat.leb_spec (length keys) (setsize count)); [lia|].
    clear Htail. destruct count as [|[|count]]; [lia..|]. cbn [sample_set].
    assert ((rng (listed k) 0 `mod` length keys)%nat ∉ (∅ : gset nat)) as Hfresh
      by set_solver.
    rewrite (bind_Ok _ _ _ _ _ (draw_fresh_first fuel (length keys) ∅ (listed k) Hfresh)).
    destruct (lookup_lt_is_Some_2 keys (rng (listed k) 0 `mod` length keys)) as [x Hx];
      [apply Nat.mod_upper_bound; lia|].
    rewrite Hx.
    destruct (draw_fresh_stuck fuel (length keys)
                ({[(rng (listed k) 0 `mod` length keys)%nat]} ∪ ∅) v)
      with (k := with_rng (λ g i, g (S i)) (listed k)) as [k' Hstuck].
    + cbn. rewrite Hv. by apply elem_of_union_l, elem_of_singleton.
    + intros i. cbn. apply Hv.
    + exists k'. apply bind_Running. by apply bind_Running.
  - intros Hcount. apply bind_Raised. unfold random_sample.
    by destruct (Nat.leb_spec count (length keys)); [lia|].
Qed.

Lemma sampler_draws_without_replacement_witness :
  ∃ names k',
    sample_articles 0 25 thousand_cloud imported_kernel = Ok tt k'
    ∧ globals k' !! "article_names" = Some (VStrList names)
    ∧ length names = 25%nat
    ∧ names ⊆+ basename <$> thousand_articles
    ∧ ((setsize 25 < length thousand_articles)%nat →
       Forall2 (λ d name, ∃ key, thousand_articles !! d = Some key ∧ name = basename key)
         (sample_draws imported_kernel (length thousand_articles) 25) names).
Proof.
  destruct (sampler_draws_without_replacement 0 25 thousand_cloud imported_kernel
              thousand_articles) as (_ & Hends & _); [reflexivity..|].
  apply Hends.
  - vm_compute. lia.
  - right. apply (bool_decide_unpack _). by vm_compute.
Defined.

Lemma basename_foldl (acc p : str) :
  slash ∉ p →
  foldl (λ acc c, if (c =? slash)%N then [] else acc ++ [c]) acc p = acc ++ p.
Proof.
  revert acc. induction p as [|c p IH]; intros acc Hp; cbn [foldl].
  - by rewrite app_nil_r.
  - apply not_elem_of_cons in Hp as [Hc Hp].
    destruct (N.eqb_spec c slash) as [->|_]; [done|].
    rewrite IH by done. by rewrite <- app_assoc.
Qed.

Lemma basename_no_slash (p : str) : slash ∉ basename p.
Proof.
  unfold basename.
  cut (∀ acc, slash ∉ acc →
         slash ∉ foldl (λ acc c, if (c =? slash)%N then [] else acc ++ [c]) acc p).
  { intros H. apply H, not_elem_of_nil. }
  induction p as [|c p IH]; intros acc Hacc; cbn [foldl]; [done|].
  apply IH. destruct (N.eqb_spec c slash) as [->|Hne]; [apply not_elem_of_nil|].
  rewrite elem_of_app, list_elem_of_singleton. intros [?|?]; congruence.
Qed.

Lemma basename_under_prefix (dir a : str) :
  slash ∉ a → basename (dir ++ slash :: a) = a.
Proof.
  intros Ha. unfold basename. rewrite foldl_app. cbn [foldl].
  rewrite N.eqb_refl. by rewrite basename_foldl.
Qed.

Lemma path_join_raw (a : str) :
  slash ∉ a → path_join local_raw_data_dir a = local_raw_data_dir ++ a.
Proof.
  intros Ha. unfold path_join.
  assert (last local_raw_data_dir = Some slash) as -> by reflexivity.
  rewrite N.eqb_refl. destruct a as [|c a]; [by rewrite app_nil_r|].
  apply not_elem_of_cons in Ha as [Hc _].
  by destruct (N.eqb_spec c slash).
Qed.


Lemma stage_one_files (c : cloud) (a : str) (k : kernel) :
  slash ∉ a →
  ∃ k', (set_global "article" (VStr a);;
         emit (Print a);;
         download_data c local_raw_data_dir pmc_bucket (pmc_prefix ++ a)) k
        = Ok tt k'
        ∧ globals k' = <["article" := VStr a]> (globals k)
        ∧ files k' = match s3_object c pmc_bucket (pmc_prefix ++ a) with
                     | Some f => <[local_raw_data_dir ++ a := f]> (files k)
                     | None => files k
                     end.
Proof.
  intros Ha.
  unfold mbind, M_bind, download_data, set_global, emit, write_file, mret, M_ret. cbn.
  assert (basename (pmc_prefix ++ a) = a) as ->.
  { change pmc_prefix with (lit "oa_comm/txt/all" ++ [slash]).
    rewrite <- app_assoc. by apply basename_under_prefix. }
  rewrite path_join_raw by done.
  destruct (s3_object c pmc_bucket (pmc_prefix ++ a)); cbn;
    eexists; (split; [reflexivity|done]).
Qed.

Lemma staging_files (c : cloud) (names : list str) (k : kernel) :
  Forall (λ a, slash ∉ a) names →
  ∃ k', for_each names (λ article,
          set_global "article" (VStr article);;
          emit (Print article);;
          download_data c local_raw_data_dir pmc_bucket (pmc_prefix ++ article)) k
        = Ok tt k'
        ∧ (∀ x, x ≠ "article" → globals k' !! x = globals k !! x)
        ∧ (∀ path f,
             files k !! path = Some f →
             (∀ b g, b ∈ names → local_raw_data_dir ++ b = path →
                     s3_object c pmc_bucket (pmc_prefix ++ b) = Some g → g = f) →
             files k' !! path = Some f)
        ∧ (∀ a f, a ∈ names →
             s3_object c pmc_bucket (pmc_prefix ++ a) = Some f →
             files k' !! (local_raw_data_dir ++ a) = Some f).
Proof.
  revert k. induction names as [|a names IH]; intros k Hnames; cbn [for_each].
  - exists k. split_and!; [done..|]. by intros a f ?%not_elem_of_nil.
  - apply Forall_cons in Hnames as [Ha Hnames].
    destruct (stage_one_files c a k Ha) as (k1 & H1 & G1 & F1).
    rewrite (bind_Ok _ _ _ _ _ H1).
    destruct (IH k1 Hnames) as (k' & -> & Hg & Hkeep & Hnew).
    exists k'. split_and!; [done| | |].
    + intros x Hx. rewrite (Hg x Hx), G1. by rewrite lookup_insert_ne.
    + intros path f Hpath Hsame. apply Hkeep.
      * rewrite F1.
        destruct (s3_object c pmc_bucket (pmc_prefix ++ a)) as [g|] eqn:Hobj; [|done].
        rewrite lookup_insert. case_decide as Heq; [|done].
        f_equal. apply (Hsame a g); [apply list_elem_of_here|done..].
      * intros b g Hb. apply Hsame. by apply list_elem_of_further.
    + intros b f [->|Hb]%elem_of_cons Hobj; [|by apply Hnew].
      apply Hkeep.
      * rewrite F1, Hobj. apply lookup_insert_eq.
      * intros b g _ Heq%app_inv_head Hg'. congruence.
Qed.

(** X6. Let cell 2 ask for at least one article and no more than are
    listed, let the sampling end (the pool selects, or the draws are
    pairwise distinct), and let the bucket hold an object under the
    prefix for each listed name.  Then cell 2 leaves the kernel as the
    input selection of cell 9 needs it: [sample] is still the function,
    [article_names] is not empty, and each of its names has its file under
    [data/raw/], the object of that name. *)
Theorem sampler_stages_its_articles
    (fuel count : nat) (c : cloud) (k : kernel) (keys : list str) :
  globals k !! "sample" = Some VRandomSample →
  pmc_contents c = Some keys →
  (1 ≤ count ≤ length keys)%nat →
  (length keys ≤ setsize count)%nat ∨ NoDup (sample_draws k (length keys) count) →
  (∀ key, key ∈ keys → is_Some (s3_object c pmc_bucket (pmc_prefix ++ basename key))) →
  ∃ names k',
    sample_articles fuel count c k = Ok tt k'
    ∧ staged k' names
    ∧ (∀ a, a ∈ names →
         files k' !! (lit "data/raw/" ++ a)
         = s3_object c pmc_bucket (pmc_prefix ++ a)).
Proof.
  intros Hsample Hkeys Hcount Hends Hobjects.
  rewrite (sample_articles_listing _ _ _ _ _ Hsample Hkeys). fold (listed k).
  destruct (random_sample_ends fuel keys count (listed k) (proj2 Hcount) Hends)
    as (sampled & Hrun & Hlen & Hsub).
  rewrite (bind_Ok _ _ _ _ _ Hrun).
  unfold set_global at 1. erewrite bind_Ok; [|reflexivity].
  assert (∀ a, a ∈ basename <$> sampled →
            (slash ∉ a) ∧ is_Some (s3_object c pmc_bucket (pmc_prefix ++ a))) as Hnames.
  { intros a (key & -> & Hkey)%list_elem_of_fmap. split; [apply basename_no_slash|].
    apply Hobjects. by eapply elem_of_submseteq. }
  assert (Forall (λ a, slash ∉ a) (basename <$> sampled)) as Hclean.
  { apply Forall_forall. intros a Ha. by apply Hnames. }
  match goal with |- context [mbind _ (for_each ?l _) ?k0] =>
    destruct (staging_files c l k0 Hclean) as (k1 & Hstage & Hg & _ & Hnew) end.
  erewrite bind_Ok; [|exact Hstage].
  eexists (basename <$> sampled), _. split; [reflexivity|]. split.
  - split; cbn [globals with_log].
    + rewrite Hg by done. cbn. unfold pmc_constants.
      by rewrite !lookup_insert_ne.
    + rewrite Hg by done. cbn. apply lookup_insert_eq.
    + intros Hnil. apply (f_equal length) in Hnil.
      rewrite length_fmap in Hnil. cbn in Hnil. lia.
    + intros art Hart. destruct (Hnames art Hart) as [_ [f Hf]].
      exists f. by apply Hnew.
  - intros a Ha. cbn [files with_log]. destruct (Hnames a Ha) as [_ [f Hf]].
    rewrite Hf. by apply Hnew.
Qed.

Lemma sampler_stages_its_articles_witness :
  ∃ names k',
    sample_articles 0 25 thousand_cloud imported_kernel = Ok tt k'
    ∧ staged k' names
    ∧ (∀ a, a ∈ names →
         files k' !! (lit "data/raw/" ++ a)
         = s3_object thousand_cloud pmc_bucket (pmc_prefix ++ a)).
Proof.
  apply (sampler_stages_its_articles 0 25 thousand_cloud imported_kernel
           thousand_articles).
  - reflexivity.
  - reflexivity.
  - vm_compute. lia.
  - right. apply (bool_decide_unpack _). by vm_compute.
  - intros key _. by eexists.
Defined.

(** ** Cell 3 and the failures of the input selection *)

(** X7. On a kernel with the staged articles, cell 3 draws one of the
    names in [article_names], binds it to [art], prints it and shows the
    head of its file, which exists.  It rebinds nothing else and touches no
    file, so the kernel stays ready for the input selection. *)
Theorem example_is_a_staged_article (k : kernel) (names : list str) :
  staged k names →
  ∃ art k',
    drawn k names 0 = Some art
    ∧ art ∈ names
    ∧ cell_look_at_example k = Ok tt k'
    ∧ globals k' !! "art" = Some (VStr art)
    ∧ new_events k (cell_look_at_example k)
      = [Print art; System (lit "head data/raw/" ++ art)]
    ∧ is_Some (files k' !! (lit "data/raw/" ++ art))
    ∧ staged k' names.
Proof.
  intros [Hsample Hnames Hne Hfiles].
  destruct (random_sample_one 0 names k Hne) as (art & Hart & Hrun).
  assert (cell_look_at_example k
          = Ok tt (Kernel (<["art" := VStr art]> (globals k)) (files k)
                     (λ i, rng k (S i))
                     (log k ++ [Print art; System (lit "head data/raw/" ++ art)])))
    as Hcell.
  { unfold cell_look_at_example.
    rewrite (bind_Ok _ _ _ _ _ (get_global_Some _ _ _ Hsample)).
    rewrite (bind_Ok _ _ _ _ _ (get_global_Some _ _ _ Hnames)).
    cbn [list_of]. erewrite bind_Ok; [|reflexivity]. cbn [call_sample].
    rewrite (bind_Ok _ _ _ _ _ Hrun).
    unfold mbind, M_bind, mret, M_ret, set_global, emit, with_globals, with_log, with_rng.
    cbn [globals files rng log]. by rewrite <- app_assoc. }
  assert (art ∈ names) as Hin by (by eapply list_elem_of_lookup_2).
  exists art. eexists. split_and!; [done|done|exact Hcell|..].
  - cbn. apply lookup_insert_eq.
  - rewrite Hcell. unfold new_events. cbn [kernel_of log]. by rewrite drop_app_length.
  - cbn. by apply Hfiles.
  - split; cbn; [by rewrite lookup_insert_ne|by rewrite lookup_insert_ne|done|done].
Qed.

Lemma example_is_a_staged_article_witness :
  ∃ art k',
    drawn staged_kernel three_names 0 = Some art
    ∧ art ∈ three_names
    ∧ cell_look_at_example staged_kernel = Ok tt k'
    ∧ globals k' !! "art" = Some (VStr art)
    ∧ new_events staged_kernel (cell_look_at_example staged_kernel)
      = [Print art; System (lit "head data/raw/" ++ art)]
    ∧ is_Some (files k' !! (lit "data/raw/" ++ art))
    ∧ staged k' three_names.
Proof.
  exact (example_is_a_staged_article staged_kernel three_names staged_kernel_staged).
Defined.

(** X8. The input selection does not pass over an article whose file is
    missing: when the article drawn in the first round has no file under
    [data/raw/], the cell raises the file-not-found error for that path,
    after it has bound and printed the name. *)
Theorem missing_article_file (k : kernel) (names : list str) (art : str) (fuel : nat) :
  globals k !! "sample" = Some VRandomSample →
  globals k !! "article_names" = Some (VStrList names) →
  drawn k names 0 = Some art →
  files k !! (lit "data/raw/" ++ art) = None →
  cell_select_input (S fuel) k
  = Raised (FileNotFoundError (lit "data/raw/" ++ art))
      (Kernel (<["art" := VStr art]> (<["result" := VNone]> (globals k)))
              (files k) (λ i, rng k (S i)) (log k ++ [Print art])).
Proof.
  intros Hsample Hnames Hart Hfile.
  assert (names ≠ []) as Hne by (intros ->; done).
  unfold cell_select_input.
  unfold set_global at 1. erewrite bind_Ok; [|reflexivity].
  apply bind_Raised. cbn [selection_loop].
  erewrite bind_Ok; [|apply get_global_Some; cbn; apply lookup_insert_eq].
  apply bind_Raised. unfold selection_body.
  erewrite bind_Ok;
    [|apply get_global_Some; cbn; rewrite lookup_insert_ne by done; exact Hsample].
  erewrite bind_Ok;
    [|apply get_global_Some; cbn; rewrite lookup_insert_ne by done; exact Hnames].
  cbn [list_of]. erewrite bind_Ok; [|reflexivity]. cbn [call_sample].
  destruct (random_sample_one 0 names (with_globals (insert "result" VNone) k) Hne)
    as (art' & Hart' & Hrun).
  assert (art' = art) as -> by (unfold drawn in Hart; cbn in Hart'; congruence).
  rewrite (bind_Ok _ _ _ _ _ Hrun).
  erewrite bind_Ok; [|reflexivity].
  unfold set_global at 1. erewrite bind_Ok; [|reflexivity].
  unfold emit at 1. erewrite bind_Ok; [|reflexivity].
  apply bind_Raised. unfold read_article. cbn. by rewrite Hfile.
Qed.

Lemma missing_article_file_witness :
  cell_select_input 3 unstaged_kernel
  = Raised (FileNotFoundError (lit "data/raw/" ++ lit "PMC1.txt"))
      (Kernel (<["art" := VStr (lit "PMC1.txt")]>
                 (<["result" := VNone]> (globals unstaged_kernel)))
              (files unstaged_kernel) (λ i, rng unstaged_kernel (S i))
              (log unstaged_kernel ++ [Print (lit "PMC1.txt")])).
Proof.
  apply (missing_article_file unstaged_kernel three_names (lit "PMC1.txt") 2);
    reflexivity.
Defined.

(** ** Further facts about the pattern *)

Lemma flatten_fmap (content : str) :
  flatten content = flat_char <$> content.
Proof.
  unfold flatten, replace_char. rewrite <- list_fmap_compose.
  apply list_fmap_ext. intros _ c _. unfold flat_char. cbn.
  destruct (N.eqb_spec c LF) as [->|?]; [done|].
  destruct (N.eqb_spec c TAB); done.
Qed.

Lemma flat_char_blank (c : N) :
  flat_char c = SPACE ↔ c = SPACE ∨ c = LF ∨ c = TAB.
Proof.
  unfold flat_char.
  destruct (N.eqb_spec c LF) as [->|?]; [split; auto|].
  destruct (N.eqb_spec c TAB) as [->|?]; [split; auto|].
  split; [by auto|]. by intros [?|[?|?]].
Qed.

Lemma flat_char_letter (c d : N) :
  d ≠ SPACE → d ≠ LF → d ≠ TAB → flat_char c = d ↔ c = d.
Proof.
  intros Hd Hlf Htab. unfold flat_char.
  destruct (N.eqb_spec c LF) as [->|?]; [split; congruence|].
  destruct (N.eqb_spec c TAB) as [->|?]; [split; congruence|].
  done.
Qed.

(** X9. Flattening replaces each line feed and each tab by one space and
    changes nothing else: the text keeps its length and every character
    its position (runs of blanks are not merged), no line feed or tab is
    left, and flattening twice is flattening once. *)
Theorem flatten_keeps_positions (content : str) :
  length (flatten content) = length content
  ∧ (LF ∉ flatten content)
  ∧ (TAB ∉ flatten content)
  ∧ (∀ i c, content !! i = Some c →
       flatten content !! i
       = Some (if bool_decide (c = LF ∨ c = TAB) then SPACE else c))
  ∧ flatten (flatten content) = flatten content.
Proof.
  rewrite !flatten_fmap. split_and!.
  - apply length_fmap.
  - intros (c & Hc & _)%list_elem_of_fmap. unfold flat_char in Hc.
    destruct (N.eqb_spec c LF); [done|]. by destruct (N.eqb_spec c TAB).
  - intros (c & Hc & _)%list_elem_of_fmap. unfold flat_char in Hc.
    destruct (N.eqb_spec c LF); [done|]. by destruct (N.eqb_spec c TAB).
  - intros i c Hc. rewrite list_lookup_fmap, Hc. cbn. f_equal. unfold flat_char.
    destruct (N.eqb_spec c LF) as [->|?]; [by rewrite bool_decide_true by auto|].
    destruct (N.eqb_spec c TAB) as [->|?]; [by rewrite bool_decide_true by auto|].
    by rewrite bool_decide_false by (by intros [?|?]).
  - rewrite <- list_fmap_compose. apply list_fmap_ext. intros _ c _. cbn.
    unfold flat_char.
    destruct (c =? LF)%N eqn:Hlf; [reflexivity|].
    destruct (c =? TAB)%N eqn:Htab; [reflexivity|].
    by rewrite Hlf, Htab.
Qed.

Lemma fmap_flat_letters (w l : str) :
  Forall (λ d, d ≠ SPACE ∧ d ≠ LF ∧ d ≠ TAB) w →
  flat_char <$> l = w ↔ l = w.
Proof.
  intros Hw. revert l. induction Hw as [|d w (Hd & Hlf & Htab) Hw IH]; intros [|c l]; cbn;
    try (split; congruence).
  pose proof (IH l) as Hl. pose proof (flat_char_letter c d Hd Hlf Htab) as Hc.
  split.
  - intros [= Hcd Hlw]. f_equal; [by apply Hc|by apply Hl].
  - intros [= -> ->]. f_equal; [by apply Hc|by apply Hl].
Qed.

Lemma fmap_flat_word (w l : str) :
  Forall (λ d, d ≠ SPACE ∧ d ≠ LF ∧ d ≠ TAB) w →
  flat_char <$> l = w ++ [SPACE]
  ↔ ∃ c, l = w ++ [c] ∧ (c = SPACE ∨ c = LF ∨ c = TAB).
Proof.
  intros Hw. split.
  - intros (l1 & l2 & H1 & H2 & ->)%fmap_app_inv.
    symmetry in H1. apply (fmap_flat_letters w l1 Hw) in H1. subst l1.
    destruct l2 as [|c [|]]; try done. cbn in H2.
    exists c. split; [done|]. apply flat_char_blank. congruence.
  - intros (c & -> & Hc). rewrite fmap_app. cbn.
    rewrite (proj2 (fmap_flat_letters w w Hw) eq_refl).
    by rewrite (proj2 (flat_char_blank c) Hc).
Qed.

Lemma background_letters :
  Forall (λ d, d ≠ SPACE ∧ d ≠ LF ∧ d ≠ TAB) (lit "Background").
Proof. by repeat constructor. Qed.

(** X10. In terms of the text as read from the file: the pattern matches
    at position [i] exactly when the ten characters from [i] on are
    ["Background"] and the next character is a space, a line feed or a
    tab, so a heading that ends its line is found as well.  An article
    yields no input exactly when it has no such position. *)
Theorem heading_before_any_blank (content : str) :
  (∀ i, occurs_at i (flatten content)
        ↔ take 10 (drop i content) = lit "Background"
          ∧ ∃ c, content !! (i + 10)%nat = Some c ∧ (c = SPACE ∨ c = LF ∨ c = TAB))
  ∧ (background_of content = None ↔ ∀ i, ¬ occurs_at i (flatten content)).
Proof.
  split.
  - intros i. unfold occurs_at. rewrite flatten_fmap, <- fmap_drop, <- fmap_take.
    change (lit "Background ") with (lit "Background" ++ [SPACE]).
    rewrite (fmap_flat_word _ _ background_letters). split.
    + intros (c & Heq & Hc).
      assert (take 10 (take 11 (drop i content)) = lit "Background") as H10
        by (by rewrite Heq).
      rewrite take_take in H10. split; [exact H10|].
      exists c. split; [|done].
      assert (take 11 (drop i content) !! 10%nat = Some c) as H11 by (by rewrite Heq).
      rewrite lookup_take_lt in H11 by lia. by rewrite lookup_drop in H11.
    + intros (H10 & c & Hc & Hblank). exists c. split; [|done].
      rewrite <- H10.
      assert (drop i content !! 10%nat = Some c) as Hd
        by (by rewrite lookup_drop).
      by rewrite (take_S_r _ _ _ Hd).
  - unfold background_of.
    pose proof (re_search_spec (flatten content)) as Hspec.
    destruct (re_search (flatten content)) as [g|]; [|done].
    destruct Hspec as (i & Hi & _). split; [done|]. intros Hno. by destruct (Hno i).
Qed.

(** ** Further facts about cells 5 and 6 *)

(** X11. When the describe response comes without the job properties, the
    default of [.get] is an empty list and the print of line 185 raises a
    type error on its string subscript, after the one query and before any
    downstream stage.  When [job_id] is not bound (cell 4 has not run) the
    cell raises a name error and sends no query at all. *)
Theorem describe_without_properties (c : cloud) (k : kernel) :
  job_properties c = None →
  (globals k !! "job_id" = None →
     cell_describe_and_join c k = Raised (NameError "job_id") k)
  ∧ (∀ j, globals k !! "job_id" = Some (VStr j) →
       cell_describe_and_join c k
       = Raised (TypeError "list indices must be integers or slices, not str")
           (Kernel (<["describe_topics_detection_job_result" := VStrList []]> (globals k))
                   (files k) (rng k) (log k ++ [DescribeTopicsDetectionJob j]))).
Proof.
  intros Hp. split.
  - intros Hj. unfold cell_describe_and_join. apply bind_Raised.
    unfold get_global. by rewrite Hj.
  - intros j Hj. unfold cell_describe_and_join.
    rewrite (bind_Ok _ _ _ _ _ (get_global_Some _ _ _ Hj)).
    rewrite Hp. cbn [str_of job_of].
    erewrite bind_Ok; [|reflexivity]. unfold emit at 1.
    erewrite bind_Ok; [|reflexivity]. unfold set_global at 1.
    erewrite bind_Ok; [|reflexivity].
    by apply bind_Raised.
Qed.

Lemma describe_without_properties_witness :
  (globals submitted_kernel !! "job_id" = None →
     cell_describe_and_join bare_cloud submitted_kernel
     = Raised (NameError "job_id") submitted_kernel)
  ∧ (∀ j, globals submitted_kernel !! "job_id" = Some (VStr j) →
       cell_describe_and_join bare_cloud submitted_kernel
       = Raised (TypeError "list indices must be integers or slices, not str")
           (Kernel (<["describe_topics_detection_job_result" := VStrList []]>
                      (globals submitted_kernel))
                   (files submitted_kernel) (rng submitted_kernel)
                   (log submitted_kernel ++ [DescribeTopicsDetectionJob j]))).
Proof.
  apply (describe_without_properties bare_cloud submitted_kernel). reflexivity.
Defined.

(** ** Cells 4 and 5 in sequence *)

(** X15. Given the answer of the service to the submission, cell 4 starts
    one job with 25 topics, binds [job_id] to the identifier of the answer,
    whatever the name was bound to before, and prints the line of
    submission.  Cell 5 run next starts with the status query of that very
    job, and sends no other status query, whatever the service answers. *)
Theorem described_job_is_submitted_job (c : cloud) (k : kernel) :
  ∃ k1 rest,
    cell_submit_job c k = Ok tt k1
    ∧ globals k1 !! "job_id" = Some (VStr (started_job c))
    ∧ new_events k (cell_submit_job c k)
      = [StartTopicsDetectionJob 25;
         Print (lit "Job " ++ started_job c ++ lit " submitted")]
    ∧ new_events k1 (cell_describe_and_join c k1)
      = DescribeTopicsDetectionJob (started_job c) :: rest
    ∧ ∀ e, e ∈ rest → is_status_query e = false.
Proof.
  set (k1 := Kernel (<["job_id" := VStr (started_job c)]> (globals k)) (files k) (rng k)
               (log k ++ [StartTopicsDetectionJob 25;
                          Print (lit "Job " ++ started_job c ++ lit " submitted")])).
  assert (cell_submit_job c k = Ok tt k1) as Hrun.
  { unfold cell_submit_job, mbind, M_bind, emit, set_global, with_log, with_globals.
    cbn [globals files rng log]. by rewrite <- app_assoc. }
  assert (globals k1 !! "job_id" = Some (VStr (started_job c))) as Hj
    by apply lookup_insert_eq.
  assert (∃ rest,
    new_events k1 (cell_describe_and_join c k1)
      = DescribeTopicsDetectionJob (started_job c) :: rest
    ∧ ∀ e, e ∈ rest → is_status_query e = false) as (rest & Hlog & Hrest).
  { destruct (job_properties c) as [p|] eqn:Hp.
    - rewrite (cell_describe_and_join_check c k1 _ p Hj Hp).
      destruct (bool_decide (JobStatus p = lit "COMPLETED")).
      + destruct (downstream_stages_log c p (after_check k1 (started_job c) p))
          as (rest & Hlog & Hrest).
        eexists. unfold new_events. rewrite Hlog. cbn [after_check log].
        rewrite <- !app_assoc, drop_app_length. split; [reflexivity|].
        intros e He. cbn in He.
        rewrite !elem_of_cons in He.
        destruct He as [->| [->| [->| He]]]; [done..|].
        destruct Hrest as [->|[res ->]]; [by apply elem_of_nil in He|].
        apply list_elem_of_singleton in He. by subst.
      + eexists. unfold new_events. cbn [mret M_ret kernel_of after_check log].
        rewrite drop_app_length. split; [reflexivity|].
        intros e He. apply list_elem_of_singleton in He. by subst.
    - exists []. split; [|by intros e He; apply elem_of_nil in He].
      unfold cell_describe_and_join.
      rewrite (bind_Ok _ _ _ _ _ (get_global_Some _ _ _ Hj)).
      rewrite Hp. cbn [str_of job_of].
      erewrite bind_Ok; [|reflexivity]. unfold emit at 1.
      erewrite bind_Ok; [|reflexivity]. unfold set_global at 1.
      erewrite bind_Ok; [|reflexivity].
      erewrite bind_Raised; [|reflexivity].
      unfold new_events, with_globals, with_log. cbn [kernel_of log].
      by rewrite drop_app_length. }
  exists k1, rest. split_and!; try done.
  rewrite Hrun. unfold new_events. cbn [kernel_of k1 log]. by rewrite drop_app_length.
Qed.

Lemma download_data_found (c : cloud) (path bucket key : str) (f : file) (k : kernel) :
  s3_object c bucket key = Some f →
  download_data c path bucket key k
  = Ok tt (Kernel (globals k) (<[path_join path (basename key) := f]> (files k)) (rng k)
             (log k ++ [DownloadData path bucket key])).
Proof.
  intros Hobj. unfold download_data, mbind, M_bind, emit, write_file. by rewrite Hobj.
Qed.

Lemma untar_output_two (txt t1 t2 : str) (ts : list TermRow) (ds : list DocRow)
    (k : kernel) :
  files k !! lit "data/output.tar.gz"
  = Some (TarGz txt [Member (lit "topic-terms.csv") (TopicTermsCsv t1 ts);
                     Member (lit "doc-topics.csv") (DocTopicsCsv t2 ds)]) →
  untar_output k
  = Ok tt (Kernel (globals k)
             (<[lit "data/topic-terms.csv" := TopicTermsCsv t1 ts]>
                (<[lit "data/doc-topics.csv" := DocTopicsCsv t2 ds]> (files k)))
             (rng k)
             (log k ++ [System (lit "tar xvfz data/output.tar.gz -C data/")])).
Proof.
  intros Har. unfold untar_output, extract, mbind, M_bind, emit.
  cbn [with_log files globals rng log]. by rewrite Har.
Qed.

Lemma join_stage_two (t1 t2 : str) (ts : list TermRow) (ds : list DocRow)
    (fs : gmap str file) (k : kernel) :
  files k = <[lit "data/topic-terms.csv" := TopicTermsCsv t1 ts]>
              (<[lit "data/doc-topics.csv" := DocTopicsCsv t2 ds]> fs) →
  join_stage k
  = match topics ts with
    | inl e => Raised e k
    | inr series =>
        let bound := <["docs" := VDocs (docs ds)]>
                       (<["topics" := VSeries series]> (globals k)) in
        match merge_left (docs ds) (index_dtype ts) series with
        | inl e => Raised e (Kernel bound (files k) (rng k) (log k))
        | inr res =>
            Ok res (Kernel (<["results" := VFrame res]> bound) (files k) (rng k) (log k))
        end
    end.
Proof.
  intros Hfiles.
  unfold join_stage, read_topic_terms, read_doc_topics, lift, mbind, M_bind, set_global,
    mret, M_ret.
  cbn [with_globals files globals rng log].
  assert (files k !! lit "data/topic-terms.csv" = Some (TopicTermsCsv t1 ts)) as ->
    by (rewrite Hfiles; apply lookup_insert_eq).
  destruct (topics ts) as [e|series]; [done|].
  cbn [with_globals files globals rng log].
  assert (files k !! lit "data/doc-topics.csv" = Some (DocTopicsCsv t2 ds)) as ->.
  { rewrite Hfiles, lookup_insert_ne by (by vm_compute). apply lookup_insert_eq. }
  cbn zeta. by destruct (merge_left (docs ds) (index_dtype ts) series).
Qed.

(** Cell 5 on a completed job whose output is an archive of the two
    tables, up to the joiner. *)
Lemma cell_describe_and_join_fetch (c : cloud) (k : kernel) (j : str) (p : JobProperties)
    (txt t1 t2 : str) (ts : list TermRow) (ds : list DocRow) :
  globals k !! "job_id" = Some (VStr j) →
  job_properties c = Some p →
  JobStatus p = lit "COMPLETED" →
  basename (OutputDataConfig p).2 = lit "output.tar.gz" →
  s3_object c (OutputDataConfig p).1 (OutputDataConfig p).2
  = Some (TarGz txt [Member (lit "topic-terms.csv") (TopicTermsCsv t1 ts);
                     Member (lit "doc-topics.csv") (DocTopicsCsv t2 ds)]) →
  cell_describe_and_join c k
  = (res ← join_stage; emit (Display res))
      (Kernel (<["output_url" := VTuple (OutputDataConfig p).1 (OutputDataConfig p).2]>
                 (<["describe_topics_detection_job_result" := VJob p]> (globals k)))
              (<[lit "data/topic-terms.csv" := TopicTermsCsv t1 ts]>
                 (<[lit "data/doc-topics.csv" := DocTopicsCsv t2 ds]>
                    (<[lit "data/output.tar.gz" :=
                         TarGz txt
                           [Member (lit "topic-terms.csv") (TopicTermsCsv t1 ts);
                            Member (lit "doc-topics.csv") (DocTopicsCsv t2 ds)]]>
                       (files k))))
              (rng k)
              (log k ++ [DescribeTopicsDetectionJob j;
                         Print (lit "Job " ++ j ++ lit " status is " ++ JobStatus p);
                         DownloadData (lit "data") (OutputDataConfig p).1
                           (OutputDataConfig p).2;
                         System (lit "tar xvfz data/output.tar.gz -C data/")])).
Proof.
  intros Hj Hp Hdone Hbase Hobj.
  rewrite (cell_describe_and_join_check c k j p Hj Hp).
  rewrite bool_decide_true by done.
  unfold downstream_stages. unfold set_global at 1.
  erewrite bind_Ok; [|reflexivity].
  rewrite (bind_Ok _ _ _ _ _ (download_data_found _ _ _ _ _ _ Hobj)).
  rewrite Hbase.
  change (path_join (lit "data") (lit "output.tar.gz")) with (lit "data/output.tar.gz").
  erewrite bind_Ok; [|apply (untar_output_two txt t1 t2 ts ds); cbn; apply lookup_insert_eq].
  unfold after_check, with_globals. cbn [globals files rng log].
  by rewrite <- !app_assoc.
Qed.

(** X12. When the job is completed, its output object is an archive named
    [output.tar.gz] with the two tables as members, and the tables, as the
    reader leaves them, are such that the joiner ends (every term of a row
    with a topic is a string, the topic columns are of one kind), cell 5
    ends without error,
    binds [topics], [docs] and [results] to what the joiner makes of the
    two tables, and its log is the query, the status line, the download,
    the unpacking and the display of the joined table. *)
Theorem completed_job_is_joined (c : cloud) (k : kernel) (j : str) (p : JobProperties)
    (txt t1 t2 : str) (ts : list TermRow) (ds : list DocRow) :
  globals k !! "job_id" = Some (VStr j) →
  job_properties c = Some p →
  JobStatus p = lit "COMPLETED" →
  basename (OutputDataConfig p).2 = lit "output.tar.gz" →
  s3_object c (OutputDataConfig p).1 (OutputDataConfig p).2
  = Some (TarGz txt [Member (lit "topic-terms.csv") (TopicTermsCsv t1 ts);
                     Member (lit "doc-topics.csv") (DocTopicsCsv t2 ds)]) →
  tables_as_read ts ds →
  terms_are_text ts →
  joinable ts ds →
  ∃ series res k',
    topics ts = inr series
    ∧ results ts ds = inr res
    ∧ cell_describe_and_join c k = Ok tt k'
    ∧ globals k' !! "topics" = Some (VSeries series)
    ∧ globals k' !! "docs" = Some (VDocs (docs ds))
    ∧ globals k' !! "results" = Some (VFrame res)
    ∧ new_events k (cell_describe_and_join c k)
      = [DescribeTopicsDetectionJob j;
         Print (lit "Job " ++ j ++ lit " status is " ++ JobStatus p);
         DownloadData (lit "data") (OutputDataConfig p).1 (OutputDataConfig p).2;
         System (lit "tar xvfz data/output.tar.gz -C data/");
         Display res].
Proof.
  intros Hj Hp Hdone Hbase Hobj _ Htext Hjoin.
  destruct (results_text ts ds Htext Hjoin) as (series & Htopics & Hres).
  exists series, (join_rows (docs ds) series).
  rewrite (cell_describe_and_join_fetch c k j p txt t1 t2 ts ds Hj Hp Hdone Hbase Hobj).
  assert (merge_left (docs ds) (index_dtype ts) series = inr (join_rows (docs ds) series)) as Hmerge.
  { unfold results in Hres. by rewrite Htopics in Hres. }
  unfold mbind, M_bind. erewrite join_stage_two; [|reflexivity].
  rewrite Htopics. cbn zeta. rewrite Hmerge.
  eexists. split_and!; [done|done|reflexivity|..]; cbn [globals with_log].
  - rewrite !lookup_insert_ne by done. apply lookup_insert_eq.
  - rewrite lookup_insert_ne by done. apply lookup_insert_eq.
  - apply lookup_insert_eq.
  - unfold new_events, emit, with_log. cbn [kernel_of log].
    by rewrite <- !app_assoc, drop_app_length.
Qed.

Lemma completed_job_is_joined_witness :
  ∃ series res k',
    topics scenario_terms = inr series
    ∧ results scenario_terms scenario_docs = inr res
    ∧ cell_describe_and_join completed_cloud submitted_kernel = Ok tt k'
    ∧ globals k' !! "topics" = Some (VSeries series)
    ∧ globals k' !! "docs" = Some (VDocs (docs scenario_docs))
    ∧ globals k' !! "results" = Some (VFrame res)
    ∧ new_events submitted_kernel (cell_describe_and_join completed_cloud submitted_kernel)
      = [DescribeTopicsDetectionJob (lit "job-1");
         Print (lit "Job " ++ lit "job-1" ++ lit " status is " ++ JobStatus completed_job);
         DownloadData (lit "data") (OutputDataConfig completed_job).1
           (OutputDataConfig completed_job).2;
         System (lit "tar xvfz data/output.tar.gz -C data/");
         Display res].
Proof.
  apply (completed_job_is_joined completed_cloud submitted_kernel (lit "job-1")
           completed_job (lit "output.tar.gz") (lit "topic,weight,term")
           (lit "docname,topic,proportion")); try reflexivity.
  - repeat split; try reflexivity; by left.
  - intros t Ht _. unfold scenario_terms in Ht.
    apply elem_of_cons in Ht as [->|Ht]; [by eexists|].
    apply list_elem_of_singleton in Ht as ->. by eexists.
  - right. right. split; (intros [?|[s Hs]]; [done|]); exfalso; revert Hs;
      vm_compute; intros Hs; repeat (apply elem_of_cons in Hs as [Hs|Hs]; [done|]);
      by apply elem_of_nil in Hs.
Defined.

(** X16. When the job is completed and its archive holds two tables, as
    the reader leaves them, on which the joiner raises (a term that is no
    string, topic columns of two kinds), cell 5 raises that exception
    after the download and the
    unpacking: nothing is displayed, and [results] keeps the value it had,
    so that cell 6 would show a row of an earlier run. *)
Theorem completed_job_is_not_joined (c : cloud) (k : kernel) (j : str)
    (p : JobProperties) (txt t1 t2 : str) (ts : list TermRow) (ds : list DocRow)
    (e : exn) :
  globals k !! "job_id" = Some (VStr j) →
  job_properties c = Some p →
  JobStatus p = lit "COMPLETED" →
  basename (OutputDataConfig p).2 = lit "output.tar.gz" →
  s3_object c (OutputDataConfig p).1 (OutputDataConfig p).2
  = Some (TarGz txt [Member (lit "topic-terms.csv") (TopicTermsCsv t1 ts);
                     Member (lit "doc-topics.csv") (DocTopicsCsv t2 ds)]) →
  tables_as_read ts ds →
  results ts ds = inl e →
  ∃ k',
    cell_describe_and_join c k = Raised e k'
    ∧ globals k' !! "results" = globals k !! "results"
    ∧ new_events k (cell_describe_and_join c k)
      = [DescribeTopicsDetectionJob j;
         Print (lit "Job " ++ j ++ lit " status is " ++ JobStatus p);
         DownloadData (lit "data") (OutputDataConfig p).1 (OutputDataConfig p).2;
         System (lit "tar xvfz data/output.tar.gz -C data/")].
Proof.
  intros Hj Hp Hdone Hbase Hobj _ Hres.
  rewrite (cell_describe_and_join_fetch c k j p txt t1 t2 ts ds Hj Hp Hdone Hbase Hobj).
  unfold mbind, M_bind. erewrite join_stage_two; [|reflexivity].
  unfold results in Hres.
  destruct (topics ts) as [e'|series]; [injection Hres as ->|cbn zeta; rewrite Hres];
    eexists; (split; [reflexivity|]);
    cbn [globals]; (split; [by rewrite !lookup_insert_ne|]);
    unfold new_events; cbn [kernel_of log]; by rewrite drop_app_length.
Qed.

Lemma completed_job_is_not_joined_witness :
  ∃ k',
    cell_describe_and_join broken_cloud submitted_kernel
    = Raised (TypeError "sequence item 1: expected str instance, float found") k'
    ∧ globals k' !! "results" = globals submitted_kernel !! "results"
    ∧ new_events submitted_kernel (cell_describe_and_join broken_cloud submitted_kernel)
      = [DescribeTopicsDetectionJob (lit "job-1");
         Print (lit "Job " ++ lit "job-1" ++ lit " status is " ++ JobStatus completed_job);
         DownloadData (lit "data") (OutputDataConfig completed_job).1
           (OutputDataConfig completed_job).2;
         System (lit "tar xvfz data/output.tar.gz -C data/")].
Proof.
  apply (completed_job_is_not_joined broken_cloud submitted_kernel (lit "job-1")
           completed_job (lit "output.tar.gz") (lit "topic,weight,term")
           (lit "docname,topic,proportion") missing_term_table scenario_docs);
    try reflexivity.
  repeat split; try reflexivity; by left.
Defined.

(** X13. On a completed job, cell 6 fails when there is nothing to draw a
    row from: with [results] not bound (the join of cell 5 did not get
    that far) it raises a name error, with an empty joined table the draw
    raises a value error.  In both cases [input_url] of lines 228-230 is
    bound by then and nothing else has changed: nothing is printed and
    [sample] keeps its binding. *)
Theorem examples_fail_without_rebinding (c : cloud) (k : kernel) (p : JobProperties) :
  globals k !! "describe_topics_detection_job_result" = Some (VJob p) →
  JobStatus p = lit "COMPLETED" →
  (globals k !! "results" = None →
     cell_examples c k
     = Raised (NameError "results")
         (with_globals
            (insert "input_url" (VTuple (InputDataConfig p).1 (InputDataConfig p).2)) k))
  ∧ (globals k !! "results" = Some (VFrame []) →
       ∃ msg,
         cell_examples c k
         = Raised (ValueError msg)
             (with_globals
                (insert "input_url" (VTuple (InputDataConfig p).1 (InputDataConfig p).2))
                k)).
Proof.
  intros Hd Hp.
  split; [intros Hnone|intros Hempty; eexists]; unfold cell_examples;
    rewrite (bind_Ok _ _ _ _ _ (get_global_Some _ _ _ Hd)); cbn [job_of];
    (erewrite bind_Ok; [|reflexivity]); rewrite bool_decide_true by done;
    unfold set_global at 1; (erewrite bind_Ok; [|reflexivity]).
  - apply bind_Raised. unfold get_global. cbn.
    by rewrite lookup_insert_ne, Hnone.
  - erewrite bind_Ok;
      [|apply get_global_Some; cbn; rewrite lookup_insert_ne by done; exact Hempty].
    cbn [frame_of]. erewrite bind_Ok; [|reflexivity]. by apply bind_Raised.
Qed.

Lemma examples_fail_without_rebinding_witness :
  cell_examples completed_cloud (after_check submitted_kernel (lit "job-1") completed_job)
  = Raised (NameError "results")
      (with_globals
         (insert "input_url"
            (VTuple (InputDataConfig completed_job).1 (InputDataConfig completed_job).2))
         (after_check submitted_kernel (lit "job-1") completed_job)).
Proof.
  apply (examples_fail_without_rebinding completed_cloud
           (after_check submitted_kernel (lit "job-1") completed_job) completed_job);
    vm_compute; reflexivity.
Defined.

(** X14. On a completed job with a joined table that is not empty, cell 6
    draws one row of [results], binds [docname], [idx], [score] and [terms]
    to its four columns and prints the name and the terms (a missing term
    prints as [nan]).  When the name of the document is a string, the cell
    then downloads the document from the input location of the job joined
    with the name, and shows the head of the copy.  When the name is a
    number or is missing, [os.path.join] raises a type error: nothing is
    downloaded or shown. *)
Theorem example_row_is_shown
    (c : cloud) (k : kernel) (p : JobProperties) (rows : list ResultRow) :
  globals k !! "describe_topics_detection_job_result" = Some (VJob p) →
  JobStatus p = lit "COMPLETED" →
  globals k !! "results" = Some (VFrame rows) →
  rows ≠ [] →
  ∃ r k',
    rows !! (rng k 0 `mod` length rows)%nat = Some r
    ∧ kernel_of (cell_examples c k) = k'
    ∧ globals k' !! "docname" = Some (value_of (res_docname r))
    ∧ globals k' !! "idx" = Some (value_of (res_topic r))
    ∧ globals k' !! "score" = Some (value_of (res_proportion r))
    ∧ globals k' !! "terms" = Some (VCell (res_term r))
    ∧ (∀ name, res_docname r = Str name →
         cell_examples c k = Ok tt k'
         ∧ new_events k (cell_examples c k)
           = [Print (lit "Document name is " ++ name);
              Print (lit "Identified terms are " ++ cell_text (res_term r));
              DownloadData (lit "data") (InputDataConfig p).1
                (path_join (InputDataConfig p).2 name);
              System (lit "head -n 25 data/" ++ name)])
    ∧ (is_text (res_docname r) = false →
         (∃ msg, cell_examples c k = Raised (TypeError msg) k')
         ∧ new_events k (cell_examples c k)
           = [Print (lit "Document name is " ++ scalar_text c (res_docname r));
              Print (lit "Identified terms are " ++ cell_text (res_term r))]).
Proof.
  intros Hd Hp Hres Hne.
  destruct (cell_examples_draw c k p rows Hd Hp Hres Hne) as (r & Hr & ->).
  rewrite examples_tail_run. cbn zeta. exists r.
  destruct (res_docname r) as [z|q| |name] eqn:Hname; eexists;
    (split; [done|]); (split; [reflexivity|]); cbn [kernel_of globals];
    (split; [by rewrite !lookup_insert_ne by done; apply lookup_insert_eq|]);
    (split; [by rewrite !lookup_insert_ne by done; apply lookup_insert_eq|]);
    (split; [by rewrite !lookup_insert_ne by done; apply lookup_insert_eq|]);
    (split; [by apply lookup_insert_eq|]);
    (split; [intros name' [= <-]|intros [=]]);
    unfold new_events; cbn [kernel_of log];
    rewrite ?drop_app_length; (split; [by eauto|done]).
Qed.

Lemma example_row_is_shown_witness :
  ∃ r k',
    [scenario_row] !! (rng session_kernel 0 `mod` 1)%nat = Some r
    ∧ kernel_of (cell_examples completed_cloud session_kernel) = k'
    ∧ globals k' !! "docname" = Some (value_of (res_docname r))
    ∧ globals k' !! "idx" = Some (value_of (res_topic r))
    ∧ globals k' !! "score" = Some (value_of (res_proportion r))
    ∧ globals k' !! "terms" = Some (VCell (res_term r))
    ∧ (∀ name, res_docname r = Str name →
         cell_examples completed_cloud session_kernel = Ok tt k'
         ∧ new_events session_kernel (cell_examples completed_cloud session_kernel)
           = [Print (lit "Document name is " ++ name);
              Print (lit "Identified terms are " ++ cell_text (res_term r));
              DownloadData (lit "data") (InputDataConfig completed_job).1
                (path_join (InputDataConfig completed_job).2 name);
              System (lit "head -n 25 data/" ++ name)])
    ∧ (is_text (res_docname r) = false →
         (∃ msg, cell_examples completed_cloud session_kernel = Raised (TypeError msg) k')
         ∧ new_events session_kernel (cell_examples completed_cloud session_kernel)
           = [Print (lit "Document name is "
                     ++ scalar_text completed_cloud (res_docname r));
              Print (lit "Identified terms are " ++ cell_text (res_term r))]).
Proof.
  apply (example_row_is_shown completed_cloud session_kernel completed_job [scenario_row]);
    [vm_compute; reflexivity|vm_compute; reflexivity|vm_compute; reflexivity|done].
Defined.

(** A document that has a number for its name is announced by the number
    and then fails the download. *)
Example numbered_document_is_not_shown :
  answer (cell_examples completed_cloud numbered_kernel)
  = Some (inl (TypeError "join() argument must be str, bytes, or os.PathLike object"))
  ∧ new_events numbered_kernel (cell_examples completed_cloud numbered_kernel)
    = [Print (lit "Document name is 9");
       Print (lit "Identified terms are gene, cell")].
Proof. vm_compute. done. Qed.

(** ** Further facts about the joiner *)

Lemma results_inr (topic_terms : list TermRow) (doc_topics : list DocRow)
    (res : list ResultRow) :
  results topic_terms doc_topics = inr res →
  ∃ series,
    topics topic_terms = inr series
    ∧ mergeable (doc_topic <$> docs doc_topics) (index_dtype topic_terms) series.*1 = true
    ∧ res = join_rows (docs doc_topics) series.
Proof.
  unfold results, merge_left. destruct (topics topic_terms) as [e|series].
  - intros [=].
  - destruct (mergeable _ _ _) eqn:Hm.
    + intros [= <-]. by exists series.
    + intros [=].
Qed.

Lemma join_items_raises (i : nat) (l : list scalar) (e : exn) :
  join_items i l = inl e → ∃ msg, e = TypeError msg.
Proof.
  revert i. induction l as [|a l IH]; intros i; simpl; [done|].
  destruct a as [x|p| |s]; try (intros [= <-]; by eexists).
  destruct (join_items (S i) l) as [e'|ss] eqn:Hl; [|done].
  intros [= <-]. by eapply IH.
Qed.

Lemma topics_raises (topic_terms : list TermRow) (e : exn) :
  topics topic_terms = inl e → ∃ msg, e = TypeError msg.
Proof.
  unfold topics, groupby_agg.
  generalize (group_keys (sort_values term_le topic_terms)).
  intros keys. induction keys as [|k keys IH]; simpl; [done|].
  destruct (join_items 0 _) as [e'|ss] eqn:Hss.
  - intros [= <-]. by eapply join_items_raises.
  - destruct (agg _ keys) as [e'|series]; [|done].
    intros [= <-]. by apply IH.
Qed.

Lemma topics_inr_text (topic_terms : list TermRow) (series : list (scalar * str)) :
  topics topic_terms = inr series → terms_are_text topic_terms.
Proof.
  intros Htopics t Ht Hk.
  destruct (term t) as [z|q| |s] eqn:Hterm; [| | |by exists s];
    (destruct (topics_not_text topic_terms t Ht Hk) as [msg Hmsg];
     [by rewrite Hterm|congruence]).
Qed.

(** X17. The three ways in which the joiner ends on two tables as the
    reader leaves them.  It ends with a table exactly when every term of
    a row with a topic is a string and the topic columns of the two tables
    are of one kind.  It raises a type error exactly when some row with a
    topic has a term that is no string (a missing value, a number), and
    the aggregation raises it, whatever the document table holds.  It
    raises a value error exactly when the terms are strings and the topic
    columns are of two kinds, one of text and one of numbers. *)
Theorem joiner_ends_iff (topic_terms : list TermRow) (doc_topics : list DocRow) :
  tables_as_read topic_terms doc_topics →
  ((∃ res, results topic_terms doc_topics = inr res)
   ↔ terms_are_text topic_terms ∧ joinable topic_terms doc_topics)
  ∧ ((∃ msg, results topic_terms doc_topics = inl (TypeError msg))
     ↔ ¬ terms_are_text topic_terms)
  ∧ (∀ t, t ∈ topic_terms → topic t ≠ NaN → is_text (term t) = false →
       ∃ msg, topics topic_terms = inl (TypeError msg)
              ∧ results topic_terms doc_topics = inl (TypeError msg))
  ∧ ((∃ msg, results topic_terms doc_topics = inl (ValueError msg))
     ↔ terms_are_text topic_terms ∧ ¬ joinable topic_terms doc_topics).
Proof.
  intros _. split_and!.
  - split.
    + intros [res (series & Htopics & Hmerge & _)%results_inr]. split.
      * by eapply topics_inr_text.
      * by apply (joinable_mergeable _ _ _ Htopics).
    + intros [Htext Hjoin].
      destruct (results_text _ _ Htext Hjoin) as (series & _ & Hres). by eexists.
  - unfold results. split.
    + intros [msg Hres] Htext. destruct (topics_text _ Htext) as [series Htopics].
      rewrite Htopics in Hres. unfold merge_left in Hres.
      by destruct (mergeable _ _ _).
    + intros Hno. destruct (topics topic_terms) as [e|series] eqn:Htopics.
      * destruct (topics_raises _ _ Htopics) as [msg ->]. by exists msg.
      * destruct Hno. by eapply topics_inr_text.
  - intros t Ht Hk Hterm.
    destruct (topics_not_text topic_terms t Ht Hk Hterm) as [msg Hmsg].
    exists msg. split; [done|]. unfold results. by rewrite Hmsg.
  - unfold results. split.
    + intros [msg Hres]. destruct (topics topic_terms) as [e|series] eqn:Htopics.
      * destruct (topics_raises _ _ Htopics) as [msg' ->]. done.
      * split; [by eapply topics_inr_text|]. intros Hjoin.
        apply (joinable_mergeable _ _ _ Htopics) in Hjoin.
        unfold merge_left in Hres. by rewrite Hjoin in Hres.
    + intros [Htext Hno]. destruct (topics_text _ Htext) as [series Htopics].
      rewrite Htopics. unfold merge_left.
      destruct (mergeable _ _ _) eqn:Hmerge; [|by eexists].
      destruct Hno. by apply (joinable_mergeable _ _ _ Htopics).
Qed.

Lemma joiner_ends_iff_witness :
  ((∃ res, results text_topic_table scenario_docs = inr res)
   ↔ terms_are_text text_topic_table ∧ joinable text_topic_table scenario_docs)
  ∧ ((∃ msg, results text_topic_table scenario_docs = inl (TypeError msg))
     ↔ ¬ terms_are_text text_topic_table)
  ∧ (∀ t, t ∈ text_topic_table → topic t ≠ NaN → is_text (term t) = false →
       ∃ msg, topics text_topic_table = inl (TypeError msg)
              ∧ results text_topic_table scenario_docs = inl (TypeError msg))
  ∧ ((∃ msg, results text_topic_table scenario_docs = inl (ValueError msg))
     ↔ terms_are_text text_topic_table ∧ ¬ joinable text_topic_table scenario_docs).
Proof.
  apply (joiner_ends_iff text_topic_table scenario_docs).
  repeat split; try reflexivity; by left.
Defined.

(** X1. The document table, made from the table as the reader leaves it,
    is sorted by document name, ascending, and inside one document by
    proportion, descending, missing values last in both: numbers by value
    when the names were read as numbers, text by code points otherwise.
    The sort only rearranges the rows, and a joined table lists its rows
    in that order. *)
Theorem docs_by_name_then_proportion (doc_topics : list DocRow) :
  docs_as_read doc_topics →
  docs doc_topics ≡ₚ doc_topics
  ∧ StronglySorted
      (λ a b, precedes (docname a) (docname b)
              ∧ (precedes (docname b) (docname a)
                 → follows (proportion a) (proportion b)))
      (docs doc_topics)
  ∧ (∀ topic_terms res,
       results topic_terms doc_topics = inr res → doc_of <$> res = docs doc_topics).
Proof.
  intros _. split_and!.
  - apply sort_values_Permutation.
  - eapply StronglySorted_weaken;
      [|apply (sort_values_sorted doc_le doc_le_total doc_le_trans)].
    intros a b Hab. by apply by_two_spec in Hab.
  - intros topic_terms res (series & Htopics & _ & ->)%results_inr.
    apply join_rows_doc_of. by eapply topics_keys_sorted.
Qed.

Lemma docs_by_name_then_proportion_witness :
  docs numbered_documents ≡ₚ numbered_documents
  ∧ StronglySorted
      (λ a b, precedes (docname a) (docname b)
              ∧ (precedes (docname b) (docname a)
                 → follows (proportion a) (proportion b)))
      (docs numbered_documents)
  ∧ (∀ topic_terms res,
       results topic_terms numbered_documents = inr res
       → doc_of <$> res = docs numbered_documents).
Proof.
  apply (docs_by_name_then_proportion numbered_documents).
  repeat split; reflexivity.
Defined.

(** Names that were read as numbers are sorted as numbers. *)
Example numbered_documents_sorted :
  docs numbered_documents
  = [mkDoc (Int 9) (Int 3) (Float float_0_9);
     mkDoc (Int 9) (Int 2) (Float float_0_5);
     mkDoc (Int 10) (Int 1) (Float float_0_8)].
Proof. reflexivity. Qed.

Lemma series_key_unique (topic_terms : list TermRow) (series : list (scalar * str))
    (k1 k2 : scalar) (s1 s2 : str) :
  topics topic_terms = inr series →
  (k1, s1) ∈ series → (k2, s2) ∈ series → same_key k1 k2 = true →
  k1 = k2 ∧ s1 = s2.
Proof.
  intros Htopics [i Hi]%list_elem_of_lookup_1 [j Hj]%list_elem_of_lookup_1 Hsame.
  assert (i = j) as ->.
  { eapply (sorted_keys_distinct series.*1); [by eapply topics_keys_sorted|..|done].
    - by rewrite list_lookup_fmap, Hi.
    - by rewrite list_lookup_fmap, Hj. }
  split; congruence.
Qed.

(** X3. Every row of a table that the joiner has made of two tables as the
    reader leaves them comes from a row of the document table, and its
    term column holds exactly the string that [topics] has for the row's
    topic: it is missing when [topics] has no row of that topic. *)
Theorem results_carry_the_topic_string
    (topic_terms : list TermRow) (doc_topics : list DocRow) (res : list ResultRow)
    (r : ResultRow) :
  tables_as_read topic_terms doc_topics →
  results topic_terms doc_topics = inr res →
  r ∈ res →
  ∃ series,
    topics topic_terms = inr series
    ∧ doc_of r ∈ doc_topics
    ∧ (∀ s, res_term r = Some s ↔ ∃ k, (k, s) ∈ series ∧ key_eq k (res_topic r)).
Proof.
  intros _ (series & Htopics & _ & ->)%results_inr Hr.
  pose proof (topics_keys_sorted _ _ Htopics) as Hs.
  exists series. split; [done|].
  destruct (join_rows_elem _ _ _ Hs Hr)
    as (d & Hd & [[-> Hnone]|([k v] & -> & Hin & Hsame)]).
  - split.
    + destruct d. simpl. unfold docs in Hd.
      by rewrite (sort_values_Permutation doc_le doc_topics) in Hd.
    + intros s. split; [done|]. intros (k & Hin & Hkey%same_key_key_eq).
      pose proof (Hnone _ Hin) as Hn. simpl in Hkey, Hn. congruence.
  - split.
    + destruct d. simpl. unfold docs in Hd.
      by rewrite (sort_values_Permutation doc_le doc_topics) in Hd.
    + intros s. simpl in *. split.
      * intros [= <-]. exists k. split; [done|]. by apply same_key_key_eq.
      * intros (k' & Hin' & Hkey%same_key_key_eq). f_equal.
        rewrite same_key_sym in Hkey.
        by destruct (series_key_unique _ _ _ _ _ _ Htopics Hin Hin'
                       (same_key_trans _ _ _ Hsame Hkey)).
Qed.

Lemma results_carry_the_topic_string_witness :
  ∃ series,
    topics scenario_terms = inr series
    ∧ doc_of scenario_row ∈ scenario_docs
    ∧ (∀ s, res_term scenario_row = Some s
            ↔ ∃ k, (k, s) ∈ series ∧ key_eq k (res_topic scenario_row)).
Proof.
  apply (results_carry_the_topic_string scenario_terms scenario_docs [scenario_row]).
  - repeat split; try reflexivity; by left.
  - reflexivity.
  - apply list_elem_of_here.
Defined.

(** *** The sort is stable *)

Lemma Forall2_elem_of_l {A B} (P : A → B → Prop) (l : list A) (k : list B) (x : A) :
  Forall2 P l k → x ∈ l → ∃ y, y ∈ k ∧ P x y.
Proof.
  induction 1 as [|a b l k Hab _ IH]; [by intros ?%elem_of_nil|].
  intros [->|Hx]%elem_of_cons.
  - exists b. split; [apply list_elem_of_here|done].
  - destruct (IH Hx) as (y & Hy & Hxy). exists y. split; [by apply list_elem_of_further|done].
Qed.

Lemma StronglySorted_filter_both {A} (R : A → A → Prop) (P : A → Prop)
    `{∀ x, Decision (P x)} (l : list A) :
  StronglySorted R l → StronglySorted (λ a b, R a b ∧ P a ∧ P b) (filter P l).
Proof.
  induction 1 as [|x l Hl IH Hx]; [constructor|].
  rewrite filter_cons. destruct (decide (P x)) as [Hp|]; [|done].
  constructor; [done|].
  apply Forall_forall. intros y [Hy Hin]%list_elem_of_filter.
  eapply Forall_forall in Hx; done.
Qed.

Section stable_sort.
Context {A : Type} (le : A → A → bool).
Hypothesis le_total : ∀ x y, le x y = true ∨ le y x = true.
Hypothesis le_trans : ∀ x y z, le x y = true → le y z = true → le x z = true.

Lemma insert_row_split (x : A) (l : list A) :
  StronglySorted (λ a b, le a b = true) l →
  ∃ l1 l2,
    l = l1 ++ l2 ∧ insert_row le x l = l1 ++ x :: l2
    ∧ Forall (λ y, le x y = false) l1 ∧ Forall (λ y, le x y = true) l2.
Proof.
  induction 1 as [|y l Hl IH Hy]; simpl.
  - exists [], []. by split_and!.
  - destruct (le x y) eqn:Hxy.
    + exists [], (y :: l). split_and!; [done|done|constructor|].
      constructor; [done|]. eapply Forall_impl; [exact Hy|].
      intros z Hz. by eapply le_trans.
    + destruct IH as (l1 & l2 & -> & -> & H1 & H2).
      exists (y :: l1), l2. split_and!; [done|done|by constructor|done].
Qed.

(** The sorted list holds the elements of the list at a rearrangement of
    its places, and equal elements keep the order of their places. *)
Lemma sort_values_stable (l : list A) :
  ∃ idx,
    idx ≡ₚ seq 0 (length l)
    ∧ Forall2 (λ i x, l !! i = Some x) idx (sort_values le l)
    ∧ StronglySorted (stable_order le l) idx.
Proof.
  induction l as [|x l (idx & Hperm & Hpick & Hsorted)].
  - exists []. split_and!; [done|constructor|constructor].
  - destruct (insert_row_split x (sort_values le l)
                (sort_values_sorted le le_total le_trans l))
      as (s1 & s2 & Hs & Hins & H1 & H2).
    rewrite Hs in Hpick.
    apply Forall2_app_inv_r in Hpick as (i1 & i2 & Hp1 & Hp2 & ->).
    apply StronglySorted_app in Hsorted as (Hcross & Hs1 & Hs2).
    assert (∀ u v, stable_order le l u v → stable_order le (x :: l) (S u) (S v)) as Hshift.
    { intros u v Huv a b Ha Hb. destruct (Huv a b Ha Hb) as [? Hlt].
      split; [done|]. intros ?%Hlt. lia. }
    exists ((S <$> i1) ++ 0%nat :: (S <$> i2)). split_and!.
    + rewrite <- Permutation_middle. cbn [length seq]. constructor.
      by rewrite <- fmap_S_seq, <- Hperm, fmap_app.
    + cbn [sort_values]. rewrite Hins.
      apply Forall2_app; [|constructor; [done|]];
        apply Forall2_fmap_l; (eapply Forall2_impl; [eassumption|done]).
    + apply StronglySorted_app_2.
      * intros ? y (u & -> & Hu)%list_elem_of_fmap [->|(v & -> & Hv)%list_elem_of_fmap]%elem_of_cons.
        -- intros a b Ha Hb. simpl in Ha, Hb. simplify_eq.
           destruct (Forall2_elem_of_l _ _ _ u Hp1 Hu) as (a' & Ha' & Hua).
           assert (a' = a) as -> by congruence.
           eapply Forall_forall in H1; [|done].
           split; [|congruence]. destruct (le_total a b); [done|congruence].
        -- by apply Hshift, Hcross.
      * eapply StronglySorted_fmap; [|exact Hs1]. apply Hshift.
      * constructor; [eapply StronglySorted_fmap; [|exact Hs2]; apply Hshift|].
        apply Forall_forall. intros ? (v & -> & Hv)%list_elem_of_fmap a b Ha Hb.
        simpl in Ha, Hb. simplify_eq.
        destruct (Forall2_elem_of_l _ _ _ v Hp2 Hv) as (b' & Hb' & Hvb).
        assert (b' = b) as -> by congruence.
        eapply Forall_forall in H2; [|done]. split; [done|lia].
Qed.
End stable_sort.

Lemma fmap_eq_Forall2 {A B C} (f : A → C) (g : B → C) (l : list A) (k : list B) :
  f <$> l = g <$> k → Forall2 (λ x y, f x = g y) l k.
Proof.
  revert k. induction l as [|x l IH]; intros [|y k] Heq; try done.
  injection Heq as Hxy Hl. constructor; [done|by apply IH].
Qed.

(** X2. When the aggregation ends on a term table as the reader leaves it,
    the rows of [topics] stand in strictly ascending topic order.  The
    string of a topic is made of the terms of the rows of that topic,
    joined by [", "], in the one order in which the weights do not rise
    (a missing weight last) and rows of equal weight keep the order of the
    file; rows of other topics have no part in it. *)
Theorem topics_ascending_and_stable
    (topic_terms : list TermRow) (series : list (scalar * str)) :
  terms_as_read topic_terms →
  topics topic_terms = inr series →
  StronglySorted (λ a b, precedes a b ∧ ¬ precedes b a) series.*1
  ∧ ∀ k s, (k, s) ∈ series →
      ∃ idx first rest,
        NoDup idx
        ∧ (∀ i, i ∈ idx ↔ ∃ r, topic_terms !! i = Some r ∧ key_eq (topic r) k)
        ∧ StronglySorted
            (λ i j, ∀ a b, topic_terms !! i = Some a → topic_terms !! j = Some b →
               follows (weight a) (weight b)
               ∧ (follows (weight b) (weight a) → (i < j)%nat)) idx
        ∧ Forall2 (λ i t, ∃ r, topic_terms !! i = Some r ∧ term r = Str t)
            idx (first :: rest)
        ∧ s = first ++ concat ((λ t, lit ", " ++ t) <$> rest).
Proof.
  intros _ Htopics. split.
  - eapply StronglySorted_weaken; [|by eapply topics_keys_sorted].
    unfold strictly_before. intros a b Hba. rewrite <- !scalar_le_precedes.
    split; [|congruence]. destruct (scalar_le_total a b); [done|congruence].
  - intros k s Hks.
    destruct (topics_inr _ _ Htopics) as [_ Hstr].
    destruct (Hstr k s Hks) as (ss & Hss & ->).
    set (sorted := sort_values term_le topic_terms) in *.
    destruct (sort_values_stable term_le term_le_total term_le_trans topic_terms)
      as (idx & Hperm & Hpick & Hsorted). fold sorted in Hpick.
    set (P' := λ i : nat, match topic_terms !! i with
                          | Some r => same_key (topic r) k = true
                          | None => False
                          end).
    assert (∀ i, Decision (P' i)) as Hdec.
    { intros i. unfold P'. destruct (topic_terms !! i); apply _. }
    assert (Forall2 (λ i x, topic_terms !! i = Some x) (filter P' idx)
              (filter (λ r, same_key (topic r) k) sorted)) as Hpick'.
    { apply Forall2_filter; [|done]. intros i r Hi. unfold P'. rewrite Hi.
      apply (iff_sym (Is_true_true _)). }
    assert (∀ i, i ∈ filter P' idx
                 ↔ ∃ r, topic_terms !! i = Some r ∧ key_eq (topic r) k) as Hmem.
    { intros i. rewrite list_elem_of_filter, Hperm, elem_of_seq. unfold P'. split.
      - intros [Hp _]. destruct (topic_terms !! i) as [r|]; [|done].
        exists r. split; [done|]. by apply same_key_key_eq.
      - intros (r & Hr & Hkey%same_key_key_eq). rewrite Hr. split; [done|].
        apply lookup_lt_Some in Hr. lia. }
    destruct ss as [|first rest].
    { destruct (topics_keys_elem _ _ k Htopics)
        as [Hk (t & Hkt & [i Hi]%list_elem_of_lookup_1)%list_elem_of_fmap];
        [by apply (list_elem_of_fmap_2 fst) in Hks|].
      assert (i ∈ filter P' idx) as Hin.
      { apply Hmem. exists t. split; [done|]. apply same_key_key_eq.
        rewrite <- Hkt. by apply same_key_refl. }
      destruct (Forall2_elem_of_l _ _ _ i Hpick' Hin) as (r & Hr & _).
      apply (list_elem_of_fmap_2 term) in Hr. rewrite Hss in Hr.
      by apply elem_of_nil in Hr. }
    exists (filter P' idx), first, rest. split_and!.
    + apply NoDup_filter. rewrite Hperm. apply NoDup_seq.
    + done.
    + eapply StronglySorted_weaken; [|by apply StronglySorted_filter_both].
      unfold P'. intros i j (Hij & Hi & Hj) a b Ha Hb.
      rewrite Ha in Hi. rewrite Hb in Hj.
      destruct (Hij a b Ha Hb) as [Hab Hlt].
      assert (precedes (topic a) (topic b) ∧ precedes (topic b) (topic a)) as [Hp1 Hp2].
      { rewrite <- !scalar_le_precedes. rewrite (same_key_sym (topic b)) in Hj.
        split; apply same_key_le.
        - by eapply same_key_trans.
        - rewrite same_key_sym. by eapply same_key_trans. }
      apply by_two_spec in Hab as [_ Hab]. split; [by apply Hab|].
      intros Hba. apply Hlt. apply by_two_spec. by split.
    + apply fmap_eq_Forall2 in Hss.
      eapply Forall2_trans; [|exact Hpick'|exact Hss].
      intros i r t Hi Ht. by exists r.
    + apply join_cons.
Qed.

Lemma topics_ascending_and_stable_witness :
  StronglySorted (λ a b, precedes a b ∧ ¬ precedes b a) [Int 1; Int 2]
  ∧ ∀ k s, (k, s) ∈ [(Int 1, lit "gene, cell, dna"); (Int 2, lit "virus")] →
      ∃ idx first rest,
        NoDup idx
        ∧ (∀ i, i ∈ idx ↔ ∃ r, mixed_terms !! i = Some r ∧ key_eq (topic r) k)
        ∧ StronglySorted
            (λ i j, ∀ a b, mixed_terms !! i = Some a → mixed_terms !! j = Some b →
               follows (weight a) (weight b)
               ∧ (follows (weight b) (weight a) → (i < j)%nat)) idx
        ∧ Forall2 (λ i t, ∃ r, mixed_terms !! i = Some r ∧ term r = Str t)
            idx (first :: rest)
        ∧ s = first ++ concat ((λ t, lit ", " ++ t) <$> rest).
Proof.
  apply (topics_ascending_and_stable mixed_terms
           [(Int 1, lit "gene, cell, dna"); (Int 2, lit "virus")]).
  - repeat split; reflexivity.
  - reflexivity.
Defined.
